(** * Faster Chromium: a shallow embedding of the content script and of the
    page-context script, with the properties of the optimisation engine.

    The content script ([content.js]) is a set of closures over a handful of
    mutable variables and the live document.  It is embedded as state-passing
    code: one record [State] holds the script's variables together with the
    part of the host the script reads or writes (the document tree, the idle
    queue, registered listeners, the clock), and every JavaScript function
    becomes a computation in a small state-and-exception monad [M].  The
    page-context script ([injected.js]) is embedded in [Module Injected].

    Host facilities the script calls but does not define (URL parsing, layout,
    intrinsic image sizes) are inputs: the URL parser is a field of the
    environment record, bounding boxes and intrinsic sizes are fields of each
    element.  Pixel quantities are integers. *)

From Stdlib Require Import ZArith String Ascii List Bool Lia.
From stdpp Require Import base option list gmap strings pretty.

Open Scope Z_scope.

(** ** JavaScript string helpers *)

Definition startsWith (s p : string) : bool := String.prefix p s.

Definition lower_ascii (c : ascii) : ascii :=
  let n := nat_of_ascii c in
  if ((65 <=? n) && (n <=? 90))%nat then ascii_of_nat (n + 32) else c.

Fixpoint toLowerCase (s : string) : string :=
  match s with
  | EmptyString => EmptyString
  | String c s' => String (lower_ascii c) (toLowerCase s')
  end.

(** [includes hay needle]: [needle] occurs somewhere in [hay]. *)
Fixpoint includes (hay needle : string) : bool :=
  match hay with
  | EmptyString => String.prefix needle EmptyString
  | String _ hay' => String.prefix needle hay || includes hay' needle
  end.

(** The pattern [/\/(logout|signout|delete|remove|unsubscribe|revoke)/i]. *)
Definition state_changing_words : list string :=
  ["logout"; "signout"; "delete"; "remove"; "unsubscribe"; "revoke"].

Definition state_changing_test (pathname : string) : bool :=
  existsb (fun w => includes (toLowerCase pathname) ("/" +:+ w))
          state_changing_words.

(** [parseInt]: leading white space, an optional sign, an optional [0x]
    prefix, then the longest run of digits; [None] is [NaN]. *)
Definition is_space (c : ascii) : bool :=
  let n := nat_of_ascii c in
  ((n =? 32) || ((9 <=? n) && (n <=? 13)))%nat.

Fixpoint skip_space (s : string) : string :=
  match s with
  | String c s' => if is_space c then skip_space s' else s
  | EmptyString => s
  end.

Definition digit_value (radix : Z) (c : ascii) : option Z :=
  let n := Z.of_nat (nat_of_ascii c) in
  let v := if (48 <=? n) && (n <=? 57) then Some (n - 48)
           else if (97 <=? n) && (n <=? 122) then Some (n - 87)
           else if (65 <=? n) && (n <=? 90) then Some (n - 55)
           else None in
  match v with
  | Some d => if d <? radix then Some d else None
  | None => None
  end.

Fixpoint parse_digits (radix : Z) (s : string) (acc : option Z) : option Z :=
  match s with
  | String c s' =>
      match digit_value radix c with
      | Some d => parse_digits radix s' (Some (default 0 acc * radix + d))
      | None => acc
      end
  | EmptyString => acc
  end.

Definition parseInt (s : string) : option Z :=
  let s1 := skip_space s in
  let '(neg, s2) :=
    match s1 with
    | String "-" r => (true, r)
    | String "+" r => (false, r)
    | _ => (false, s1)
    end in
  let '(radix, s3) :=
    match s2 with
    | String "0" (String "x" r) => (16, r)
    | String "0" (String "X" r) => (16, r)
    | _ => (10, s2)
    end in
  match parse_digits radix s3 None with
  | Some v => Some (if neg : bool then - v else v)
  | None => None
  end.

(** ** URLs

    The fields of a parsed [URL] object that the scripts read. *)
Module URL.
Record t := mk {
  href : string;
  origin : string;
  protocol : string;
  pathname : string;
  search : string
}.
End URL.

(** ** The document tree *)

(** [getBoundingClientRect()] of an element, in viewport coordinates. *)
Record DOMRect := mkRect {
  r_top : Z;
  r_bottom : Z;
  r_left : Z;
  r_right : Z;
  r_width : Z;
  r_height : Z
}.

(** An element: its identity, local name, content attributes, and the
    host-computed properties the scripts consult.  The host-computed ones
    are as the host last reported them: a write to an attribute leaves them as
    they are, and a new layout reaches the scripts as a change of the page
    ([EvPage] below). *)
Record elem := mkElem {
  eid : nat;                      (* object identity *)
  tag : string;                   (* local name, lower case *)
  attrs : gmap string string;     (* content attributes *)
  rect : DOMRect;                 (* getBoundingClientRect() *)
  naturalWidth : Z;               (* img.naturalWidth *)
  naturalHeight : Z;              (* img.naturalHeight *)
  sheet : bool;                   (* link.sheet is not null *)
  nonce : string;                 (* script.nonce *)
  aspectRatio : string;           (* style.aspectRatio *)
  paused : bool                   (* media.paused *)
}.

#[local] Set Warnings "-register-all".

Inductive node :=
| Text (data : string)
| Element (e : elem) (childNodes : list node).

(** A document is the child list of the [Document] node, a [list node]; its
    first element child is [document.documentElement]. *)

Definition hasAttribute (e : elem) (name : string) : bool :=
  bool_decide (is_Some (attrs e !! name)).

Definition getAttribute (e : elem) (name : string) : option string :=
  attrs e !! name.

Definition set_attrs (a : gmap string string) (e : elem) : elem :=
  mkElem (eid e) (tag e) a (rect e) (naturalWidth e) (naturalHeight e)
         (sheet e) (nonce e) (aspectRatio e) (paused e).

Definition setAttribute (name value : string) (e : elem) : elem :=
  set_attrs (<[name := value]> (attrs e)) e.

Definition removeAttribute (name : string) (e : elem) : elem :=
  set_attrs (delete name (attrs e)) e.

Definition set_aspectRatio (v : string) (e : elem) : elem :=
  mkElem (eid e) (tag e) (attrs e) (rect e) (naturalWidth e) (naturalHeight e)
         (sheet e) (nonce e) v (paused e).

Definition pause (e : elem) : elem :=
  mkElem (eid e) (tag e) (attrs e) (rect e) (naturalWidth e) (naturalHeight e)
         (sheet e) (nonce e) (aspectRatio e) true.

(** A reflected string attribute ([link.media], [link.rel], [iframe.width],
    [script.type]): the attribute's value, or the empty string. *)
Definition reflected (e : elem) (name : string) : string :=
  default "" (attrs e !! name).

(** A freshly created element: [document.createElement(tag)]. *)
Definition zeroRect : DOMRect := mkRect 0 0 0 0 0 0.

Definition newElement (k : nat) (t : string) : elem :=
  mkElem k t ∅ zeroRect 0 0 false "" "" true.

(** *** Traversal in tree order *)

(** Elements of a subtree in tree order, each with its parent's local name
    (needed by the child combinator in [main > div]). *)
Fixpoint walk (parent : option string) (n : node) : list (option string * elem) :=
  match n with
  | Text _ => []
  | Element e kids => (parent, e) :: flat_map (walk (Some (tag e))) kids
  end.

Definition walk_doc (d : list node) : list (option string * elem) :=
  flat_map (walk None) d.

Definition elems (d : list node) : list elem := map snd (walk_doc d).

(** [querySelectorAll(sel).forEach(body)] where [body] only touches the
    element it is given: the selection is a static list taken before any
    mutation, so each selected element is rewritten by [body] in place. *)
Fixpoint map_node (f : option string -> elem -> elem)
         (parent : option string) (n : node) : node :=
  match n with
  | Text s => Text s
  | Element e kids => Element (f parent e) (map (map_node f (Some (tag e))) kids)
  end.

Definition map_doc (f : option string -> elem -> elem) (d : list node) : list node :=
  map (map_node f None) d.

Definition forEach (sel : option string -> elem -> bool) (body : elem -> elem)
  : list node -> list node :=
  map_doc (fun p e => if sel p e then body e else e).

(** Rewriting one node, addressed by identity. *)
Definition update_elem (k : nat) (body : elem -> elem) : list node -> list node :=
  forEach (fun _ e => Nat.eqb (eid e) k) body.

Definition find_elem (k : nat) (d : list node) : option elem :=
  find (fun e => Nat.eqb (eid e) k) (elems d).

(** The subtree rooted at the element with identity [k]. *)
Fixpoint find_node (k : nat) (n : node) : option node :=
  match n with
  | Text _ => None
  | Element e kids =>
      if Nat.eqb (eid e) k then Some n
      else (fix go (l : list node) : option node :=
              match l with
              | [] => None
              | x :: l' =>
                  match find_node k x with
                  | Some r => Some r
                  | None => go l'
                  end
              end) kids
  end.

Fixpoint find_subtree (k : nat) (d : list node) : option node :=
  match d with
  | [] => None
  | x :: d' =>
      match find_node k x with
      | Some r => Some r
      | None => find_subtree k d'
      end
  end.

(** *** Insertion and removal *)

Definition is_head (e : elem) : bool := String.eqb (tag e) "head".

(** [document.documentElement]: the first element child of the document. *)
Fixpoint documentElement (d : list node) : option (elem * list node) :=
  match d with
  | [] => None
  | Element e kids :: _ => Some (e, kids)
  | Text _ :: d' => documentElement d'
  end.

(** [document.head]: the first [head] element child of the root element. *)
Fixpoint first_head (kids : list node) : option elem :=
  match kids with
  | [] => None
  | Element e _ :: kids' => if is_head e then Some e else first_head kids'
  | Text _ :: kids' => first_head kids'
  end.

Definition document_head (d : list node) : option elem :=
  match documentElement d with
  | Some (_, kids) => first_head kids
  | None => None
  end.

Fixpoint append_to_head (n : node) (kids : list node) : list node :=
  match kids with
  | [] => []
  | Element e sub :: kids' =>
      if is_head e then Element e (sub ++ [n]) :: kids'
      else Element e sub :: append_to_head n kids'
  | Text s :: kids' => Text s :: append_to_head n kids'
  end.

Fixpoint on_documentElement (f : list node -> list node) (d : list node)
  : list node :=
  match d with
  | [] => []
  | Element e kids :: d' => Element e (f kids) :: d'
  | Text s :: d' => Text s :: on_documentElement f d'
  end.

(** [document.head.appendChild(n)], meaningful when [document_head] is
    [Some _]. *)
Definition head_appendChild (n : node) (d : list node) : list node :=
  on_documentElement (append_to_head n) d.

(** [document.documentElement.appendChild(n)]. *)
Definition root_appendChild (n : node) (d : list node) : list node :=
  on_documentElement (fun kids => kids ++ [n]) d.

(** [el.remove()] for the element with identity [k]. *)
Fixpoint prune (k : nat) (n : node) : list node :=
  match n with
  | Text s => [Text s]
  | Element e kids =>
      if Nat.eqb (eid e) k then []
      else [Element e (flat_map (prune k) kids)]
  end.

Definition remove_elem (k : nat) (d : list node) : list node :=
  flat_map (prune k) d.

(** [old.parentNode.replaceChild(new, old)] for the element [old] with
    identity [k]. *)
Fixpoint replace_in (k : nat) (new : node) (n : node) : node :=
  match n with
  | Text s => Text s
  | Element e kids =>
      if Nat.eqb (eid e) k then new
      else Element e (map (replace_in k new) kids)
  end.

Definition replaceChild (k : nat) (new : node) (d : list node) : list node :=
  map (replace_in k new) d.

Definition getElementById (i : string) (d : list node) : option elem :=
  find (fun e => bool_decide (attrs e !! "id" = Some i)) (elems d).

(** ** Script and host state *)

(** A configuration snapshot as the content script receives it; a key that
    is missing from the message reads as [undefined], which is falsy. *)
Module Settings.
Record t := mk {
  enabled : bool;
  disableAnimations : bool;
  lazyLoadImages : bool;
  disableAutoplay : bool;
  throttleTimers : bool;
  prefetchDNS : bool;
  preloadLCP : bool;
  prefetchLinks : bool;
  optimizeImagePriority : bool;
  lazyLoadIframes : bool;
  reduceMediaPreload : bool;
  fontDisplaySwap : bool;
  contentVisibility : bool;
  stabilizeLayout : bool;
  nonBlockingCSS : bool;
  deferScripts : bool;
  passiveListeners : bool
}.
End Settings.

Record Metrics := mkMetrics {
  startTime : Z;
  loadTime : option Z;
  animationsDisabled : Z;
  imagesOptimized : Z;
  iframesLazyLoaded : Z;
  mediaOptimized : Z;
  cssNonBlocked : Z;
  scriptsDeferred : Z;
  linksPrefetched : Z;
  dnsPrefetched : Z
}.

Definition set_startTime (v : Z) (x : Metrics) : Metrics :=
  mkMetrics v (loadTime x) (animationsDisabled x) (imagesOptimized x) (iframesLazyLoaded x) (mediaOptimized x) (cssNonBlocked x) (scriptsDeferred x) (linksPrefetched x) (dnsPrefetched x).

Definition set_loadTime (v : option Z) (x : Metrics) : Metrics :=
  mkMetrics (startTime x) v (animationsDisabled x) (imagesOptimized x) (iframesLazyLoaded x) (mediaOptimized x) (cssNonBlocked x) (scriptsDeferred x) (linksPrefetched x) (dnsPrefetched x).

Definition set_animationsDisabled (v : Z) (x : Metrics) : Metrics :=
  mkMetrics (startTime x) (loadTime x) v (imagesOptimized x) (iframesLazyLoaded x) (mediaOptimized x) (cssNonBlocked x) (scriptsDeferred x) (linksPrefetched x) (dnsPrefetched x).

Definition set_imagesOptimized (v : Z) (x : Metrics) : Metrics :=
  mkMetrics (startTime x) (loadTime x) (animationsDisabled x) v (iframesLazyLoaded x) (mediaOptimized x) (cssNonBlocked x) (scriptsDeferred x) (linksPrefetched x) (dnsPrefetched x).

Definition set_iframesLazyLoaded (v : Z) (x : Metrics) : Metrics :=
  mkMetrics (startTime x) (loadTime x) (animationsDisabled x) (imagesOptimized x) v (mediaOptimized x) (cssNonBlocked x) (scriptsDeferred x) (linksPrefetched x) (dnsPrefetched x).

Definition set_mediaOptimized (v : Z) (x : Metrics) : Metrics :=
  mkMetrics (startTime x) (loadTime x) (animationsDisabled x) (imagesOptimized x) (iframesLazyLoaded x) v (cssNonBlocked x) (scriptsDeferred x) (linksPrefetched x) (dnsPrefetched x).

Definition set_cssNonBlocked (v : Z) (x : Metrics) : Metrics :=
  mkMetrics (startTime x) (loadTime x) (animationsDisabled x) (imagesOptimized x) (iframesLazyLoaded x) (mediaOptimized x) v (scriptsDeferred x) (linksPrefetched x) (dnsPrefetched x).

Definition set_scriptsDeferred (v : Z) (x : Metrics) : Metrics :=
  mkMetrics (startTime x) (loadTime x) (animationsDisabled x) (imagesOptimized x) (iframesLazyLoaded x) (mediaOptimized x) (cssNonBlocked x) v (linksPrefetched x) (dnsPrefetched x).

Definition set_linksPrefetched (v : Z) (x : Metrics) : Metrics :=
  mkMetrics (startTime x) (loadTime x) (animationsDisabled x) (imagesOptimized x) (iframesLazyLoaded x) (mediaOptimized x) (cssNonBlocked x) (scriptsDeferred x) v (dnsPrefetched x).

Definition set_dnsPrefetched (v : Z) (x : Metrics) : Metrics :=
  mkMetrics (startTime x) (loadTime x) (animationsDisabled x) (imagesOptimized x) (iframesLazyLoaded x) (mediaOptimized x) (cssNonBlocked x) (scriptsDeferred x) (linksPrefetched x) v.

Inductive ReadyState := Loading | Interactive | Complete.

(** What reading [chrome.runtime?.id] does: yields an id, yields nothing, or
    throws (the extension was reloaded). *)
Inductive Runtime := RuntimeOk | RuntimeNoId | RuntimeThrows.

Record Env := mkEnv {
  location_href : string;
  location_origin : string;
  location_pathname : string;
  innerHeight : Z;
  innerWidth : Z;
  readyState : ReadyState;
  runtime : Runtime;
  now : Z;                                  (* performance.now(), in ms *)
  parseURL : string -> option URL.t;        (* new URL(s, location.href) *)
  parseAbsURL : string -> option URL.t;     (* new URL(s) *)
  injectedURL : string                      (* chrome.runtime.getURL('injected.js') *)
}.

Record CSSRule := mkRule {
  isFontFace : bool;                        (* rule instanceof CSSFontFaceRule *)
  fontDisplay : string
}.

Record StyleSheet := mkSheet {
  readable : bool;                          (* reading cssRules does not throw *)
  cssRules : list CSSRule
}.

(** Callbacks handed to [requestIdleCallback]. *)
Inductive IdleCallback :=
| CleanupBatch
| PrefetchInject (io : nat) (href : string).

Record IdleTask := mkTask {
  callback : IdleCallback;
  deadline : Z                              (* registration time + timeout *)
}.

(** One-shot [load] listeners attached to a node. *)
Inductive NodeListener :=
| RestoreMedia
| StabilizeOnLoad
| RemoveSelf.

(** An [IntersectionObserver] created by [prefetchVisibleLinks], with the
    [prefetched] set of its closure. *)
Record IntersectionObserver := mkIO {
  prefetched : list string;
  observed : list nat
}.

Record State := mkState {
  settings : option Settings.t;   (* the script's variables *)
  observer : bool;   (* [observer] is not null *)
  optimizationsApplied : bool;
  cleanupScheduled : bool;
  performanceMetrics : Metrics;
  contextValid : bool;
  document : list node;   (* the host *)
  styleSheets : list StyleSheet;
  next_eid : nat;   (* identity of the next created element *)
  env : Env;
  observing : bool;   (* the mutation observer is connected *)
  idle_queue : list IdleTask;
  dcl_listener : bool;   (* DOMContentLoaded -> onDOMContentLoaded *)
  load_listener : bool;   (* window load -> onLoad *)
  node_listeners : list (nat * NodeListener);
  io_observers : list IntersectionObserver
}.

Definition set_settings (v : option Settings.t) (x : State) : State :=
  mkState v (observer x) (optimizationsApplied x) (cleanupScheduled x)
    (performanceMetrics x) (contextValid x) (document x) (styleSheets x)
    (next_eid x) (env x) (observing x) (idle_queue x) (dcl_listener x)
    (load_listener x) (node_listeners x) (io_observers x).

Definition set_observer (v : bool) (x : State) : State :=
  mkState (settings x) v (optimizationsApplied x) (cleanupScheduled x)
    (performanceMetrics x) (contextValid x) (document x) (styleSheets x)
    (next_eid x) (env x) (observing x) (idle_queue x) (dcl_listener x)
    (load_listener x) (node_listeners x) (io_observers x).

Definition set_optimizationsApplied (v : bool) (x : State) : State :=
  mkState (settings x) (observer x) v (cleanupScheduled x)
    (performanceMetrics x) (contextValid x) (document x) (styleSheets x)
    (next_eid x) (env x) (observing x) (idle_queue x) (dcl_listener x)
    (load_listener x) (node_listeners x) (io_observers x).

Definition set_cleanupScheduled (v : bool) (x : State) : State :=
  mkState (settings x) (observer x) (optimizationsApplied x) v
    (performanceMetrics x) (contextValid x) (document x) (styleSheets x)
    (next_eid x) (env x) (observing x) (idle_queue x) (dcl_listener x)
    (load_listener x) (node_listeners x) (io_observers x).

Definition set_performanceMetrics (v : Metrics) (x : State) : State :=
  mkState (settings x) (observer x) (optimizationsApplied x)
    (cleanupScheduled x) v (contextValid x) (document x) (styleSheets x)
    (next_eid x) (env x) (observing x) (idle_queue x) (dcl_listener x)
    (load_listener x) (node_listeners x) (io_observers x).

Definition set_contextValid (v : bool) (x : State) : State :=
  mkState (settings x) (observer x) (optimizationsApplied x)
    (cleanupScheduled x) (performanceMetrics x) v (document x) (styleSheets
    x) (next_eid x) (env x) (observing x) (idle_queue x) (dcl_listener x)
    (load_listener x) (node_listeners x) (io_observers x).

Definition set_document (v : list node) (x : State) : State :=
  mkState (settings x) (observer x) (optimizationsApplied x)
    (cleanupScheduled x) (performanceMetrics x) (contextValid x) v
    (styleSheets x) (next_eid x) (env x) (observing x) (idle_queue x)
    (dcl_listener x) (load_listener x) (node_listeners x) (io_observers x).

Definition set_styleSheets (v : list StyleSheet) (x : State) : State :=
  mkState (settings x) (observer x) (optimizationsApplied x)
    (cleanupScheduled x) (performanceMetrics x) (contextValid x) (document
    x) v (next_eid x) (env x) (observing x) (idle_queue x) (dcl_listener x)
    (load_listener x) (node_listeners x) (io_observers x).

Definition set_next_eid (v : nat) (x : State) : State :=
  mkState (settings x) (observer x) (optimizationsApplied x)
    (cleanupScheduled x) (performanceMetrics x) (contextValid x) (document
    x) (styleSheets x) v (env x) (observing x) (idle_queue x) (dcl_listener
    x) (load_listener x) (node_listeners x) (io_observers x).

Definition set_env (v : Env) (x : State) : State :=
  mkState (settings x) (observer x) (optimizationsApplied x)
    (cleanupScheduled x) (performanceMetrics x) (contextValid x) (document
    x) (styleSheets x) (next_eid x) v (observing x) (idle_queue x)
    (dcl_listener x) (load_listener x) (node_listeners x) (io_observers x).

Definition set_observing (v : bool) (x : State) : State :=
  mkState (settings x) (observer x) (optimizationsApplied x)
    (cleanupScheduled x) (performanceMetrics x) (contextValid x) (document
    x) (styleSheets x) (next_eid x) (env x) v (idle_queue x) (dcl_listener
    x) (load_listener x) (node_listeners x) (io_observers x).

Definition set_idle_queue (v : list IdleTask) (x : State) : State :=
  mkState (settings x) (observer x) (optimizationsApplied x)
    (cleanupScheduled x) (performanceMetrics x) (contextValid x) (document
    x) (styleSheets x) (next_eid x) (env x) (observing x) v (dcl_listener x)
    (load_listener x) (node_listeners x) (io_observers x).

Definition set_dcl_listener (v : bool) (x : State) : State :=
  mkState (settings x) (observer x) (optimizationsApplied x)
    (cleanupScheduled x) (performanceMetrics x) (contextValid x) (document
    x) (styleSheets x) (next_eid x) (env x) (observing x) (idle_queue x) v
    (load_listener x) (node_listeners x) (io_observers x).

Definition set_load_listener (v : bool) (x : State) : State :=
  mkState (settings x) (observer x) (optimizationsApplied x)
    (cleanupScheduled x) (performanceMetrics x) (contextValid x) (document
    x) (styleSheets x) (next_eid x) (env x) (observing x) (idle_queue x)
    (dcl_listener x) v (node_listeners x) (io_observers x).

Definition set_node_listeners (v : list (nat * NodeListener)) (x : State) : State :=
  mkState (settings x) (observer x) (optimizationsApplied x)
    (cleanupScheduled x) (performanceMetrics x) (contextValid x) (document
    x) (styleSheets x) (next_eid x) (env x) (observing x) (idle_queue x)
    (dcl_listener x) (load_listener x) v (io_observers x).

Definition set_io_observers (v : list IntersectionObserver) (x : State) : State :=
  mkState (settings x) (observer x) (optimizationsApplied x)
    (cleanupScheduled x) (performanceMetrics x) (contextValid x) (document
    x) (styleSheets x) (next_eid x) (env x) (observing x) (idle_queue x)
    (dcl_listener x) (load_listener x) (node_listeners x) v.

(** ** The monad of the scripts: state and exceptions

    A JavaScript exception leaves the mutations made so far in place, so
    [Throw] carries the state at the point of the throw. *)

Inductive Res (A : Type) :=
| Ok (a : A) (s : State)
| Throw (s : State).

Arguments Ok {A} a s.
Arguments Throw {A} s.

Definition M (A : Type) : Type := State -> Res A.

Definition ret {A} (a : A) : M A := fun s => Ok a s.

Definition bind {A B} (m : M A) (k : A -> M B) : M B :=
  fun s => match m s with
           | Ok a s' => k a s'
           | Throw s' => Throw s'
           end.

Definition gets {A} (f : State -> A) : M A := fun s => Ok (f s) s.

Definition modify (f : State -> State) : M unit := fun s => Ok tt (f s).

Definition throw {A} : M A := fun s => Throw s.

(** [try { m } catch (e) { h }] *)
Definition try_catch {A} (m h : M A) : M A :=
  fun s => match m s with
           | Ok a s' => Ok a s'
           | Throw s' => h s'
           end.

Declare Scope js_scope.
Delimit Scope js_scope with js.
Notation "'let!' x ':=' m 'in' k" := (bind m (fun x => k))
  (at level 10, x name, m at level 100, k at level 200) : js_scope.
Notation "m >> k" := (bind m (fun _ => k))
  (at level 90, right associativity) : js_scope.
Open Scope js_scope.

(** The state an event handler leaves behind, whether it returned or threw. *)
Definition exec {A} (m : M A) (s : State) : State :=
  match m s with
  | Ok _ s' => s'
  | Throw s' => s'
  end.

Definition modify_document (f : list node -> list node) : M unit :=
  modify (fun s => set_document (f (document s)) s).

Definition modify_metrics (f : Metrics -> Metrics) : M unit :=
  modify (fun s => set_performanceMetrics (f (performanceMetrics s)) s).

(** Reading a property of [settings]; a [TypeError] while it is [null]. *)
Definition the_settings : M Settings.t :=
  fun s => match settings s with
           | Some c => Ok c s
           | None => Throw s
           end.

Definition createElement (t : string) : M elem :=
  let! k := gets next_eid in
  modify (set_next_eid (S k)) >>
  ret (newElement k t).

(** [document.head.appendChild(n)]; a [TypeError] when there is no head. *)
Definition head_append (n : node) : M unit :=
  let! d := gets document in
  match document_head d with
  | Some _ => modify_document (head_appendChild n)
  | None => throw
  end.

(** [(document.head || document.documentElement).appendChild(n)] *)
Definition head_or_root_append (n : node) : M unit :=
  let! d := gets document in
  match document_head d with
  | Some _ => modify_document (head_appendChild n)
  | None =>
      match documentElement d with
      | Some _ => modify_document (root_appendChild n)
      | None => throw
      end
  end.

(** [requestIdleCallback(cb, { timeout })] *)
Definition requestIdleCallback (cb : IdleCallback) (timeout : Z) : M unit :=
  modify (fun s =>
    set_idle_queue (idle_queue s ++ [mkTask cb (now (env s) + timeout)]) s).

(** [node.addEventListener('load', l, { once: true })] *)
Definition addLoadListener (k : nat) (l : NodeListener) : M unit :=
  modify (fun s => set_node_listeners (node_listeners s ++ [(k, l)]) s).

(** ** The content script *)

(** Check if extension context is still valid. *)
Definition isContextValid : M bool :=
  let! valid := gets contextValid in
  if valid then
    let! rt := gets (fun s => runtime (env s)) in
    match rt with
    | RuntimeOk => ret true
    | RuntimeNoId => ret false
    | RuntimeThrows =>
        modify (set_contextValid false) >>
        let! obs := gets observer in
        (if obs : bool
         then modify (fun s => set_observer false (set_observing false s))
         else ret tt) >>
        ret false
    end
  else ret false.

(** *** Existing performance features *)

Definition animations_styleId : string := "faster-chromium-disable-animations".

Definition animations_css : string :=
  "*, *::before, *::after { animation-duration: 0.001ms !important; animation-delay: 0ms !important; animation-iteration-count: 1 !important; transition-duration: 0.001ms !important; transition-delay: 0ms !important; scroll-behavior: auto !important; }".

Definition is_some {A} (o : option A) : bool :=
  match o with Some _ => true | None => false end.

Definition disableAnimations : M unit :=
  let! c := the_settings in
  if negb (Settings.disableAnimations c) then ret tt else
  let! d := gets document in
  if is_some (getElementById animations_styleId d) then ret tt else
  let! style := createElement "style" in
  head_or_root_append
    (Element (setAttribute "id" animations_styleId style) [Text animations_css]) >>
  modify_metrics (set_animationsDisabled 1).

Definition tag_is (t : string) (e : elem) : bool := String.eqb (tag e) t.

(** Number of elements a [forEach] body ran its counted branch on. *)
Definition count_sel (sel : option string -> elem -> bool) (d : list node) : Z :=
  Z.of_nat (length (List.filter (fun pe => sel (fst pe) (snd pe)) (walk_doc d))).

(** [img:not([loading])] *)
Definition sel_img_not_loading (_ : option string) (e : elem) : bool :=
  tag_is "img" e && negb (hasAttribute e "loading").

Definition setupLazyLoading : M unit :=
  let! c := the_settings in
  if negb (Settings.lazyLoadImages c) then ret tt else
  modify_document (forEach sel_img_not_loading (setAttribute "loading" "lazy")).

(** [iframe:not([loading])] *)
Definition sel_iframe_not_loading (_ : option string) (e : elem) : bool :=
  tag_is "iframe" e && negb (hasAttribute e "loading").

Definition truthy (s : string) : bool := negb (String.eqb s "").

(** [iframe.width && parseInt(iframe.width) <= 1], likewise for height. *)
Definition at_most_one_pixel (e : elem) (name : string) : bool :=
  truthy (reflected e name) &&
  match parseInt (reflected e name) with
  | Some v => v <=? 1
  | None => false
  end.

Definition sel_iframe_lazy (p : option string) (e : elem) : bool :=
  sel_iframe_not_loading p e &&
  negb (at_most_one_pixel e "width") && negb (at_most_one_pixel e "height").

Definition setupLazyLoadIframes : M unit :=
  let! c := the_settings in
  if negb (Settings.lazyLoadIframes c) then ret tt else
  let! d := gets document in
  modify_document (forEach sel_iframe_lazy (setAttribute "loading" "lazy")) >>
  modify_metrics (fun m =>
    set_iframesLazyLoaded (iframesLazyLoaded m + count_sel sel_iframe_lazy d) m).

(** [video[autoplay]] and [audio[autoplay]] *)
Definition sel_autoplay (t : string) (_ : option string) (e : elem) : bool :=
  tag_is t e && hasAttribute e "autoplay".

Definition stopAutoplay (e : elem) : elem := pause (removeAttribute "autoplay" e).

Definition disableAutoplay : M unit :=
  let! c := the_settings in
  if negb (Settings.disableAutoplay c) then ret tt else
  modify_document (forEach (sel_autoplay "video") stopAutoplay) >>
  modify_document (forEach (sel_autoplay "audio") stopAutoplay).

(** [video:not([data-fc-media-opt]), audio:not([data-fc-media-opt])] *)
Definition sel_media_unclaimed (_ : option string) (e : elem) : bool :=
  (tag_is "video" e || tag_is "audio" e) && negb (hasAttribute e "data-fc-media-opt").

(** [!preload || preload === 'auto'] *)
Definition preload_eager (e : elem) : bool :=
  match getAttribute e "preload" with
  | None => true
  | Some v => negb (truthy v) || String.eqb v "auto"
  end.

Definition reduceMedia (media : elem) : elem :=
  let media1 := setAttribute "data-fc-media-opt" "" media in
  if preload_eager media1 then setAttribute "preload" "metadata" media1
  else media1.

Definition reduceMediaPreload : M unit :=
  let! c := the_settings in
  if negb (Settings.reduceMediaPreload c) then ret tt else
  let! d := gets document in
  modify_document (forEach sel_media_unclaimed reduceMedia) >>
  modify_metrics (fun m =>
    set_mediaOptimized
      (mediaOptimized m +
       count_sel (fun p e => sel_media_unclaimed p e && preload_eager e) d) m).

(** *** Resource loading optimizations *)

(** A reflected URL attribute ([a.href], [link.href], [img.src],
    [script.src]): empty when the attribute is absent, the serialised URL
    when it resolves against the document, its raw value otherwise. *)
Definition url_prop (ev : Env) (e : elem) (name : string) : string :=
  match attrs e !! name with
  | None => ""
  | Some v =>
      match parseURL ev v with
      | Some u => URL.href u
      | None => v
      end
  end.

(** [el.href] is defined on anchors and links, [el.src] on images and
    scripts; elsewhere the property is [undefined]. *)
Definition el_href (ev : Env) (e : elem) : string :=
  if tag_is "a" e || tag_is "link" e then url_prop ev e "href" else "".

Definition el_src (ev : Env) (e : elem) : string :=
  if tag_is "img" e || tag_is "script" e then url_prop ev e "src" else "".

(** [a[href], img[src], script[src], link[href]] *)
Definition sel_resources (_ : option string) (e : elem) : bool :=
  (tag_is "a" e && hasAttribute e "href") ||
  (tag_is "img" e && hasAttribute e "src") ||
  (tag_is "script" e && hasAttribute e "src") ||
  (tag_is "link" e && hasAttribute e "href").

(** [el.href || el.src || el.getAttribute('href')] *)
Definition resource_url (ev : Env) (e : elem) : string :=
  if truthy (el_href ev e) then el_href ev e
  else if truthy (el_src ev e) then el_src ev e
  else default "" (getAttribute e "href").

(** The origin an element contributes to the set, if any. *)
Definition cross_origin (ev : Env) (e : elem) : option string :=
  let url := resource_url ev e in
  if negb (truthy url) then None else
  match parseURL ev url with
  | Some parsed =>
      if negb (String.eqb (URL.origin parsed) (location_origin ev))
         && startsWith (URL.protocol parsed) "http"
      then Some (URL.origin parsed)
      else None
  | None => None
  end.

(** [Set.prototype.add]: insertion order, no duplicates. *)
Definition set_add (x : string) (l : list string) : list string :=
  if bool_decide (x ∈ l) then l else l ++ [x].

Definition selected (sel : option string -> elem -> bool) (d : list node)
  : list elem :=
  map snd (List.filter (fun pe => sel (fst pe) (snd pe)) (walk_doc d)).

Definition collect_origins (ev : Env) (d : list node) : list string :=
  fold_left (fun origins el =>
               match cross_origin ev el with
               | Some o => set_add o origins
               | None => origins
               end)
            (selected sel_resources d) [].

(** [link[rel="r"][href="h"]] matches *)
Definition is_link_with (r h : string) (e : elem) : bool :=
  tag_is "link" e &&
  bool_decide (attrs e !! "rel" = Some r) &&
  bool_decide (attrs e !! "href" = Some h).

Definition has_link (r h : string) (d : list node) : bool :=
  existsb (is_link_with r h) (elems d).

Definition dns_link (k : nat) (origin : string) : node :=
  Element (setAttribute "href" origin
             (setAttribute "rel" "dns-prefetch" (newElement k "link"))) [].

Definition preconnect_link (k : nat) (origin : string) : node :=
  Element (setAttribute "crossorigin" "anonymous"
             (setAttribute "href" origin
                (setAttribute "rel" "preconnect" (newElement k "link")))) [].

(** The loop [for (const origin of origins)] with its counter. *)
Fixpoint dns_loop (origins : list string) (count : Z) : M unit :=
  match origins with
  | [] => ret tt
  | origin :: rest =>
      if 10 <=? count then ret tt else
      let! d := gets document in
      if has_link "dns-prefetch" origin d then dns_loop rest count else
      let! dns := createElement "link" in
      head_append (dns_link (eid dns) origin) >>
      let! preconnect := createElement "link" in
      head_append (preconnect_link (eid preconnect) origin) >>
      modify_metrics (fun m => set_dnsPrefetched (dnsPrefetched m + 1) m) >>
      dns_loop rest (count + 1)
  end.

Definition setupDNSPrefetch : M unit :=
  let! c := the_settings in
  if negb (Settings.prefetchDNS c) then ret tt else
  let! origins := gets (fun s => collect_origins (env s) (document s)) in
  dns_loop origins 0.

(** [img[src]] *)
Definition sel_img_src (_ : option string) (e : elem) : bool :=
  tag_is "img" e && hasAttribute e "src".

Definition in_viewport (ev : Env) (r : DOMRect) : bool :=
  (r_top r <? innerHeight ev) && (0 <? r_bottom r) &&
  (r_left r <? innerWidth ev) && (0 <? r_right r).

(** The [images.forEach] scan: the first image of strictly largest area. *)
Definition largest_visible (ev : Env) (images : list elem) : option elem * Z :=
  fold_left (fun acc img =>
               let rect := rect img in
               if in_viewport ev rect then
                 let area := r_width rect * r_height rect in
                 if snd acc <? area then (Some img, area) else acc
               else acc)
            images (None, 0).

Definition preload_link (k : nat) (src : string) : node :=
  Element (setAttribute "href" src
             (setAttribute "as" "image"
                (setAttribute "rel" "preload" (newElement k "link")))) [].

Definition preloadLCPCandidate : M unit :=
  let! c := the_settings in
  if negb (Settings.preloadLCP c) then ret tt else
  let! ev := gets env in
  let! d := gets document in
  match largest_visible ev (selected sel_img_src d) with
  | (Some largestImg, largestArea) =>
      let src := el_src ev largestImg in
      if truthy src && (5000 <? largestArea) then
        if has_link "preload" src d then ret tt else
        let! link := createElement "link" in
        head_append (preload_link (eid link) src)
      else ret tt
  | (None, _) => ret tt
  end.

(** The body of the [forEach] in [optimizeImageLoading]. *)
Definition optimizeImage (viewportHeight : Z) (img : elem) : elem :=
  if hasAttribute img "data-fc-optimized" then img else
  let img1 := setAttribute "data-fc-optimized" "" img in
  let img2 := if negb (hasAttribute img1 "decoding")
              then setAttribute "decoding" "async" img1 else img1 in
  if negb (hasAttribute img2 "fetchpriority") then
    let rect := rect img2 in
    if (r_top rect <? viewportHeight) && (0 <? r_bottom rect)
    then setAttribute "fetchpriority" "high" img2
    else setAttribute "fetchpriority" "low" img2
  else img2.

Definition sel_img (_ : option string) (e : elem) : bool := tag_is "img" e.

Definition sel_img_unclaimed (p : option string) (e : elem) : bool :=
  sel_img p e && negb (hasAttribute e "data-fc-optimized").

Definition optimizeImageLoading : M unit :=
  let! c := the_settings in
  if negb (Settings.optimizeImagePriority c) then ret tt else
  let! viewportHeight := gets (fun s => innerHeight (env s)) in
  let! d := gets document in
  modify_document (forEach sel_img (optimizeImage viewportHeight)) >>
  modify_metrics (fun m =>
    set_imagesOptimized (imagesOptimized m + count_sel sel_img_unclaimed d) m).

Definition MAX_PREFETCH : nat := 5.

(** [a[href]] *)
Definition sel_a_href (_ : option string) (e : elem) : bool :=
  tag_is "a" e && hasAttribute e "href".

(** The exclusion filter applied to an intersecting link, after [new URL(href)]
    succeeded. *)
Definition prefetch_allowed (ev : Env) (url : URL.t) : bool :=
  String.eqb (URL.origin url) (location_origin ev) &&
  negb (String.eqb (URL.pathname url) (location_pathname ev)) &&
  startsWith (URL.protocol url) "http" &&
  negb (truthy (URL.search url)) &&
  negb (state_changing_test (URL.pathname url)).

Definition io_prefetched (i : nat) (s : State) : list string :=
  match io_observers s !! i with
  | Some io => prefetched io
  | None => []
  end.

Definition alter_io (i : nat) (f : IntersectionObserver -> IntersectionObserver)
  : M unit :=
  modify (fun s => set_io_observers (alter f i (io_observers s)) s).

Definition prefetch_link (k : nat) (href : string) : node :=
  Element (setAttribute "href" href
             (setAttribute "rel" "prefetch" (newElement k "link"))) [].

(** The callback given to [requestIdleCallback] by the intersection handler
    of observer [i]. *)
Definition prefetchInject (i : nat) (href : string) : M unit :=
  let! done := gets (io_prefetched i) in
  if (MAX_PREFETCH <=? length done)%nat then ret tt else
  let! link := createElement "link" in
  head_append (prefetch_link (eid link) href) >>
  alter_io i (fun io => mkIO (set_add href (prefetched io)) (observed io)) >>
  modify_metrics (fun m => set_linksPrefetched (linksPrefetched m + 1) m).

(** One [entries.forEach] iteration of the intersection callback.  A target
    that is no longer in the document is read as having no [href]. *)
Definition onIntersectionEntry (i : nat) (entry : nat * bool) : M unit :=
  let '(target, isIntersecting) := entry in
  if negb isIntersecting then ret tt else
  let! done := gets (io_prefetched i) in
  if (MAX_PREFETCH <=? length done)%nat then ret tt else
  let! ev := gets env in
  let! d := gets document in
  let href := match find_elem target d with
              | Some a => el_href ev a
              | None => ""
              end in
  if negb (truthy href) || bool_decide (href ∈ done) then ret tt else
  match parseAbsURL ev href with
  | Some url =>
      if prefetch_allowed ev url then
        requestIdleCallback (PrefetchInject i href) 2000 >>
        alter_io i (fun io =>
          mkIO (prefetched io)
               (List.filter (fun k => negb (Nat.eqb k target)) (observed io)))
      else ret tt
  | None =>
      alter_io i (fun io =>
        mkIO (prefetched io)
             (List.filter (fun k => negb (Nat.eqb k target)) (observed io)))
  end.

Fixpoint forM {A} (l : list A) (body : A -> M unit) : M unit :=
  match l with
  | [] => ret tt
  | x :: l' => body x >> forM l' body
  end.

Definition onIntersection (i : nat) (entries : list (nat * bool)) : M unit :=
  forM entries (onIntersectionEntry i).

Definition prefetchVisibleLinks : M unit :=
  let! c := the_settings in
  if negb (Settings.prefetchLinks c) then ret tt else
  let! d := gets document in
  modify (fun s =>
    set_io_observers
      (io_observers s ++ [mkIO [] (map eid (selected sel_a_href d))]) s).

(** *** Rendering optimizations *)

Definition swapFontDisplay (sheet : StyleSheet) : StyleSheet :=
  if readable sheet then
    mkSheet (readable sheet)
            (map (fun rule => if isFontFace rule
                              then mkRule (isFontFace rule) "swap"
                              else rule)
                 (cssRules sheet))
  else sheet.

Definition injectFontDisplaySwap : M unit :=
  let! c := the_settings in
  if negb (Settings.fontDisplaySwap c) then ret tt else
  modify (fun s => set_styleSheets (map swapFontDisplay (styleSheets s)) s).

Definition cv_styleId : string := "faster-chromium-content-visibility".

Definition cv_css : string :=
  "[data-fc-cv] { content-visibility: auto; contain-intrinsic-size: auto 500px; }".

(** [section, article, main > div, [role="region"]] *)
Definition sel_cv_candidates (parent : option string) (e : elem) : bool :=
  tag_is "section" e || tag_is "article" e ||
  (tag_is "div" e && bool_decide (parent = Some "main")) ||
  bool_decide (attrs e !! "role" = Some "region").

(** [rect.top > viewportHeight * 1.5 && rect.height > 100] *)
Definition below_fold (viewportHeight : Z) (e : elem) : bool :=
  (3 * viewportHeight <? 2 * r_top (rect e)) && (100 <? r_height (rect e)).

Definition sel_cv_tagged (viewportHeight : Z) (p : option string) (e : elem)
  : bool :=
  sel_cv_candidates p e && below_fold viewportHeight e.

Definition injectContentVisibility : M unit :=
  let! c := the_settings in
  if negb (Settings.contentVisibility c) then ret tt else
  let! d := gets document in
  if is_some (getElementById cv_styleId d) then ret tt else
  let! viewportHeight := gets (fun s => innerHeight (env s)) in
  let tagged := count_sel (sel_cv_tagged viewportHeight) d in
  modify_document
    (forEach (sel_cv_tagged viewportHeight) (setAttribute "data-fc-cv" "")) >>
  if 0 <? tagged then
    let! style := createElement "style" in
    head_append (Element (setAttribute "id" cv_styleId style) [Text cv_css])
  else ret tt.

(** [img:not([data-fc-stabilized])] *)
Definition sel_img_unstabilized (_ : option string) (e : elem) : bool :=
  tag_is "img" e && negb (hasAttribute e "data-fc-stabilized").

Definition has_dimensions (img : elem) : bool :=
  hasAttribute img "width" && hasAttribute img "height".

(** [img.naturalWidth && img.naturalHeight] *)
Definition has_natural_size (img : elem) : bool :=
  negb (naturalWidth img =? 0) && negb (naturalHeight img =? 0).

Definition fillDimensions (img : elem) : elem :=
  setAttribute "data-fc-stabilized" ""
    (set_aspectRatio (pretty (naturalWidth img) +:+ " / " +:+ pretty (naturalHeight img))
       (setAttribute "height" (pretty (naturalHeight img))
          (setAttribute "width" (pretty (naturalWidth img)) img))).

Definition sel_stabilize_now (p : option string) (e : elem) : bool :=
  sel_img_unstabilized p e && negb (has_dimensions e) && has_natural_size e.

Definition sel_stabilize_later (p : option string) (e : elem) : bool :=
  sel_img_unstabilized p e && negb (has_dimensions e) && negb (has_natural_size e).

(** The [load] listener [onLoad] that [stabilizeImageLayout] attaches. *)
Definition stabilizeOnLoad (img : elem) : elem :=
  if has_natural_size img && negb (hasAttribute img "data-fc-stabilized")
  then fillDimensions img else img.

Definition stabilizeImageLayout : M unit :=
  let! c := the_settings in
  if negb (Settings.stabilizeLayout c) then ret tt else
  let! d := gets document in
  modify_document (forEach sel_stabilize_now fillDimensions) >>
  modify (fun s =>
    set_node_listeners
      (node_listeners s ++
       map (fun img => (eid img, StabilizeOnLoad)) (selected sel_stabilize_later d))
      s).

(** *** Render-blocking CSS mitigation *)

(** [handleNewStylesheet(link)], the link being addressed by its identity;
    a link that is not in the document has nothing to transform. *)
Definition handleNewStylesheet (k : nat) : M unit :=
  let! c := the_settings in
  if negb (Settings.nonBlockingCSS c) then ret tt else
  let! ev := gets env in
  let! d := gets document in
  match find_elem k d with
  | None => ret tt
  | Some link =>
      if negb (String.eqb (reflected link "rel") "stylesheet")
         || negb (truthy (url_prop ev link "href")) then ret tt else
      if hasAttribute link "data-fc-nb" then ret tt else
      if sheet link then ret tt else
      if truthy (reflected link "media")
         && negb (String.eqb (reflected link "media") "all")
         && negb (String.eqb (reflected link "media") "") then ret tt else
      modify_document
        (update_elem k (fun e => setAttribute "media" "print"
                                   (setAttribute "data-fc-nb" "" e))) >>
      addLoadListener k RestoreMedia >>
      modify_metrics (fun m => set_cssNonBlocked (cssNonBlocked m + 1) m)
  end.

(** The [load] listener of [handleNewStylesheet]: [link.media = 'all']. *)
Definition restoreMedia (link : elem) : elem := setAttribute "media" "all" link.

(** *** Core infrastructure *)

Definition cleanupBatch : M unit :=
  modify (set_cleanupScheduled false) >>
  let! valid := isContextValid in
  if negb valid then ret tt else
  setupLazyLoading >>
  setupLazyLoadIframes >>
  optimizeImageLoading >>
  disableAutoplay >>
  reduceMediaPreload >>
  stabilizeImageLayout.

Definition scheduleCleanup : M unit :=
  let! scheduled := gets cleanupScheduled in
  if scheduled then ret tt else
  let! valid := isContextValid in
  if negb valid then ret tt else
  modify (set_cleanupScheduled true) >>
  requestIdleCallback CleanupBatch 200.

(** An entry of [mutation.addedNodes]: a text node, or an element given by
    its identity. *)
Inductive AddedNode :=
| AddedText
| AddedElement (k : nat).

(** [link[rel="stylesheet"]] *)
Definition sel_stylesheet_link (e : elem) : bool :=
  tag_is "link" e && bool_decide (attrs e !! "rel" = Some "stylesheet").

(** [node.querySelectorAll(sel)]: the matching proper descendants. *)
Definition descendants (n : node) : list elem :=
  match n with
  | Text _ => []
  | Element e kids => map snd (flat_map (walk (Some (tag e))) kids)
  end.

(** The body of [for (const node of mutation.addedNodes)]; the result says
    whether the node was an element. *)
Definition onAddedNode (nd : AddedNode) : M bool :=
  match nd with
  | AddedText => ret false
  | AddedElement k =>
      let! d := gets document in
      match find_subtree k d with
      | Some (Element e kids) =>
          (if tag_is "link" e then handleNewStylesheet k else ret tt) >>
          forM (map eid (List.filter sel_stylesheet_link (descendants (Element e kids))))
               handleNewStylesheet >>
          ret true
      | _ => ret true
      end
  end.

Fixpoint onAddedNodes (l : list AddedNode) (hasNewElements : bool) : M bool :=
  match l with
  | [] => ret hasNewElements
  | nd :: l' =>
      let! isElement := onAddedNode nd in
      onAddedNodes l' (hasNewElements || isElement)
  end.

(** The [MutationObserver] callback; a mutation record is given by its
    [addedNodes]. *)
Definition onMutations (mutations : list (list AddedNode)) : M unit :=
  let! valid := isContextValid in
  if negb valid then ret tt else
  let! hasNewElements := onAddedNodes (concat mutations) false in
  if hasNewElements : bool then scheduleCleanup else ret tt.

Definition setupMutationObserver : M unit :=
  let! obs := gets observer in
  (if obs : bool then modify (set_observing false) else ret tt) >>
  modify (set_observer true) >>
  let! d := gets document in
  match documentElement d with
  | Some _ => modify (set_observing true)
  | None => throw
  end.

Definition quote : string := String "034" EmptyString.

Definition json_bool (b : bool) : string := if b then "true" else "false".

(** [JSON.stringify({ throttleTimers, passiveListeners, deferScripts })] *)
Definition stringify_injected (c : Settings.t) : string :=
  "{" +:+ quote +:+ "throttleTimers" +:+ quote +:+ ":"
      +:+ json_bool (Settings.throttleTimers c) +:+ ","
      +:+ quote +:+ "passiveListeners" +:+ quote +:+ ":"
      +:+ json_bool (Settings.passiveListeners c) +:+ ","
      +:+ quote +:+ "deferScripts" +:+ quote +:+ ":"
      +:+ json_bool (Settings.deferScripts c) +:+ "}".

Definition injectPageScript : M unit :=
  let! valid := isContextValid in
  if negb valid then ret tt else
  try_catch
    (let! script := createElement "script" in
     let! ev := gets env in
     let! c := the_settings in
     head_or_root_append
       (Element (setAttribute "data-faster-chromium-settings" (stringify_injected c)
                   (setAttribute "src" (injectedURL ev) script)) []) >>
     addLoadListener (eid script) RemoveSelf)
    (ret tt).

Definition onDOMContentLoaded : M unit :=
  setupLazyLoading >>
  setupLazyLoadIframes >>
  disableAutoplay >>
  reduceMediaPreload >>
  optimizeImageLoading >>
  setupDNSPrefetch >>
  preloadLCPCandidate >>
  injectFontDisplaySwap >>
  injectContentVisibility >>
  stabilizeImageLayout.

Definition onLoad : M unit :=
  let! loadTime := gets (fun s => loadTime (performanceMetrics s)) in
  (match loadTime with
   | None =>
       let! t := gets (fun s => now (env s)) in
       modify_metrics (fun m => set_loadTime (Some (t - startTime m)) m)
   | Some _ => ret tt
   end) >>
  stabilizeImageLayout >>
  prefetchVisibleLinks.

Definition applyOptimizations : M unit :=
  let! applied := gets optimizationsApplied in
  let! conf := gets settings in
  match conf with
  | None => ret tt
  | Some c =>
      if applied || negb (Settings.enabled c) then ret tt else
      modify (set_optimizationsApplied true) >>
      injectPageScript >>
      disableAnimations >>
      let! rs := gets (fun s => readyState (env s)) in
      (match rs with
       | Loading =>
           modify (set_dcl_listener true) >>
           modify (set_load_listener true)
       | Interactive =>
           onDOMContentLoaded >>
           modify (set_load_listener true)
       | Complete =>
           onDOMContentLoaded >>
           onLoad
       end) >>
      setupMutationObserver
  end.

Definition removeById (i : string) : M unit :=
  let! d := gets document in
  match getElementById i d with
  | Some el => modify_document (remove_elem (eid el))
  | None => ret tt
  end.

(** [[data-fc-cv]] *)
Definition sel_cv_marked (_ : option string) (e : elem) : bool :=
  hasAttribute e "data-fc-cv".

Definition removeInjectedStyles : M unit :=
  forM [animations_styleId; cv_styleId] removeById >>
  modify_document (forEach sel_cv_marked (removeAttribute "data-fc-cv")).

(** *** Initialization and messages *)

(** The callback of [chrome.runtime.sendMessage({ type: 'GET_SETTINGS' })]:
    [None] when [chrome.runtime.lastError] is set or the response carries no
    settings. *)
Definition onSettingsResponse (response : option Settings.t) : M unit :=
  match response with
  | Some c => modify (set_settings (Some c)) >> applyOptimizations
  | None => ret tt
  end.

Inductive Message :=
| SETTINGS_UPDATED (c : Settings.t)
| GET_METRICS
| REFRESH_OPTIMIZATIONS.

(** The [chrome.runtime.onMessage] listener. *)
Definition onMessage (message : Message) : M unit :=
  let! valid := isContextValid in
  if negb valid then ret tt else
  match message with
  | SETTINGS_UPDATED c =>
      modify (set_settings (Some c)) >>
      modify (set_optimizationsApplied false) >>
      if Settings.enabled c then applyOptimizations else
        let! obs := gets observer in
        (if obs : bool
         then modify (fun s => set_observer false (set_observing false s))
         else ret tt) >>
        removeInjectedStyles
  | GET_METRICS => ret tt
  | REFRESH_OPTIMIZATIONS =>
      modify (set_optimizationsApplied false) >>
      applyOptimizations
  end.

(** The metrics object sent in reply to [GET_METRICS]. *)
Definition metricsResponse (s : State) : Metrics :=
  let m := performanceMetrics s in
  set_loadTime (Some (match loadTime m with
                      | Some t => t
                      | None => now (env s) - startTime m
                      end)) m.

(** [init()]; [sendThrows] says whether [chrome.runtime.sendMessage] throws. *)
Definition init (sendThrows : bool) : M unit :=
  let! valid := isContextValid in
  if negb valid then ret tt else
  if sendThrows then modify (set_contextValid false) else ret tt.

(** ** The host: events delivered to the content script *)

Definition with_env (f : Env -> Env) (s : State) : State := set_env (f (env s)) s.

Definition set_readyState (r : ReadyState) (ev : Env) : Env :=
  mkEnv (location_href ev) (location_origin ev) (location_pathname ev)
        (innerHeight ev) (innerWidth ev) r (runtime ev) (now ev)
        (parseURL ev) (parseAbsURL ev) (injectedURL ev).

Definition set_runtime (r : Runtime) (ev : Env) : Env :=
  mkEnv (location_href ev) (location_origin ev) (location_pathname ev)
        (innerHeight ev) (innerWidth ev) (readyState ev) r (now ev)
        (parseURL ev) (parseAbsURL ev) (injectedURL ev).

Definition set_now (t : Z) (ev : Env) : Env :=
  mkEnv (location_href ev) (location_origin ev) (location_pathname ev)
        (innerHeight ev) (innerWidth ev) (readyState ev) (runtime ev) t
        (parseURL ev) (parseAbsURL ev) (injectedURL ev).

Definition set_viewport (h w : Z) (ev : Env) : Env :=
  mkEnv (location_href ev) (location_origin ev) (location_pathname ev)
        h w (readyState ev) (runtime ev) (now ev)
        (parseURL ev) (parseAbsURL ev) (injectedURL ev).

(** The state in which the content script starts: its variable initialisers,
    on a given document and environment. *)
Definition initial_state (d : list node) (sheets : list StyleSheet) (ev : Env)
  : State :=
  mkState None false false false
          (mkMetrics (now ev) None 0 0 0 0 0 0 0 0) true
          d sheets (S (list_max (map eid (elems d)))) ev
          false [] false false [] [].

Definition runIdleCallback (cb : IdleCallback) : M unit :=
  match cb with
  | CleanupBatch => cleanupBatch
  | PrefetchInject i href => prefetchInject i href
  end.

Definition runNodeListener (k : nat) (l : NodeListener) : M unit :=
  match l with
  | RestoreMedia => modify_document (update_elem k restoreMedia)
  | StabilizeOnLoad => modify_document (update_elem k stabilizeOnLoad)
  | RemoveSelf => modify_document (remove_elem k)
  end.

(** The [load] event on node [k]: its one-shot listeners run in registration
    order and are dropped. *)
Definition onNodeLoad (k : nat) : M unit :=
  let! ls := gets node_listeners in
  modify (set_node_listeners (List.filter (fun kl => negb (Nat.eqb (fst kl) k)) ls)) >>
  forM (List.filter (fun kl => Nat.eqb (fst kl) k) ls)
       (fun kl => runNodeListener k (snd kl)).

Inductive Event :=
| EvInit (sendThrows : bool)
| EvSettingsResponse (response : option Settings.t)
| EvMessage (message : Message)
| EvMutations (mutations : list (list AddedNode))
| EvIdle (i : nat)
| EvDOMContentLoaded
| EvWindowLoad
| EvNodeLoad (k : nat)
| EvIntersection (i : nat) (entries : list (nat * bool))
| EvPage (d : list node) (sheets : list StyleSheet)
| EvResize (h w : Z)
| EvRuntime (r : Runtime)
| EvTick (t : Z).

(** One host step; [None] when the host cannot deliver the event in this
    state.  The clock may not pass the deadline of a pending idle task: a task
    registered with a timeout runs by then at the latest. *)
Definition step (e : Event) (s : State) : option State :=
  match e with
  | EvInit sendThrows => Some (exec (init sendThrows) s)
  | EvSettingsResponse r => Some (exec (onSettingsResponse r) s)
  | EvMessage m => Some (exec (onMessage m) s)
  | EvMutations ms =>
      if observing s then Some (exec (onMutations ms) s) else None
  | EvIdle i =>
      match idle_queue s !! i with
      | Some task =>
          Some (exec (runIdleCallback (callback task))
                     (set_idle_queue (delete i (idle_queue s)) s))
      | None => None
      end
  | EvDOMContentLoaded =>
      match readyState (env s) with
      | Loading =>
          let s' := with_env (set_readyState Interactive) s in
          Some (if dcl_listener s then exec onDOMContentLoaded s' else s')
      | _ => None
      end
  | EvWindowLoad =>
      match readyState (env s) with
      | Interactive =>
          let s' := with_env (set_readyState Complete) s in
          Some (if load_listener s then exec onLoad s' else s')
      | _ => None
      end
  | EvNodeLoad k => Some (exec (onNodeLoad k) s)
  | EvIntersection i entries =>
      match io_observers s !! i with
      | Some io =>
          if forallb (fun en => bool_decide (fst en ∈ observed io)) entries
          then Some (exec (onIntersection i entries) s)
          else None
      | None => None
      end
  | EvPage d sheets =>
      Some (set_next_eid (Nat.max (next_eid s) (S (list_max (map eid (elems d)))))
              (set_styleSheets sheets (set_document d s)))
  | EvResize h w => Some (with_env (set_viewport h w) s)
  | EvRuntime r => Some (with_env (set_runtime r) s)
  | EvTick t =>
      if (now (env s) <=? t)
         && forallb (fun task => t <=? deadline task) (idle_queue s)
      then Some (with_env (set_now t) s)
      else None
  end.

(** Running a sequence of events. *)
Fixpoint run (es : list Event) (s : State) : option State :=
  match es with
  | [] => Some s
  | e :: es' =>
      match step e s with
      | Some s' => run es' s'
      | None => None
      end
  end.

Definition reachable (s0 s : State) : Prop := exists es, run es s0 = Some s.

(** ** The page-context script *)

Module Injected.

(** [injectedSettings], parsed from the script tag's data attribute. *)
Record InjectedSettings := mkInjected {
  throttleTimers : bool;
  passiveListeners : bool;
  deferScripts : bool
}.

(** *** Timer throttling *)

(** The [delay] argument of a timer call: absent, or a number. *)
Inductive Delay :=
| Undefined
| NaN
| Number (ms : Z).

(** [delay || 0] *)
Definition or_zero (delay : Delay) : Z :=
  match delay with
  | Undefined => 0
  | NaN => 0
  | Number ms => if ms =? 0 then 0 else ms
  end.

Section Timers.
Context {Callback Arg : Type}.

(** A timer registered with the host. *)
Record Timer := mkTimer {
  timer_callback : Callback;
  timer_delay : Delay;
  timer_args : list Arg;
  timer_repeats : bool
}.

(** A timer function: registers a timer, returns its handle. *)
Definition TimerFn : Type :=
  Callback -> Delay -> list Arg -> list Timer -> nat * list Timer.

Record Window := mkWindow {
  setInterval : TimerFn;
  setTimeout : TimerFn
}.

(** The host's own timer functions. *)
Definition nativeTimer (repeats : bool) : TimerFn :=
  fun callback delay args timers =>
    (S (length timers), timers ++ [mkTimer callback delay args repeats]).

Definition nativeWindow : Window :=
  mkWindow (nativeTimer true) (nativeTimer false).

Definition minInterval : Z := 100.
Definition minTimeout : Z := 10.

(** The [if (injectedSettings.throttleTimers)] block. *)
Definition patchTimers (st : InjectedSettings) (window : Window) : Window :=
  if throttleTimers st then
    let originalSetInterval := setInterval window in
    let originalSetTimeout := setTimeout window in
    mkWindow
      (fun callback delay args =>
         let minDelay := Z.max (or_zero delay) minInterval in
         originalSetInterval callback (Number minDelay) args)
      (fun callback delay args =>
         let minDelay := Z.max (or_zero delay) minTimeout in
         originalSetTimeout callback (Number minDelay) args)
  else window.
End Timers.

(** *** Script deferral *)

Definition copied (name : string) : bool :=
  negb (String.eqb name "src") && negb (String.eqb name "defer")
  && negb (String.eqb name "type").

(** The element [deferred] once its attributes are set. *)
Definition deferredScript (k : nat) (src : string) (script : elem) : elem :=
  map_fold (fun name value deferred =>
              if copied name then setAttribute name value deferred
              else deferred)
           (setAttribute "defer" ""
              (setAttribute "src" src (newElement k "script")))
           (attrs script).

(** [deferScript(script)] on the document [d], [n] being the identity the
    next created element receives.  [script.parentNode] is not null when
    the script is in the document. *)
Definition deferScript (ev : Env) (script : elem) (dn : list node * nat)
  : list node * nat :=
  let '(d, n) := dn in
  let src := url_prop ev script "src" in
  if negb (truthy src) then dn else
  if hasAttribute script "async" || hasAttribute script "defer"
     || String.eqb (reflected script "type") "module" then dn else
  if hasAttribute script "nomodule" then dn else
  if truthy (nonce script) || hasAttribute script "integrity" then dn else
  match parseURL ev src with
  | None => dn
  | Some url =>
      if negb (String.eqb (URL.origin url) (location_origin ev)) then dn else
      let deferred := deferredScript n src script in
      if is_some (find_elem (eid script) d)
      then (replaceChild (eid script) (Element deferred []) d, S n)
      else (d, S n)
  end.

End Injected.

(** [DEFAULT_SETTINGS] of the background script. *)
Definition DEFAULT_SETTINGS : Settings.t :=
  Settings.mk true true true true true true true false true true true true
              true true true false true.

(** ** Sample inputs

    Concrete documents, environments and event sequences on which the
    definitions above are evaluated. *)

Module Samples.

Definition throttling : Injected.InjectedSettings :=
  Injected.mkInjected true false false.

(** A URL parser given by a finite table of the URLs the samples use; any
    other string fails to parse. *)
Definition https (origin pathname search : string) : URL.t :=
  URL.mk (origin +:+ pathname +:+ search) origin "https:" pathname search.

Fixpoint assoc (s : string) (t : list (string * URL.t)) : option URL.t :=
  match t with
  | [] => None
  | (k, u) :: t' => if String.eqb k s then Some u else assoc s t'
  end.

Definition site : string := "https://example.com".

Definition cdn (i : nat) : string :=
  "https://cdn" +:+ pretty i +:+ ".example.net".

(** For each origin: the origin itself, its root, and one resource. *)
Definition origin_entries (origin : string) : list (string * URL.t) :=
  [ (origin, https origin "/" "");
    (origin +:+ "/", https origin "/" "");
    (origin +:+ "/lib.js", https origin "/lib.js" "") ].

Definition table : list (string * URL.t) :=
  [ ("https://example.com/index.html", https site "/index.html" "");
    ("https://example.com/about", https site "/about" "");
    ("/about", https site "/about" "");
    ("https://example.com/logout?token=x", https site "/logout" "?token=x");
    ("/logout?token=x", https site "/logout" "?token=x");
    ("https://example.com/hero.png", https site "/hero.png" "");
    ("https://example.com/app.js", https site "/app.js" "");
    ("https://example.com/main.css", https site "/main.css" "") ]
  ++ flat_map origin_entries (site :: map cdn (seq 1 15)).

Definition parse (s : string) : option URL.t := assoc s table.

Definition page (rs : ReadyState) : Env :=
  mkEnv "https://example.com/index.html" site "/index.html"
        800 1280 rs RuntimeOk 0 parse parse
        "chrome-extension://faster/injected.js".

Definition el (k : nat) (t : string) (a : list (string * string))
           (r : DOMRect) : elem :=
  mkElem k t (list_to_map a) r 0 0 false "" "" true.

Definition box (top left width height : Z) : DOMRect :=
  mkRect top (top + height) left (left + width) width height.

Definition html (head body : list node) : list node :=
  [Element (el 0 "html" [] (box 0 0 1280 4000))
     [Element (el 1 "head" [] zeroRect) head;
      Element (el 2 "body" [] (box 0 0 1280 4000)) body]].

(** A content script that has received [c] and holds document [d]. *)
Definition loaded (d : list node) (ev : Env) (c : Settings.t) : State :=
  set_settings (Some c) (initial_state d [] ev).

(** An image level with the viewport but 2000px to the right of it. *)
Definition beside_img : elem :=
  el 3 "img" [("src", "https://example.com/hero.png")] (box 10 2000 100 100).

Definition beside : State :=
  loaded (html [] [Element beside_img []]) (page Complete) DEFAULT_SETTINGS.

(** A stylesheet link without a [media] attribute, not yet loaded. *)
Definition css_link : elem :=
  el 3 "link" [("rel", "stylesheet"); ("href", "https://example.com/main.css")]
     zeroRect.

Definition styled : State :=
  loaded (html [Element css_link []] []) (page Loading) DEFAULT_SETTINGS.

(** A page loading one script from each of [n] other origins. *)
Definition cdn_script (i : nat) : node :=
  Element (el (2 + i) "script" [("src", cdn i +:+ "/lib.js")] zeroRect) [].

Definition many_origins (n : nat) : State :=
  loaded (html [] (map cdn_script (seq 1 n))) (page Complete) DEFAULT_SETTINGS.

(** A page with a logout link carrying a token and a plain link, both in
    view, and link prefetching switched on. *)
Definition prefetching : Settings.t :=
  Settings.mk true true true true true true true true true true true true
              true true true false true.

Definition logout_a : elem :=
  el 3 "a" [("href", "/logout?token=x")] (box 10 10 100 20).

Definition about_a : elem :=
  el 4 "a" [("href", "/about")] (box 40 10 100 20).

Definition with_links : State :=
  initial_state (html [] [Element logout_a []; Element about_a []]) []
                (page Complete).

Definition links_seen : list Event :=
  [ EvSettingsResponse (Some prefetching);
    EvIntersection 0 [(3%nat, true); (4%nat, true)] ].

Definition links_seen_state : State :=
  default with_links (run links_seen with_links).

(** An active content script on a page with one image, then three
    mutation batches, each adding an element, 30ms apart. *)
Definition plain_img : elem :=
  el 3 "img" [("src", "https://example.com/hero.png")] (box 10 10 100 100).

Definition active : State :=
  exec (onSettingsResponse (Some DEFAULT_SETTINGS))
       (initial_state (html [] [Element plain_img []]) [] (page Complete)).

Definition burst : list Event :=
  [ EvMutations [[AddedElement 3]];
    EvTick 30;
    EvMutations [[AddedText; AddedElement 3]];
    EvTick 60;
    EvMutations [[AddedElement 2]; [AddedElement 3]] ].

Definition after_burst : State := default active (run burst active).

(** A same-origin script that is already asynchronous. *)
Definition async_script : elem :=
  el 3 "script" [("src", "https://example.com/app.js"); ("async", "")] zeroRect.


(** The master toggle switched off, every feature flag left as it was. *)
Definition disabled : Settings.t :=
  Settings.mk false true true true true true true false true true true true
              true true true false true.

(** The page inserts a new image; the observer reports it; before the host
    is idle the user switches the extension off; then the host is idle. *)
Definition new_img : elem :=
  el 10 "img" [("src", "https://example.com/hero.png")] (box 2000 10 100 100).

Definition grown : list node :=
  html [] [Element plain_img []; Element new_img []].

Definition switched_off : list Event :=
  [ EvPage grown [];
    EvMutations [[AddedElement 10]];
    EvMessage (SETTINGS_UPDATED disabled) ].

Definition off_state : State := default active (run switched_off active).

Definition off_then_idle : State :=
  default off_state (step (EvIdle 0) off_state).

(** The content script starts while the document is still loading, is
    switched off, and then [DOMContentLoaded] fires. *)
Definition far_section : elem := el 3 "section" [] (box 2000 0 1280 600).

Definition early : State :=
  initial_state (html [] [Element far_section []]) [] (page Loading).

Definition off_while_loading : list Event :=
  [ EvSettingsResponse (Some DEFAULT_SETTINGS);
    EvMessage (SETTINGS_UPDATED disabled) ].

Definition off_early : State := default early (run off_while_loading early).

Definition off_then_ready : State :=
  default off_early (step EvDOMContentLoaded off_early).

(** A page with a large image in view, an autoplaying video, a section far
    below the fold and scripts from two other origins. *)
Definition hero_img : elem :=
  el 3 "img" [("src", "https://example.com/hero.png")] (box 10 10 800 600).

Definition clip : elem := el 4 "video" [("autoplay", "")] (box 700 0 300 200).

Definition far : elem := el 5 "section" [] (box 2000 0 1280 600).

Definition mixed_page : list node :=
  html [] [Element hero_img []; Element clip []; Element far [];
           cdn_script 4; cdn_script 5].

Definition mixed : State := loaded mixed_page (page Complete) DEFAULT_SETTINGS.

(** The content script has run on that page; then the window is made taller,
    so that the section is no longer below the fold, and the master flag is
    switched off and on again. *)
Definition running : State :=
  exec (onSettingsResponse (Some DEFAULT_SETTINGS))
       (initial_state mixed_page [] (page Complete)).

Definition taller : State :=
  default running (step (EvResize 1400 1280) running).

Definition off_on : list Event :=
  [ EvMessage (SETTINGS_UPDATED disabled);
    EvMessage (SETTINGS_UPDATED DEFAULT_SETTINGS) ].

Definition toggled : State := default taller (run off_on taller).

End Samples.

(** * Properties of the page-context script *)

Module InjectedProps.
Import Injected.

(** The delay a caller asks for, an absent (or non-numeric) delay counting
    as 0. *)
Definition requested (delay : Delay) : Z :=
  match delay with
  | Number ms => ms
  | Undefined | NaN => 0
  end.

Lemma or_zero_requested delay : or_zero delay = requested delay.
Proof.
  destruct delay as [| |ms]; simpl; try reflexivity.
  destruct (Z.eqb_spec ms 0); congruence.
Qed.

(** C10: with timer throttling enabled, the patched [setTimeout] and
    [setInterval] hand the callback and the extra arguments to the original
    functions unchanged, with the delay replaced by
    [max (requested delay) 10], respectively [max (requested delay) 100];
    an absent delay counts as 0 and the delay is never decreased. *)
Theorem patched_timers_raise_delay {Callback Arg : Type}
    (st : InjectedSettings) (window : @Window Callback Arg)
    (callback : Callback) (delay : Delay) (args : list Arg) :
  throttleTimers st = true ->
  setTimeout (patchTimers st window) callback delay args
    = setTimeout window callback (Number (Z.max (requested delay) 10)) args
  /\ setInterval (patchTimers st window) callback delay args
    = setInterval window callback (Number (Z.max (requested delay) 100)) args
  /\ requested delay <= Z.max (requested delay) 10
  /\ requested delay <= Z.max (requested delay) 100
  /\ requested Undefined = 0.
Proof.
  intros Hon. unfold patchTimers. rewrite Hon. cbn [setTimeout setInterval].
  rewrite or_zero_requested. unfold minTimeout, minInterval.
  repeat split; lia.
Qed.

Lemma patched_timers_raise_delay_witness :
  setTimeout (patchTimers Samples.throttling (@nativeWindow nat nat))
             7%nat (Number 3) [1%nat] []
  = (1%nat, [mkTimer 7%nat (Number 10) [1%nat] false]).
Proof.
  destruct (patched_timers_raise_delay Samples.throttling
              (@nativeWindow nat nat) 7%nat (Number 3) [1%nat] eq_refl)
    as [H _].
  rewrite H. reflexivity.
Defined.

Lemma url_prop_absent ev script name :
  attrs script !! name = None -> url_prop ev script name = "".
Proof. unfold url_prop. intros ->. reflexivity. Qed.

(** The conditions under which [deferScript] skips a script. *)
Definition not_deferrable (ev : Env) (script : elem) : Prop :=
  attrs script !! "src" = None
  \/ url_prop ev script "src" = ""
  \/ is_Some (attrs script !! "async")
  \/ is_Some (attrs script !! "defer")
  \/ is_Some (attrs script !! "nomodule")
  \/ is_Some (attrs script !! "integrity")
  \/ attrs script !! "type" = Some "module"
  \/ nonce script <> ""
  \/ match parseURL ev (url_prop ev script "src") with
     | Some url => URL.origin url <> location_origin ev
     | None => True
     end.

Lemma hasAttribute_true e name :
  is_Some (attrs e !! name) -> hasAttribute e name = true.
Proof. intros H. unfold hasAttribute. by apply bool_decide_eq_true. Qed.

(** C9: a script with no [src], with an [async], [defer], [nomodule] or
    [integrity] attribute, of type [module], with a nonce, or whose [src]
    does not parse or has another origin than the page, is skipped by
    [deferScript]: the document is left as it is and no element is
    created. *)
Theorem deferScript_skips (ev : Env) (script : elem) (d : list node) (n : nat) :
  not_deferrable ev script ->
  deferScript ev script (d, n) = (d, n).
Proof.
  unfold not_deferrable, deferScript.
  intros H.
  destruct (truthy (url_prop ev script "src")) eqn:Hsrc; cbn [negb]; [|reflexivity].
  destruct H as [H|[H|[H|[H|[H|[H|[H|[H|H]]]]]]]].
  - rewrite (url_prop_absent _ _ _ H) in Hsrc. discriminate.
  - rewrite H in Hsrc. discriminate.
  - by rewrite (hasAttribute_true _ _ H).
  - rewrite (hasAttribute_true _ _ H). by rewrite orb_true_r.
  - destruct (_ || _ || _); [done|]. by rewrite (hasAttribute_true _ _ H).
  - destruct (_ || _ || _); [done|]. destruct (hasAttribute script "nomodule"); [done|].
    by rewrite (hasAttribute_true _ _ H), orb_true_r.
  - unfold reflected at 1. rewrite H. cbn. by rewrite !orb_true_r.
  - destruct (_ || _ || _); [done|]. destruct (hasAttribute script "nomodule"); [done|].
    unfold truthy at 1. destruct (String.eqb_spec (nonce script) ""); [done|]. done.
  - destruct (_ || _ || _); [done|]. destruct (hasAttribute script "nomodule"); [done|].
    destruct (_ || _); [done|].
    destruct (parseURL ev (url_prop ev script "src")) as [url|]; [|done].
    destruct (String.eqb_spec (URL.origin url) (location_origin ev)); [done|done].
Qed.

Lemma deferScript_skips_witness :
  deferScript (Samples.page Complete) Samples.async_script
              (Samples.html [] [Element Samples.async_script []], 4%nat)
  = (Samples.html [] [Element Samples.async_script []], 4%nat).
Proof.
  apply deferScript_skips. right. right. left.
  exists "". vm_compute. reflexivity.
Defined.

End InjectedProps.

(** * Properties of the content script *)

(** ** The document tree *)

Section node_induction.
Variable P : node -> Prop.
Hypothesis Htext : forall s, P (Text s).
Hypothesis Helement : forall e kids, Forall P kids -> P (Element e kids).

Lemma node_ind' : forall n, P n.
Proof.
  fix IH 1. intros [s|e kids]; [apply Htext|].
  apply Helement. induction kids as [|k kids IHkids]; constructor.
  - apply IH.
  - exact IHkids.
Qed.
End node_induction.

Definition tag_preserving (f : option string -> elem -> elem) : Prop :=
  forall p e, tag (f p e) = tag e.

Definition on_pair (f : option string -> elem -> elem)
           (pe : option string * elem) : option string * elem :=
  (fst pe, f (fst pe) (snd pe)).

Lemma flat_map_map_Forall {A B} (f g : A -> list B) (h : A -> A) (l : list A) :
  Forall (fun x => f (h x) = g x) l ->
  flat_map f (map h l) = flat_map g l.
Proof.
  induction 1 as [|x l Hx _ IH]; simpl; [reflexivity|]. by rewrite Hx, IH.
Qed.

Lemma map_flat_map {A B C} (f : A -> list B) (g : B -> C) (l : list A) :
  map g (flat_map f l) = flat_map (fun x => map g (f x)) l.
Proof.
  induction l as [|x l IH]; simpl; [reflexivity|].
  by rewrite map_app, IH.
Qed.

Lemma walk_map_node f :
  tag_preserving f ->
  forall n p, walk p (map_node f p n) = map (on_pair f) (walk p n).
Proof.
  intros Hf. induction n as [s|e kids IH] using node_ind'; intros p; simpl.
  - reflexivity.
  - f_equal. rewrite Hf, map_flat_map.
    apply flat_map_map_Forall.
    eapply Forall_impl; [exact IH|]. intros n Hn. apply Hn.
Qed.

Lemma walk_map_doc f d :
  tag_preserving f ->
  walk_doc (map_doc f d) = map (on_pair f) (walk_doc d).
Proof.
  intros Hf. unfold walk_doc, map_doc. rewrite map_flat_map.
  apply flat_map_map_Forall, Forall_forall. intros n _.
  by apply walk_map_node.
Qed.

Definition apply_if (sel : option string -> elem -> bool) (body : elem -> elem)
           (p : option string) (e : elem) : elem :=
  if sel p e then body e else e.

Lemma apply_if_tag sel body :
  (forall e, tag (body e) = tag e) -> tag_preserving (apply_if sel body).
Proof. intros Hb p e. unfold apply_if. destruct (sel p e); auto. Qed.

Lemma walk_forEach sel body d :
  (forall e, tag (body e) = tag e) ->
  walk_doc (forEach sel body d) = map (on_pair (apply_if sel body)) (walk_doc d).
Proof. intros Hb. apply walk_map_doc. by apply apply_if_tag. Qed.

(** When the selector does not look at the parent, a [forEach] acts on the
    list of elements pointwise. *)
Lemma elems_forEach (sel : elem -> bool) body d :
  (forall e, tag (body e) = tag e) ->
  elems (forEach (fun _ => sel) body d)
  = map (fun e => if sel e then body e else e) (elems d).
Proof.
  intros Hb. unfold elems. rewrite walk_forEach by done.
  rewrite !map_map. reflexivity.
Qed.


Lemma removeAttribute_tag name e : tag (removeAttribute name e) = tag e.
Proof. reflexivity. Qed.


Lemma hasAttribute_setAttribute_ne name name' v e :
  name <> name' ->
  hasAttribute (setAttribute name v e) name' = hasAttribute e name'.
Proof.
  intros Hne. unfold hasAttribute, setAttribute. simpl.
  by rewrite lookup_insert_ne.
Qed.

Lemma hasAttribute_false e name :
  hasAttribute e name = false <-> attrs e !! name = None.
Proof.
  unfold hasAttribute. rewrite bool_decide_eq_false.
  rewrite <- eq_None_not_Some. reflexivity.
Qed.

Lemma hasAttribute_Some e name :
  hasAttribute e name = true <-> is_Some (attrs e !! name).
Proof. unfold hasAttribute. apply bool_decide_eq_true. Qed.

(** *** Appending to the head *)

Lemma is_head_tag e : is_head e = true -> tag e = "head".
Proof. unfold is_head. apply String.eqb_eq. Qed.

Lemma walk_append_to_head n p kids h :
  first_head kids = Some h ->
  flat_map (walk p) (append_to_head n kids)
  ≡ₚ flat_map (walk p) kids ++ walk (Some "head") n.
Proof.
  induction kids as [|[t|e sub] kids IH]; simpl; intros Hh.
  - discriminate.
  - by apply IH.
  - destruct (is_head e) eqn:He.
    + simpl. rewrite (is_head_tag e He).
      rewrite flat_map_app. simpl. rewrite app_nil_r.
      apply Permutation_skip.
      rewrite <- !app_assoc. apply Permutation_app_head, Permutation_app_comm.
    + simpl. rewrite <- !app_assoc. apply Permutation_skip, Permutation_app_head.
      by apply IH.
Qed.

Lemma walk_head_appendChild n d h :
  document_head d = Some h ->
  walk_doc (head_appendChild n d) ≡ₚ walk_doc d ++ walk (Some "head") n.
Proof.
  unfold document_head, walk_doc, head_appendChild.
  induction d as [|[t|e kids] d IH]; simpl; intros Hh.
  - discriminate.
  - by apply IH.
  - apply Permutation_skip.
    rewrite (walk_append_to_head n _ kids h Hh).
    rewrite <- !app_assoc. apply Permutation_app_head, Permutation_app_comm.
Qed.

Definition node_elems (n : node) : list elem := map snd (walk None n).

Lemma walk_parent_irrelevant n p q : map snd (walk p n) = map snd (walk q n).
Proof. destruct n; reflexivity. Qed.

Lemma elems_head_appendChild n d h :
  document_head d = Some h ->
  elems (head_appendChild n d) ≡ₚ elems d ++ node_elems n.
Proof.
  intros Hh. unfold elems, node_elems.
  rewrite (walk_head_appendChild n d h Hh), map_app.
  by rewrite (walk_parent_irrelevant n (Some "head") None).
Qed.

Lemma first_head_append n kids :
  first_head (append_to_head n kids) = first_head kids.
Proof.
  induction kids as [|[t|e sub] kids IH]; simpl; try done.
  destruct (is_head e) eqn:He; simpl; rewrite He; [done|exact IH].
Qed.

Lemma document_head_appendChild n d :
  document_head (head_appendChild n d) = document_head d.
Proof.
  unfold document_head, head_appendChild.
  induction d as [|[t|e kids] d IH]; simpl; try done.
  apply first_head_append.
Qed.

Lemma existsb_Permutation {A} (f : A -> bool) l l' :
  l ≡ₚ l' -> existsb f l = existsb f l'.
Proof.
  intros Hp. apply eq_true_iff_eq. rewrite !existsb_exists.
  split; intros (x & Hin & Hx); exists x; split; try done.
  - by rewrite <- (Permutation_in' eq_refl Hp).
  - by rewrite (Permutation_in' eq_refl Hp).
Qed.

(** *** Appending to the root element, removing a subtree *)





Lemma documentElement_head_appendChild n d :
  is_Some (documentElement d) -> is_Some (documentElement (head_appendChild n d)).
Proof.
  unfold head_appendChild.
  induction d as [|[t|e kids] d IH]; simpl; intros H; [done|by apply IH|eauto].
Qed.

(** *** The head under per-element rewrites *)

Lemma first_head_map_node f p kids :
  tag_preserving f ->
  first_head (map (map_node f p) kids) = f p <$> first_head kids.
Proof.
  intros Hf. induction kids as [|[t|e sub] kids IH]; simpl; try done.
  unfold is_head. rewrite Hf. by destruct (String.eqb (tag e) "head").
Qed.

Lemma document_head_map_doc f d :
  tag_preserving f ->
  is_Some (document_head d) -> is_Some (document_head (map_doc f d)).
Proof.
  intros Hf. unfold document_head, map_doc.
  induction d as [|[t|e kids] d IH]; simpl; try done.
  rewrite first_head_map_node by done. intros [h ->]. by eexists.
Qed.

Lemma document_head_forEach sel body d :
  (forall e, tag (body e) = tag e) ->
  is_Some (document_head d) -> is_Some (document_head (forEach sel body d)).
Proof. intros Hb. apply document_head_map_doc. by apply apply_if_tag. Qed.

(** ** Unfolding the monad *)

Ltac js_unfold :=
  unfold modify_document, modify_metrics, the_settings, throw, try_catch,
         bind, ret, gets, modify in *.

(** Reducing field reads of updated states; the setters are unfolded only
    under a projection. *)
Ltac state_simpl :=
  cbn [settings observer optimizationsApplied cleanupScheduled
       performanceMetrics contextValid document styleSheets next_eid env
       observing idle_queue dcl_listener load_listener node_listeners
       io_observers
       set_settings set_observer set_optimizationsApplied set_cleanupScheduled
       set_performanceMetrics set_contextValid set_document set_styleSheets
       set_next_eid set_env set_observing set_idle_queue set_dcl_listener
       set_load_listener set_node_listeners set_io_observers
       startTime loadTime animationsDisabled imagesOptimized iframesLazyLoaded
       mediaOptimized cssNonBlocked scriptsDeferred linksPrefetched
       dnsPrefetched
       set_startTime set_loadTime set_animationsDisabled set_imagesOptimized
       set_iframesLazyLoaded set_mediaOptimized set_cssNonBlocked
       set_scriptsDeferred set_linksPrefetched set_dnsPrefetched] in *.

(** Equality of two updated states: on a state given by its fields, every
    update computes. *)
Ltac state_eq s :=
  destruct s as [? ? ? ? [] ? ? ? ? ? ? ? ? ? ? ?];
  cbv [settings observer optimizationsApplied cleanupScheduled
       performanceMetrics contextValid document styleSheets next_eid env
       observing idle_queue dcl_listener load_listener node_listeners
       io_observers
       set_settings set_observer set_optimizationsApplied set_cleanupScheduled
       set_performanceMetrics set_contextValid set_document set_styleSheets
       set_next_eid set_env set_observing set_idle_queue set_dcl_listener
       set_load_listener set_node_listeners set_io_observers
       startTime loadTime animationsDisabled imagesOptimized iframesLazyLoaded
       mediaOptimized cssNonBlocked scriptsDeferred linksPrefetched
       dnsPrefetched
       set_startTime set_loadTime set_animationsDisabled set_imagesOptimized
       set_iframesLazyLoaded set_mediaOptimized set_cssNonBlocked
       set_scriptsDeferred set_linksPrefetched set_dnsPrefetched].

(** Closed facts, one evaluation per conjunct. *)
Ltac by_computation := repeat apply conj; vm_compute; reflexivity.

Lemma bind_Ok {A B} (m : M A) (k : A -> M B) s a s' :
  m s = Ok a s' -> bind m k s = k a s'.
Proof. unfold bind. by intros ->. Qed.

Lemma bind_Throw {A B} (m : M A) (k : A -> M B) s s' :
  m s = Throw s' -> bind m k s = Throw s'.
Proof. unfold bind. by intros ->. Qed.

(** ** Image priority and decoding (C4) *)

(** The test [optimizeImageLoading] makes: the box overlaps the viewport's
    vertical extent. *)
Definition vertically_visible (viewportHeight : Z) (r : DOMRect) : bool :=
  (r_top r <? viewportHeight) && (0 <? r_bottom r).

Lemma optimizeImage_tag vh e : tag (optimizeImage vh e) = tag e.
Proof.
  unfold optimizeImage.
  repeat match goal with |- context [if ?b then _ else _] => destruct b end;
    reflexivity.
Qed.

Lemma optimizeImageLoading_run s c :
  settings s = Some c ->
  Settings.optimizeImagePriority c = true ->
  optimizeImageLoading s
  = Ok tt (set_performanceMetrics
             (set_imagesOptimized
                (imagesOptimized (performanceMetrics s)
                 + count_sel sel_img_unclaimed (document s))
                (performanceMetrics s))
             (set_document
                (forEach sel_img (optimizeImage (innerHeight (env s))) (document s))
                s)).
Proof.
  intros Hs Hc. unfold optimizeImageLoading. js_unfold.
  rewrite Hs, Hc. reflexivity.
Qed.

Lemma optimizeImage_unclaimed vh img :
  attrs img !! "data-fc-optimized" = None ->
  eid (optimizeImage vh img) = eid img
  /\ is_Some (attrs (optimizeImage vh img) !! "data-fc-optimized")
  /\ attrs (optimizeImage vh img) !! "decoding"
     = Some (default "async" (attrs img !! "decoding"))
  /\ attrs (optimizeImage vh img) !! "fetchpriority"
     = Some (default (if vertically_visible vh (rect img) then "high" else "low")
                     (attrs img !! "fetchpriority")).
Proof.
  intros Hun. unfold optimizeImage, vertically_visible.
  rewrite (proj2 (hasAttribute_false img _) Hun).
  rewrite hasAttribute_setAttribute_ne by done.
  destruct (hasAttribute img "decoding") eqn:Hdec; cbn [negb].
  - apply hasAttribute_Some in Hdec as [dv Hdec].
    rewrite hasAttribute_setAttribute_ne by done.
    destruct (hasAttribute img "fetchpriority") eqn:Hfp; cbn [negb].
    + apply hasAttribute_Some in Hfp as [fv Hfp].
      unfold setAttribute; simpl. simplify_map_eq. eauto.
    + apply hasAttribute_false in Hfp.
      destruct (_ && _); unfold setAttribute; simpl; simplify_map_eq; eauto.
  - apply hasAttribute_false in Hdec.
    rewrite !hasAttribute_setAttribute_ne by done.
    destruct (hasAttribute img "fetchpriority") eqn:Hfp; cbn [negb].
    + apply hasAttribute_Some in Hfp as [fv Hfp].
      unfold setAttribute; simpl. simplify_map_eq. eauto.
    + apply hasAttribute_false in Hfp.
      destruct (_ && _); unfold setAttribute; simpl; simplify_map_eq; eauto.
Qed.

(** C4, as the code has it: one run of [optimizeImageLoading] claims every
    image that is not yet claimed, gives it [decoding="async"] unless it has a
    [decoding] attribute, and, unless it has a [fetchpriority] attribute,
    gives it [fetchpriority="high"] exactly when its box overlaps the
    viewport vertically ([rect.top < innerHeight] and [rect.bottom > 0]) and
    ["low"] otherwise.  The horizontal position is not consulted. *)
Theorem optimizeImageLoading_claims (s : State) (c : Settings.t)
    (i : nat) (img : elem) :
  settings s = Some c ->
  Settings.optimizeImagePriority c = true ->
  elems (document s) !! i = Some img ->
  tag img = "img" ->
  attrs img !! "data-fc-optimized" = None ->
  exists s' img',
    optimizeImageLoading s = Ok tt s'
    /\ elems (document s') !! i = Some img'
    /\ eid img' = eid img
    /\ is_Some (attrs img' !! "data-fc-optimized")
    /\ attrs img' !! "decoding" = Some (default "async" (attrs img !! "decoding"))
    /\ attrs img' !! "fetchpriority"
       = Some (default
                 (if vertically_visible (innerHeight (env s)) (rect img)
                  then "high" else "low")
                 (attrs img !! "fetchpriority")).
Proof.
  intros Hs Hc Hi Htag Hun.
  eexists _, (optimizeImage (innerHeight (env s)) img).
  split; [by apply optimizeImageLoading_run with c|].
  split; [|by apply optimizeImage_unclaimed].
  cbn [document set_performanceMetrics set_document].
  unfold sel_img. rewrite elems_forEach by apply optimizeImage_tag.
  rewrite list_lookup_fmap, Hi. simpl.
  unfold tag_is. rewrite Htag. reflexivity.
Qed.

Lemma optimizeImageLoading_claims_witness :
  exists s' img',
    optimizeImageLoading Samples.beside = Ok tt s'
    /\ elems (document s') !! 3%nat = Some img'
    /\ attrs img' !! "fetchpriority" = Some "high".
Proof.
  destruct (optimizeImageLoading_claims Samples.beside DEFAULT_SETTINGS 3
              Samples.beside_img eq_refl eq_refl eq_refl eq_refl eq_refl)
    as (s' & img' & H1 & H2 & _ & _ & _ & H3).
  exists s', img'. repeat split; assumption.
Defined.

(** C4 as stated fails: an image whose box lies entirely to the right of the
    viewport does not intersect it, yet it is given [fetchpriority="high"]. *)
Lemma image_priority_not_viewport_intersection :
  let s := Samples.beside in
  let s' := exec optimizeImageLoading s in
  find_elem 3 (document s) = Some Samples.beside_img
  /\ hasAttribute Samples.beside_img "data-fc-optimized" = false
  /\ hasAttribute Samples.beside_img "fetchpriority" = false
  /\ in_viewport (env s) (rect Samples.beside_img) = false
  /\ (find_elem 3 (document s') ≫= fun img => attrs img !! "fetchpriority")
     = Some "high".
Proof. by_computation. Qed.

(** ** Non-blocking stylesheets (C5) *)

(** The links [handleNewStylesheet] transforms: stylesheet links with an
    [href], not claimed, not loaded, whose [media] is empty or ["all"]. *)
Definition mitigable (ev : Env) (link : elem) : bool :=
  String.eqb (reflected link "rel") "stylesheet"
  && truthy (url_prop ev link "href")
  && negb (hasAttribute link "data-fc-nb")
  && negb (sheet link)
  && (String.eqb (reflected link "media") "" || String.eqb (reflected link "media") "all").

Definition mitigate (link : elem) : elem :=
  setAttribute "media" "print" (setAttribute "data-fc-nb" "" link).

Definition mitigated (k : nat) (s : State) : State :=
  set_performanceMetrics
    (set_cssNonBlocked (cssNonBlocked (performanceMetrics s) + 1)
                       (performanceMetrics s))
    (set_node_listeners (node_listeners s ++ [(k, RestoreMedia)])
       (set_document (update_elem k mitigate (document s)) s)).

Lemma handleNewStylesheet_run s c k :
  settings s = Some c ->
  handleNewStylesheet k s
  = Ok tt (if Settings.nonBlockingCSS c
              && match find_elem k (document s) with
                 | Some link => mitigable (env s) link
                 | None => false
                 end
           then mitigated k s else s).
Proof.
  intros Hs. unfold handleNewStylesheet, addLoadListener. js_unfold. rewrite Hs.
  destruct (Settings.nonBlockingCSS c); cbn [negb andb]; [|reflexivity].
  destruct (find_elem k (document s)) as [link|]; [|reflexivity].
  unfold mitigable.
  destruct (String.eqb (reflected link "rel") "stylesheet"); cbn [negb orb andb];
    [|reflexivity].
  destruct (truthy (url_prop (env s) link "href")); cbn [negb orb andb];
    [|reflexivity].
  destruct (hasAttribute link "data-fc-nb"); cbn [negb andb]; [reflexivity|].
  destruct (sheet link); cbn [negb andb]; [reflexivity|].
  unfold truthy.
  destruct (String.eqb (reflected link "media") ""); cbn [negb andb orb];
    [reflexivity|].
  destruct (String.eqb (reflected link "media") "all"); reflexivity.
Qed.

Lemma find_map_eid (g : elem -> elem) k l :
  (forall e, eid (g e) = eid e) ->
  find (fun e => Nat.eqb (eid e) k) (map g l)
  = g <$> find (fun e => Nat.eqb (eid e) k) l.
Proof.
  intros Hg. induction l as [|e l IH]; simpl; [reflexivity|].
  rewrite Hg. destruct (Nat.eqb (eid e) k); [reflexivity|exact IH].
Qed.

Lemma find_elem_update k body d :
  (forall e, tag (body e) = tag e) ->
  (forall e, eid (body e) = eid e) ->
  find_elem k (update_elem k body d) = body <$> find_elem k d.
Proof.
  intros Htag Heid. unfold find_elem, update_elem.
  rewrite elems_forEach by done.
  rewrite find_map_eid.
  - destruct (find _ (elems d)) as [e|] eqn:Hf; [|reflexivity].
    apply find_some in Hf as [_ Hk]. simpl. by rewrite Hk.
  - intros e. destruct (Nat.eqb (eid e) k); [apply Heid|reflexivity].
Qed.

Lemma mitigated_differs k s : mitigated k s <> s.
Proof.
  intros H. apply (f_equal (fun x => cssNonBlocked (performanceMetrics x))) in H.
  simpl in H. lia.
Qed.

Lemma filter_listeners_fresh k (ls : list (nat * NodeListener)) l :
  Forall (fun kl => fst kl <> k) ls ->
  List.filter (fun kl => Nat.eqb (fst kl) k) (ls ++ [(k, l)]) = [(k, l)]
  /\ List.filter (fun kl => negb (Nat.eqb (fst kl) k)) (ls ++ [(k, l)]) = ls.
Proof.
  intros Hls. induction Hls as [|[k' l'] ls Hk _ [IH1 IH2]]; simpl.
  - rewrite Nat.eqb_refl. by split.
  - simpl in Hk. apply Nat.eqb_neq in Hk.
    rewrite Hk. simpl. by rewrite IH1, IH2.
Qed.

Lemma onNodeLoad_single k l s :
  Forall (fun kl => fst kl <> k) (node_listeners s) ->
  forall s1, node_listeners s1 = node_listeners s ++ [(k, l)] ->
  onNodeLoad k s1
  = bind (runNodeListener k l) (fun _ => ret tt)
         (set_node_listeners (node_listeners s) s1).
Proof.
  intros Hfresh s1 Hs1. unfold onNodeLoad.
  destruct (filter_listeners_fresh k _ l Hfresh) as [Hin Hout].
  unfold bind at 1. unfold gets at 1. rewrite Hs1.
  unfold bind at 1. unfold modify at 1. rewrite Hin, Hout. reflexivity.
Qed.

(** C5, as the code has it: [handleNewStylesheet] changes the state only for
    a stylesheet link that is not claimed, not loaded and whose [media] is
    empty or ["all"]; it then claims the link, sets its [media] to ["print"]
    and registers one [load] listener; when the [load] event arrives that
    listener sets [media] to ["all"] and is dropped.  ["all"] is the
    original value only when the link said [media="all"]; a link without a
    [media] attribute ends with [media="all"]. *)
Theorem handleNewStylesheet_mitigation (s : State) (c : Settings.t)
    (k : nat) (link : elem) :
  settings s = Some c ->
  find_elem k (document s) = Some link ->
  Forall (fun kl => fst kl <> k) (node_listeners s) ->
  exists s1,
    handleNewStylesheet k s = Ok tt s1
    /\ (s1 <> s ->
        Settings.nonBlockingCSS c = true
        /\ reflected link "rel" = "stylesheet"
        /\ attrs link !! "data-fc-nb" = None
        /\ sheet link = false
        /\ (reflected link "media" = "" \/ reflected link "media" = "all"))
    /\ (Settings.nonBlockingCSS c = true -> mitigable (env s) link = true ->
        exists link1 s2 link2,
          find_elem k (document s1) = Some link1
          /\ is_Some (attrs link1 !! "data-fc-nb")
          /\ attrs link1 !! "media" = Some "print"
          /\ node_listeners s1 = node_listeners s ++ [(k, RestoreMedia)]
          /\ onNodeLoad k s1 = Ok tt s2
          /\ find_elem k (document s2) = Some link2
          /\ attrs link2 !! "media" = Some "all"
          /\ is_Some (attrs link2 !! "data-fc-nb")
          /\ node_listeners s2 = node_listeners s).
Proof.
  intros Hs Hk Hfresh. eexists. split; [exact (handleNewStylesheet_run s c k Hs)|].
  rewrite Hk. split.
  - intros Hne.
    destruct (Settings.nonBlockingCSS c); [|done].
    destruct (mitigable (env s) link) eqn:Hm; [|done].
    unfold mitigable in Hm. rewrite !andb_true_iff, orb_true_iff in Hm.
    destruct Hm as ((((Hrel & _) & Hnb) & Hsheet) & Hmedia).
    split; [done|]. split; [by apply String.eqb_eq|].
    split; [by apply hasAttribute_false, negb_true_iff|].
    split; [by apply negb_true_iff|].
    destruct Hmedia as [H|H]; apply String.eqb_eq in H; auto.
  - intros Hon Hm. rewrite Hon, Hm. cbn [andb].
    set (s1 := mitigated k s).
    assert (Hf1 : find_elem k (document s1) = Some (mitigate link)).
    { unfold s1, mitigated. cbn [document set_performanceMetrics set_node_listeners set_document].
      rewrite find_elem_update by done. by rewrite Hk. }
    exists (mitigate link).
    eexists. exists (restoreMedia (mitigate link)).
    split; [exact Hf1|].
    split; [unfold mitigate, setAttribute; simpl; simplify_map_eq; eauto|].
    split; [unfold mitigate, setAttribute; simpl; by simplify_map_eq|].
    split; [reflexivity|].
    split.
    { rewrite (onNodeLoad_single k RestoreMedia s Hfresh s1 eq_refl). reflexivity. }
    cbn [document set_document set_node_listeners node_listeners].
    split.
    { rewrite find_elem_update by done.
      change (document (set_node_listeners (node_listeners s) s1)) with (document s1).
      by rewrite Hf1. }
    split; [unfold restoreMedia, mitigate, setAttribute; simpl; by simplify_map_eq|].
    split; [unfold restoreMedia, mitigate, setAttribute; simpl; simplify_map_eq; eauto|].
    reflexivity.
Qed.

Lemma handleNewStylesheet_mitigation_witness :
  exists s1,
    handleNewStylesheet 3 Samples.styled = Ok tt s1
    /\ (find_elem 3 (document s1) ≫= fun link => attrs link !! "media")
       = Some "print".
Proof.
  destruct (handleNewStylesheet_mitigation Samples.styled DEFAULT_SETTINGS 3
              Samples.css_link eq_refl eq_refl (List.Forall_nil _))
    as (s1 & Hrun & _ & Happlied).
  destruct (Happlied eq_refl eq_refl) as (link1 & _ & _ & Hf & _ & Hm & _).
  exists s1. split; [exact Hrun|]. rewrite Hf. exact Hm.
Defined.

(** C5 as stated fails: a stylesheet link with no [media] attribute is
    mitigated, and after its [load] event its [media] is ["all"], not the
    original (absent) value. *)
Lemma media_not_restored_to_original :
  let s := Samples.styled in
  let s2 := exec (onNodeLoad 3) (exec (handleNewStylesheet 3) s) in
  (find_elem 3 (document s) ≫= fun link => attrs link !! "media") = None
  /\ reflected Samples.css_link "media" = ""
  /\ (find_elem 3 (document s2) ≫= fun link => attrs link !! "media")
     = Some "all"
  /\ ((fun link => reflected link "media") <$> find_elem 3 (document s2))
     = Some "all".
Proof. by_computation. Qed.

(** ** DNS and preconnect hints (C6) *)

Definition dns_elem (k : nat) (origin : string) : elem :=
  setAttribute "href" origin
    (setAttribute "rel" "dns-prefetch" (newElement k "link")).



Fixpoint inject_hints (k : nat) (origins : list string) (d : list node)
  : list node :=
  match origins with
  | [] => d
  | o :: os =>
      inject_hints (S (S k)) os
        (head_appendChild (preconnect_link (S k) o)
           (head_appendChild (dns_link k o) d))
  end.


Lemma is_link_with_dns r h k o :
  is_link_with r h (dns_elem k o)
  = bool_decide (r = "dns-prefetch") && bool_decide (h = o).
Proof.
  unfold is_link_with, dns_elem, setAttribute, tag_is. simpl.
  rewrite lookup_insert_eq, lookup_insert_ne, lookup_insert_eq by done.
  f_equal; apply bool_decide_ext; split; congruence.
Qed.


Lemma has_link_head_appendChild r h n d hd :
  document_head d = Some hd ->
  has_link r h (head_appendChild n d)
  = has_link r h d || existsb (is_link_with r h) (node_elems n).
Proof.
  intros Hh. unfold has_link.
  rewrite (existsb_Permutation _ _ _ (elems_head_appendChild n d hd Hh)).
  apply existsb_app.
Qed.


Lemma document_head_inject_hints os : forall k d,
  document_head (inject_hints k os d) = document_head d.
Proof.
  induction os as [|o os IH]; intros k d; simpl; [done|].
  by rewrite IH, !document_head_appendChild.
Qed.





Lemma set_add_NoDup x l : NoDup l -> NoDup (set_add x l).
Proof.
  intros Hl. unfold set_add. case_bool_decide as Hin; [done|].
  apply NoDup_app. repeat split; [done| |apply NoDup_singleton].
  intros y Hy Hy'. apply list_elem_of_singleton in Hy'. by subst.
Qed.









(** ** Invariants of computations

    [preserves I m]: whenever [I] holds before [m] it holds after, whether
    [m] returns or throws. *)

Definition preserves {A} (I : State -> Prop) (m : M A) : Prop :=
  forall s, I s ->
    match m s with
    | Ok _ s' => I s'
    | Throw s' => I s'
    end.

Section preserves.
Variable I : State -> Prop.

Lemma preserves_ret {A} (a : A) : preserves I (ret a).
Proof. intros s Hs. exact Hs. Qed.

Lemma preserves_throw {A} : preserves I (@throw A).
Proof. intros s Hs. exact Hs. Qed.

Lemma preserves_gets {A} (f : State -> A) : preserves I (gets f).
Proof. intros s Hs. exact Hs. Qed.

Lemma preserves_modify f : (forall s, I s -> I (f s)) -> preserves I (modify f).
Proof. intros Hf s Hs. by apply Hf. Qed.

Lemma preserves_bind {A B} (m : M A) (k : A -> M B) :
  preserves I m -> (forall a, preserves I (k a)) -> preserves I (bind m k).
Proof.
  intros Hm Hk s Hs. unfold bind. specialize (Hm s Hs).
  destruct (m s) as [a s'|s']; [by apply Hk|done].
Qed.

Lemma preserves_try_catch {A} (m h : M A) :
  preserves I m -> preserves I h -> preserves I (try_catch m h).
Proof.
  intros Hm Hh s Hs. unfold try_catch. specialize (Hm s Hs).
  destruct (m s) as [a s'|s']; [done|by apply Hh].
Qed.

Lemma preserves_the_settings : preserves I the_settings.
Proof. intros s Hs. unfold the_settings. by destruct (settings s). Qed.

Lemma preserves_forM {A} (l : list A) (body : A -> M unit) :
  (forall x, preserves I (body x)) -> preserves I (forM l body).
Proof.
  intros Hb. induction l as [|x l IH]; simpl.
  - apply preserves_ret.
  - apply preserves_bind; [apply Hb|intros _; exact IH].
Qed.

Lemma preserves_exec {A} (m : M A) s :
  preserves I m -> I s -> I (exec m s).
Proof.
  intros Hm Hs. unfold exec. specialize (Hm s Hs). by destruct (m s).
Qed.
End preserves.

(** Breaking a computation down to its [modify] steps. *)
Ltac preserve_step :=
  match goal with
  | |- preserves _ (bind _ _) => apply preserves_bind; [|intro]
  | |- preserves _ (ret _) => apply preserves_ret
  | |- preserves _ throw => apply preserves_throw
  | |- preserves _ (gets _) => apply preserves_gets
  | |- preserves _ the_settings => apply preserves_the_settings
  | |- preserves _ (try_catch _ _) => apply preserves_try_catch
  | |- preserves _ (forM _ _) => apply preserves_forM; intro
  | |- preserves _ (modify_document _) => apply preserves_modify; intros ? ?
  | |- preserves _ (modify_metrics _) => apply preserves_modify; intros ? ?
  | |- preserves _ (modify _) => apply preserves_modify; intros ? ?
  | |- preserves _ (if ?b then _ else _) => destruct b
  | |- preserves _ (match ?x with _ => _ end) => destruct x
  | |- preserves _ (let '(_, _) := ?x in _) => destruct x
  | |- preserves _ _ => solve [auto with preserves]
  end.

Ltac preserve := repeat preserve_step.


(** ** Total correctness

    [triple P m Q]: from a state in [P], [m] returns (it does not throw) in a
    state in [Q]. *)

Definition triple {A} (P : State -> Prop) (m : M A) (Q : State -> Prop) : Prop :=
  forall s, P s -> exists a s', m s = Ok a s' /\ Q s'.

Lemma triple_ret {A} (P : State -> Prop) (a : A) : triple P (ret a) P.
Proof. intros s Hs. by exists a, s. Qed.

Lemma triple_gets {A} (P : State -> Prop) (f : State -> A) : triple P (gets f) P.
Proof. intros s Hs. by exists (f s), s. Qed.

Lemma triple_modify (P Q : State -> Prop) f :
  (forall s, P s -> Q (f s)) -> triple P (modify f) Q.
Proof. intros Hf s Hs. exists tt, (f s). split; [done|by apply Hf]. Qed.

Lemma triple_bind {A B} (P R Q : State -> Prop) (m : M A) (k : A -> M B) :
  triple P m R -> (forall a, triple R (k a) Q) -> triple P (bind m k) Q.
Proof.
  intros Hm Hk s Hs. destruct (Hm s Hs) as (a & s1 & Hrun & Hs1).
  destruct (Hk a s1 Hs1) as (b & s2 & Hrun2 & Hs2).
  exists b, s2. split; [|done]. by rewrite (bind_Ok _ _ _ _ _ Hrun).
Qed.


Lemma triple_conj {A} (P1 P2 Q1 Q2 : State -> Prop) (m : M A) :
  triple P1 m Q1 -> triple P2 m Q2 ->
  triple (fun s => P1 s /\ P2 s) m (fun s => Q1 s /\ Q2 s).
Proof.
  intros H1 H2 s [Hs1 Hs2].
  destruct (H1 s Hs1) as (a & s' & Hrun & Hq1).
  destruct (H2 s Hs2) as (a' & s'' & Hrun' & Hq2).
  rewrite Hrun in Hrun'. injection Hrun' as <- <-.
  by exists a, s'.
Qed.

Lemma triple_exec {A} (P Q : State -> Prop) (m : M A) s :
  triple P m Q -> P s -> Q (exec m s).
Proof.
  intros Hm Hs. destruct (Hm s Hs) as (a & s' & Hrun & Hq).
  unfold exec. by rewrite Hrun.
Qed.

Lemma triple_preserves {A} (I : State -> Prop) (m : M A) :
  triple I m I -> preserves I m.
Proof.
  intros Hm s Hs. destruct (Hm s Hs) as (a & s' & Hrun & Hq). by rewrite Hrun.
Qed.

Lemma triple_forM {A} (I : State -> Prop) (l : list A) (body : A -> M unit) :
  (forall x, triple I (body x) I) -> triple I (forM l body) I.
Proof.
  intros Hb. induction l as [|x l IH]; simpl.
  - apply triple_ret.
  - eapply triple_bind; [apply Hb|intros _; exact IH].
Qed.

Ltac triple_step :=
  match goal with
  | |- triple ?P (bind _ _) _ => apply (triple_bind P P); [|intro]
  | |- triple _ (ret _) _ => apply triple_ret
  | |- triple _ (gets _) _ => apply triple_gets
  | |- triple _ (forM _ _) _ => apply triple_forM; intro
  | |- triple _ (modify_document _) _ => apply triple_modify; intros ? ?
  | |- triple _ (modify_metrics _) _ => apply triple_modify; intros ? ?
  | |- triple _ (modify _) _ => apply triple_modify; intros ? ?
  | |- triple _ (if ?b then _ else _) _ => destruct b
  | |- triple _ (match ?x with _ => _ end) _ => destruct x
  | |- triple _ _ _ => solve [auto with preserves]
  end.

(** ** Link prefetch (C8) *)

(** A URL the exclusion filter lets through has no query string and a path
    outside the state-changing pattern. *)
Definition passes_filter (parse : string -> option URL.t) (href : string) : Prop :=
  exists url, parse href = Some url
              /\ URL.search url = ""
              /\ state_changing_test (URL.pathname url) = false.

(** A URL with a query string, or whose path matches the pattern. *)
Definition state_changing (parse : string -> option URL.t) (href : string) : Prop :=
  exists url, parse href = Some url
              /\ (URL.search url <> ""
                  \/ state_changing_test (URL.pathname url) = true).

Lemma passes_filter_not_state_changing parse href :
  passes_filter parse href -> ~ state_changing parse href.
Proof.
  intros (url & Hp & Hs & Ht) (url' & Hp' & H). rewrite Hp in Hp'.
  injection Hp' as <-. destruct H as [H|H]; congruence.
Qed.

(** The invariant: every pending injection is for a URL that passed. *)
Definition queue_ok (parse : string -> option URL.t) (s : State) : Prop :=
  parseAbsURL (env s) = parse
  /\ forall task io href,
       task ∈ idle_queue s ->
       callback task = PrefetchInject io href ->
       passes_filter parse href.

Lemma queue_ok_frame parse s s' :
  parseAbsURL (env s') = parseAbsURL (env s) ->
  idle_queue s' = idle_queue s ->
  queue_ok parse s -> queue_ok parse s'.
Proof. unfold queue_ok. intros -> ->. done. Qed.

Ltac queue_frame :=
  match goal with
  | H : queue_ok _ ?s |- queue_ok _ _ =>
      apply (queue_ok_frame _ s); [reflexivity|reflexivity|exact H]
  end.

Lemma queue_ok_request parse cb t :
  match cb with
  | CleanupBatch => True
  | PrefetchInject _ href => passes_filter parse href
  end ->
  preserves (queue_ok parse) (requestIdleCallback cb t).
Proof.
  intros Hcb s [Hp Hq]. unfold requestIdleCallback, modify. split; [exact Hp|].
  simpl. intros task io href Hin Htask.
  apply elem_of_app in Hin as [Hin|Hin]; [by eapply Hq|].
  apply list_elem_of_singleton in Hin. subst task. simpl in Htask.
  subst cb. exact Hcb.
Qed.

Lemma prefetch_allowed_passes ev url :
  prefetch_allowed ev url = true ->
  URL.search url = "" /\ state_changing_test (URL.pathname url) = false.
Proof.
  unfold prefetch_allowed. rewrite !andb_true_iff, !negb_true_iff.
  intros ((_ & Hs) & Ht). split; [|done].
  unfold truthy in Hs. apply negb_false_iff, String.eqb_eq in Hs. done.
Qed.

Create HintDb preserves.

Ltac queue_tac := preserve; try queue_frame; auto with preserves.

Section queue_invariant.
Variable parse : string -> option URL.t.

Lemma queue_ok_createElement t :
  preserves (queue_ok parse) (createElement t).
Proof. unfold createElement. queue_tac. Qed.
Lemma queue_ok_head_append n :
  preserves (queue_ok parse) (head_append n).
Proof. unfold head_append. queue_tac. Qed.
Lemma queue_ok_head_or_root_append n :
  preserves (queue_ok parse) (head_or_root_append n).
Proof. unfold head_or_root_append. queue_tac. Qed.
Lemma queue_ok_addLoadListener k l :
  preserves (queue_ok parse) (addLoadListener k l).
Proof. unfold addLoadListener. queue_tac. Qed.
Lemma queue_ok_isContextValid :
  preserves (queue_ok parse) isContextValid.
Proof. unfold isContextValid. queue_tac. Qed.
Hint Resolve queue_ok_createElement queue_ok_head_append
  queue_ok_head_or_root_append queue_ok_addLoadListener
  queue_ok_isContextValid : preserves.

Lemma queue_ok_disableAnimations :
  preserves (queue_ok parse) disableAnimations.
Proof. unfold disableAnimations. queue_tac. Qed.
Lemma queue_ok_setupLazyLoading :
  preserves (queue_ok parse) setupLazyLoading.
Proof. unfold setupLazyLoading. queue_tac. Qed.
Lemma queue_ok_setupLazyLoadIframes :
  preserves (queue_ok parse) setupLazyLoadIframes.
Proof. unfold setupLazyLoadIframes. queue_tac. Qed.
Lemma queue_ok_disableAutoplay :
  preserves (queue_ok parse) disableAutoplay.
Proof. unfold disableAutoplay. queue_tac. Qed.
Lemma queue_ok_reduceMediaPreload :
  preserves (queue_ok parse) reduceMediaPreload.
Proof. unfold reduceMediaPreload. queue_tac. Qed.
Lemma queue_ok_optimizeImageLoading :
  preserves (queue_ok parse) optimizeImageLoading.
Proof. unfold optimizeImageLoading. queue_tac. Qed.

Lemma queue_ok_dns_loop origins :
  forall count, preserves (queue_ok parse) (dns_loop origins count).
Proof.
  induction origins as [|o os IH]; intros count; simpl.
  - apply preserves_ret.
  - queue_tac.
Qed.
Hint Resolve queue_ok_dns_loop : preserves.

Lemma queue_ok_setupDNSPrefetch :
  preserves (queue_ok parse) setupDNSPrefetch.
Proof. unfold setupDNSPrefetch. queue_tac. Qed.
Lemma queue_ok_preloadLCPCandidate :
  preserves (queue_ok parse) preloadLCPCandidate.
Proof. unfold preloadLCPCandidate. queue_tac. Qed.
Lemma queue_ok_injectFontDisplaySwap :
  preserves (queue_ok parse) injectFontDisplaySwap.
Proof. unfold injectFontDisplaySwap. queue_tac. Qed.
Lemma queue_ok_injectContentVisibility :
  preserves (queue_ok parse) injectContentVisibility.
Proof. unfold injectContentVisibility. queue_tac. Qed.
Lemma queue_ok_stabilizeImageLayout :
  preserves (queue_ok parse) stabilizeImageLayout.
Proof. unfold stabilizeImageLayout. queue_tac. Qed.
Lemma queue_ok_prefetchVisibleLinks :
  preserves (queue_ok parse) prefetchVisibleLinks.
Proof. unfold prefetchVisibleLinks. queue_tac. Qed.
Lemma queue_ok_handleNewStylesheet k :
  preserves (queue_ok parse) (handleNewStylesheet k).
Proof. unfold handleNewStylesheet. queue_tac. Qed.
Hint Resolve queue_ok_disableAnimations queue_ok_setupLazyLoading
  queue_ok_setupLazyLoadIframes queue_ok_disableAutoplay
  queue_ok_reduceMediaPreload queue_ok_optimizeImageLoading
  queue_ok_setupDNSPrefetch queue_ok_preloadLCPCandidate
  queue_ok_injectFontDisplaySwap queue_ok_injectContentVisibility
  queue_ok_stabilizeImageLayout queue_ok_prefetchVisibleLinks
  queue_ok_handleNewStylesheet : preserves.

Lemma queue_ok_cleanupBatch :
  preserves (queue_ok parse) cleanupBatch.
Proof. unfold cleanupBatch. queue_tac. Qed.

Lemma queue_ok_scheduleCleanup :
  preserves (queue_ok parse) scheduleCleanup.
Proof.
  unfold scheduleCleanup. queue_tac.
  by apply (queue_ok_request parse CleanupBatch).
Qed.
Hint Resolve queue_ok_cleanupBatch queue_ok_scheduleCleanup : preserves.

Lemma queue_ok_onAddedNodes l :
  forall b, preserves (queue_ok parse) (onAddedNodes l b).
Proof.
  induction l as [|nd l IH]; intros b; simpl.
  - apply preserves_ret.
  - apply preserves_bind; [|intros a; apply IH].
    unfold onAddedNode. queue_tac.
Qed.
Hint Resolve queue_ok_onAddedNodes : preserves.

Lemma queue_ok_onMutations ms :
  preserves (queue_ok parse) (onMutations ms).
Proof. unfold onMutations. queue_tac. Qed.
Lemma queue_ok_setupMutationObserver :
  preserves (queue_ok parse) setupMutationObserver.
Proof. unfold setupMutationObserver. queue_tac. Qed.
Lemma queue_ok_injectPageScript :
  preserves (queue_ok parse) injectPageScript.
Proof. unfold injectPageScript. queue_tac. Qed.
Lemma queue_ok_onDOMContentLoaded :
  preserves (queue_ok parse) onDOMContentLoaded.
Proof. unfold onDOMContentLoaded. queue_tac. Qed.
Lemma queue_ok_onLoad :
  preserves (queue_ok parse) onLoad.
Proof. unfold onLoad. queue_tac. Qed.
Hint Resolve queue_ok_onMutations queue_ok_setupMutationObserver
  queue_ok_injectPageScript queue_ok_onDOMContentLoaded queue_ok_onLoad
  : preserves.

Lemma queue_ok_applyOptimizations :
  preserves (queue_ok parse) applyOptimizations.
Proof. unfold applyOptimizations. queue_tac. Qed.
Lemma queue_ok_removeById i :
  preserves (queue_ok parse) (removeById i).
Proof. unfold removeById. queue_tac. Qed.
Hint Resolve queue_ok_applyOptimizations queue_ok_removeById : preserves.

Lemma queue_ok_removeInjectedStyles :
  preserves (queue_ok parse) removeInjectedStyles.
Proof. unfold removeInjectedStyles. queue_tac. Qed.
Hint Resolve queue_ok_removeInjectedStyles : preserves.

Lemma queue_ok_init b :
  preserves (queue_ok parse) (init b).
Proof. unfold init. queue_tac. Qed.
Lemma queue_ok_onSettingsResponse r :
  preserves (queue_ok parse) (onSettingsResponse r).
Proof. unfold onSettingsResponse. queue_tac. Qed.
Lemma queue_ok_onMessage m :
  preserves (queue_ok parse) (onMessage m).
Proof. unfold onMessage. queue_tac. Qed.
Lemma queue_ok_onNodeLoad k :
  preserves (queue_ok parse) (onNodeLoad k).
Proof. unfold onNodeLoad, runNodeListener. queue_tac. Qed.

Lemma queue_ok_prefetchInject i h :
  passes_filter parse h -> preserves (queue_ok parse) (prefetchInject i h).
Proof. intros _. unfold prefetchInject, alter_io. queue_tac. Qed.

Lemma queue_ok_onIntersectionEntry i entry :
  preserves (queue_ok parse) (onIntersectionEntry i entry).
Proof.
  intros s Hs. pose proof (proj1 Hs) as Hp.
  unfold onIntersectionEntry. destruct entry as [target b].
  destruct b; cbn [negb]; [|exact Hs].
  js_unfold. state_simpl.
  destruct (_ <=? _)%nat; [exact Hs|].
  destruct (_ || _); [exact Hs|].
  rewrite Hp.
  destruct (parse _) as [url|] eqn:Hurl.
  - destruct (prefetch_allowed (env s) url) eqn:Hallowed; [|exact Hs].
    apply prefetch_allowed_passes in Hallowed as [H1 H2].
    unfold alter_io, requestIdleCallback, modify.
    destruct Hs as [_ Hq]. split; [exact Hp|]. state_simpl.
    intros task io href Hin Htask.
    apply elem_of_app in Hin as [Hin|Hin]; [by eapply Hq|].
    apply list_elem_of_singleton in Hin. subst task. simpl in Htask.
    injection Htask as <- <-. by exists url.
  - unfold alter_io, modify. queue_frame.
Qed.

Lemma queue_ok_onIntersection i es :
  preserves (queue_ok parse) (onIntersection i es).
Proof.
  unfold onIntersection. apply preserves_forM. intros entry.
  apply queue_ok_onIntersectionEntry.
Qed.
End queue_invariant.

Lemma queue_ok_step parse e s s' :
  queue_ok parse s -> step e s = Some s' -> queue_ok parse s'.
Proof.
  intros Hs Hstep.
  pose proof (queue_ok_init parse) as Hinit.
  pose proof (queue_ok_onSettingsResponse parse) as Hresp.
  pose proof (queue_ok_onMessage parse) as Hmsg.
  pose proof (queue_ok_onMutations parse) as Hmut.
  pose proof (queue_ok_cleanupBatch parse) as Hbatch.
  pose proof (queue_ok_prefetchInject parse) as Hinj.
  pose proof (queue_ok_onDOMContentLoaded parse) as Hdcl.
  pose proof (queue_ok_onLoad parse) as Hload.
  pose proof (queue_ok_onNodeLoad parse) as Hnode.
  pose proof (queue_ok_onIntersection parse) as Hio.
  destruct e; simpl in Hstep.
  - injection Hstep as <-. by apply preserves_exec.
  - injection Hstep as <-. by apply preserves_exec.
  - injection Hstep as <-. by apply preserves_exec.
  - destruct (observing s); [|discriminate].
    injection Hstep as <-. by apply preserves_exec.
  - destruct (idle_queue s !! i) as [task|] eqn:Hi; [|discriminate].
    injection Hstep as <-.
    assert (Hs' : queue_ok parse (set_idle_queue (delete i (idle_queue s)) s)).
    { destruct Hs as [Hp Hq]. split; [exact Hp|]. simpl.
      intros t io href Hin. apply Hq.
      by apply (sublist_subseteq _ _ (sublist_delete (idle_queue s) i)). }
    apply preserves_exec; [|exact Hs'].
    destruct task as [[|io href] dl]; simpl; [exact Hbatch|].
    apply Hinj. destruct Hs as [_ Hq].
    apply (Hq (mkTask (PrefetchInject io href) dl) io href); [|reflexivity].
    by eapply list_elem_of_lookup_2.
  - destruct (readyState (env s)); try discriminate.
    injection Hstep as <-.
    assert (Hs' : queue_ok parse (with_env (set_readyState Interactive) s))
      by (apply (queue_ok_frame _ s); [reflexivity|reflexivity|exact Hs]).
    destruct (dcl_listener s); [by apply preserves_exec|exact Hs'].
  - destruct (readyState (env s)); try discriminate.
    injection Hstep as <-.
    assert (Hs' : queue_ok parse (with_env (set_readyState Complete) s))
      by (apply (queue_ok_frame _ s); [reflexivity|reflexivity|exact Hs]).
    destruct (load_listener s); [by apply preserves_exec|exact Hs'].
  - injection Hstep as <-. by apply preserves_exec.
  - destruct (io_observers s !! i); [|discriminate].
    destruct (forallb _ _); [|discriminate].
    injection Hstep as <-. by apply preserves_exec.
  - injection Hstep as <-. queue_frame.
  - injection Hstep as <-. queue_frame.
  - injection Hstep as <-. queue_frame.
  - destruct (_ && _); [|discriminate]. injection Hstep as <-. queue_frame.
Qed.

Lemma queue_ok_run parse es : forall s s',
  queue_ok parse s -> run es s = Some s' -> queue_ok parse s'.
Proof.
  induction es as [|e es IH]; intros s s' Hs Hrun; simpl in Hrun.
  - by injection Hrun as <-.
  - destruct (step e s) as [s1|] eqn:Hstep; [|discriminate].
    eapply IH; [|exact Hrun]. by eapply queue_ok_step.
Qed.

Lemma queue_ok_initial d sheets ev :
  queue_ok (parseAbsURL ev) (initial_state d sheets ev).
Proof.
  split; [reflexivity|]. simpl. intros task io href Hin.
  by apply not_elem_of_nil in Hin.
Qed.

Lemma prefetchInject_document io href s :
  document (exec (prefetchInject io href) s) = document s
  \/ document (exec (prefetchInject io href) s)
     = head_appendChild (prefetch_link (next_eid s) href) (document s).
Proof.
  unfold exec, prefetchInject, head_append, createElement, alter_io.
  js_unfold. state_simpl.
  destruct (_ <=? _)%nat; [by left|].
  destruct (document_head (document s)); simpl; [by right|by left].
Qed.

(** C8: in every state the content script can reach, a link whose URL has a
    query string or a state-changing path schedules no injection when its
    intersection entry is handled, intersecting or not; no pending injection
    is for such a URL; and running a pending injection adds at most the one
    prefetch link for its own URL. *)
Theorem prefetch_never_for_state_changing_links
    (d : list node) (sheets : list StyleSheet) (ev : Env)
    (es : list Event) (s : State) :
  run es (initial_state d sheets ev) = Some s ->
  (forall io target a isIntersecting,
      find_elem target (document s) = Some a ->
      state_changing (parseAbsURL (env s)) (el_href (env s) a) ->
      onIntersectionEntry io (target, isIntersecting) s = Ok tt s)
  /\ (forall task io href,
        task ∈ idle_queue s ->
        callback task = PrefetchInject io href ->
        ~ state_changing (parseAbsURL (env s)) href)
  /\ (forall i task io href s',
        idle_queue s !! i = Some task ->
        callback task = PrefetchInject io href ->
        step (EvIdle i) s = Some s' ->
        ~ state_changing (parseAbsURL (env s)) href
        /\ (document s' = document s
            \/ document s'
               = head_appendChild (prefetch_link (next_eid s) href) (document s))).
Proof.
  intros Hrun.
  pose proof (queue_ok_run _ _ _ _ (queue_ok_initial d sheets ev) Hrun)
    as [Hparse Hq].
  assert (Hpending : forall task io href,
             task ∈ idle_queue s ->
             callback task = PrefetchInject io href ->
             ~ state_changing (parseAbsURL (env s)) href).
  { intros task io href Hin Hcb. rewrite Hparse.
    by eapply passes_filter_not_state_changing, Hq. }
  split; [|split; [exact Hpending|]].
  - intros io target a b Ha (url & Hurl & Hbad).
    unfold onIntersectionEntry. destruct b; cbn [negb]; [|reflexivity].
    js_unfold. state_simpl.
    destruct (_ <=? _)%nat; [reflexivity|].
    rewrite Ha. destruct (_ || _); [reflexivity|].
    rewrite Hurl.
    destruct (prefetch_allowed (env s) url) eqn:Hallowed; [|reflexivity].
    apply prefetch_allowed_passes in Hallowed as [H1 H2].
    destruct Hbad; congruence.
  - intros i task io href s' Hi Hcb Hstep.
    split; [eapply Hpending; [by eapply list_elem_of_lookup_2|exact Hcb]|].
    simpl in Hstep. rewrite Hi in Hstep. injection Hstep as <-.
    rewrite Hcb. simpl.
    apply (prefetchInject_document io href
             (set_idle_queue (delete i (idle_queue s)) s)).
Qed.

Lemma prefetch_never_for_state_changing_links_witness :
  run Samples.links_seen Samples.with_links = Some Samples.links_seen_state
  /\ onIntersectionEntry 0 (3%nat, true) Samples.links_seen_state
     = Ok tt Samples.links_seen_state
  /\ map callback (idle_queue Samples.links_seen_state)
     = [PrefetchInject 0 "https://example.com/about"].
Proof.
  assert (Hrun : run Samples.links_seen Samples.with_links
                 = Some Samples.links_seen_state)
    by (vm_compute; reflexivity).
  destruct (prefetch_never_for_state_changing_links _ _ _ _ _ Hrun)
    as (Hskip & _ & _).
  split; [exact Hrun|]. split; [|vm_compute; reflexivity].
  apply (Hskip 0%nat 3%nat Samples.logout_a true).
  - vm_compute. reflexivity.
  - exists (Samples.https Samples.site "/logout" "?token=x").
    split; [vm_compute; reflexivity|]. left. discriminate.
Defined.

(** ** The idle batch scheduler (C7) *)

(** What the mutation handlers leave alone: the settings, the context and
    scheduling flags, the environment, the idle queue and the observer. *)
Definition same_control (s s' : State) : Prop :=
  settings s' = settings s
  /\ contextValid s' = contextValid s
  /\ cleanupScheduled s' = cleanupScheduled s
  /\ env s' = env s
  /\ idle_queue s' = idle_queue s
  /\ observing s' = observing s.

Lemma same_control_refl s : same_control s s.
Proof. by repeat split. Qed.

Lemma same_control_trans s1 s2 s3 :
  same_control s1 s2 -> same_control s2 s3 -> same_control s1 s3.
Proof.
  unfold same_control.
  intros (? & ? & ? & ? & ? & ?) (? & ? & ? & ? & ? & ?).
  repeat split; congruence.
Qed.

Lemma handleNewStylesheet_control s c k :
  settings s = Some c ->
  exists s', handleNewStylesheet k s = Ok tt s' /\ same_control s s'.
Proof.
  intros Hs. eexists. split; [exact (handleNewStylesheet_run s c k Hs)|].
  destruct (_ && _); [|apply same_control_refl].
  by repeat split.
Qed.

Lemma forM_handleNewStylesheet_control c ks : forall s,
  settings s = Some c ->
  exists s', forM ks handleNewStylesheet s = Ok tt s' /\ same_control s s'.
Proof.
  induction ks as [|k ks IH]; intros s Hs; simpl.
  - exists s. split; [reflexivity|apply same_control_refl].
  - destruct (handleNewStylesheet_control s c k Hs) as (s1 & Hrun & Hc1).
    destruct (IH s1) as (s2 & Hrun2 & Hc2).
    { destruct Hc1 as (-> & _). exact Hs. }
    exists s2. split; [|by eapply same_control_trans].
    by rewrite (bind_Ok _ _ _ _ _ Hrun).
Qed.

Definition is_added_element (nd : AddedNode) : bool :=
  match nd with
  | AddedElement _ => true
  | AddedText => false
  end.

Lemma onAddedNode_control s c nd :
  settings s = Some c ->
  exists s', onAddedNode nd s = Ok (is_added_element nd) s' /\ same_control s s'.
Proof.
  intros Hs. destruct nd as [|k]; simpl.
  - exists s. split; [reflexivity|apply same_control_refl].
  - unfold bind at 1. unfold gets at 1.
    destruct (find_subtree k (document s)) as [[t|e kids]|];
      try (exists s; split; [reflexivity|apply same_control_refl]).
    assert (H1 : exists s1,
               (if tag_is "link" e then handleNewStylesheet k else ret tt) s
               = Ok tt s1 /\ same_control s s1).
    { destruct (tag_is "link" e); [by apply handleNewStylesheet_control with c|].
      exists s. split; [reflexivity|apply same_control_refl]. }
    destruct H1 as (s1 & Hrun1 & Hc1).
    destruct (forM_handleNewStylesheet_control c
                (map eid (List.filter sel_stylesheet_link (descendants (Element e kids))))
                s1) as (s2 & Hrun2 & Hc2).
    { destruct Hc1 as (-> & _). exact Hs. }
    exists s2. split; [|by eapply same_control_trans].
    rewrite (bind_Ok _ _ _ _ _ Hrun1).
    by rewrite (bind_Ok _ _ _ _ _ Hrun2).
Qed.

Lemma onAddedNodes_control c l : forall b s,
  settings s = Some c ->
  exists s', onAddedNodes l b s = Ok (b || existsb is_added_element l) s'
             /\ same_control s s'.
Proof.
  induction l as [|nd l IH]; intros b s Hs; simpl.
  - exists s. rewrite orb_false_r. split; [reflexivity|apply same_control_refl].
  - destruct (onAddedNode_control s c nd Hs) as (s1 & Hrun1 & Hc1).
    destruct (IH (b || is_added_element nd) s1) as (s2 & Hrun2 & Hc2).
    { destruct Hc1 as (-> & _). exact Hs. }
    exists s2. split; [|by eapply same_control_trans].
    rewrite (bind_Ok _ _ _ _ _ Hrun1), Hrun2. by rewrite orb_assoc.
Qed.

Lemma isContextValid_ok s :
  contextValid s = true -> runtime (env s) = RuntimeOk ->
  isContextValid s = Ok true s.
Proof.
  intros Hv Hr. unfold isContextValid. js_unfold. by rewrite Hv, Hr.
Qed.

(** A mutation batch that adds at least one element node. *)
Definition adds_element (mutations : list (list AddedNode)) : bool :=
  existsb is_added_element (concat mutations).

(** The observer callback on such a batch, in a live context: the handlers
    run, then [scheduleCleanup] is called. *)
Lemma onMutations_signal s c ms :
  settings s = Some c ->
  contextValid s = true ->
  runtime (env s) = RuntimeOk ->
  adds_element ms = true ->
  exists s1,
    same_control s s1
    /\ exec (onMutations ms) s
       = if cleanupScheduled s then s1
         else set_idle_queue
                (idle_queue s ++ [mkTask CleanupBatch (now (env s) + 200)])
                (set_cleanupScheduled true s1).
Proof.
  intros Hs Hv Hr Hadds.
  destruct (onAddedNodes_control c (concat ms) false s Hs) as (s1 & Hrun & Hc).
  exists s1. split; [exact Hc|].
  destruct Hc as (_ & Hv1 & Hsch1 & Henv1 & Hq1 & _).
  unfold exec, onMutations.
  rewrite (bind_Ok _ _ _ _ _ (isContextValid_ok s Hv Hr)). cbn [negb].
  rewrite (bind_Ok _ _ _ _ _ Hrun). cbn [orb].
  unfold adds_element in Hadds. rewrite Hadds.
  unfold scheduleCleanup.
  unfold bind at 1. unfold gets at 1. rewrite Hsch1.
  destruct (cleanupScheduled s); [reflexivity|].
  rewrite (bind_Ok _ _ _ _ _ (isContextValid_ok s1 ltac:(congruence) ltac:(congruence))).
  cbn [negb]. unfold requestIdleCallback. js_unfold. state_simpl.
  rewrite Hq1, Henv1. first [reflexivity | state_eq s1; reflexivity].
Qed.

(** Events of a burst: mutation batches adding an element, and clock ticks. *)
Definition signal_or_tick (e : Event) : Prop :=
  match e with
  | EvMutations ms => adds_element ms = true
  | EvTick _ => True
  | _ => False
  end.

(** While a batch scheduled at time [t1] is pending, further signals and
    ticks leave exactly that batch pending and the clock within its
    deadline. *)
Definition batch_pending (c : Settings.t) (q : list IdleTask) (t1 : Z)
           (s : State) : Prop :=
  settings s = Some c
  /\ contextValid s = true
  /\ runtime (env s) = RuntimeOk
  /\ cleanupScheduled s = true
  /\ idle_queue s = q ++ [mkTask CleanupBatch (t1 + 200)]
  /\ now (env s) <= t1 + 200.

Lemma batch_pending_step c q t1 e s s' :
  batch_pending c q t1 s -> signal_or_tick e -> step e s = Some s' ->
  batch_pending c q t1 s'.
Proof.
  intros (Hs & Hv & Hr & Hsch & Hq & Hnow) He Hstep.
  destruct e; try done; simpl in Hstep, He.
  - destruct (observing s); [|discriminate]. injection Hstep as <-.
    destruct (onMutations_signal s c mutations Hs Hv Hr He)
      as (s1 & (H1 & H2 & H3 & H4 & H5 & _) & ->).
    rewrite Hsch. unfold batch_pending.
    rewrite H1, H2, H3, H4, H5. done.
  - destruct (_ && _) eqn:Hok; [|discriminate]. injection Hstep as <-.
    apply andb_true_iff in Hok as [_ Hdl].
    rewrite forallb_forall in Hdl.
    unfold batch_pending, with_env. state_simpl. cbn [now runtime set_now].
    repeat split; try done.
    specialize (Hdl (mkTask CleanupBatch (t1 + 200))).
    rewrite Hq in Hdl. cbn [deadline] in Hdl.
    apply Z.leb_le, Hdl, in_or_app. right. by left.
Qed.

Lemma batch_pending_run c q t1 es : forall s s',
  batch_pending c q t1 s -> Forall signal_or_tick es -> run es s = Some s' ->
  batch_pending c q t1 s'.
Proof.
  induction es as [|e es IH]; intros s s' Hs Hes Hrun; simpl in Hrun.
  - by injection Hrun as <-.
  - destruct (step e s) as [s1|] eqn:Hstep; [|discriminate].
    apply Forall_cons in Hes as [He Hes].
    eapply IH; [|exact Hes|exact Hrun]. by eapply batch_pending_step.
Qed.

Lemma delete_last {A} (l : list A) x : delete (length l) (l ++ [x]) = l.
Proof. induction l as [|y l IH]; simpl; [done|]. by rewrite IH. Qed.

Lemma lookup_last {A} (l : list A) x : (l ++ [x]) !! length l = Some x.
Proof. induction l as [|y l IH]; simpl; [done|]. exact IH. Qed.

Definition batch_done (q : list IdleTask) (s : State) : Prop :=
  cleanupScheduled s = false /\ idle_queue s = q.

Lemma exec_after_modify {B} (I P : State -> Prop) f (k : unit -> M B) s :
  (forall s, P s -> I (f s)) -> preserves I (k tt) -> P s ->
  I (exec (bind (modify f) k) s).
Proof.
  intros Hf Hk Hs. unfold exec, bind, modify.
  specialize (Hk (f s) (Hf s Hs)). by destruct (k tt (f s)).
Qed.

Lemma cleanupBatch_done q s :
  idle_queue s = q -> batch_done q (exec cleanupBatch s).
Proof.
  unfold cleanupBatch.
  apply (exec_after_modify (batch_done q) (fun s => idle_queue s = q)).
  - intros s0 Hq. by split.
  - unfold setupLazyLoading, setupLazyLoadIframes, optimizeImageLoading,
      disableAutoplay, reduceMediaPreload, stabilizeImageLayout,
      isContextValid.
    preserve; assumption.
Qed.

(** C7: starting with no batch pending, a burst of [N >= 1] mutation
    signals (each adding an element node), with any clock ticks in between,
    leaves exactly one idle batch scheduled, with deadline 200ms after the
    first signal; the clock cannot pass that deadline while the batch is
    pending, and the idle opportunity runs [cleanupBatch] once and leaves no
    batch scheduled. *)
Theorem mutation_burst_schedules_one_batch (s : State) (c : Settings.t)
    (ms : list (list AddedNode)) (es : list Event) (s' : State) :
  settings s = Some c ->
  contextValid s = true ->
  runtime (env s) = RuntimeOk ->
  cleanupScheduled s = false ->
  adds_element ms = true ->
  Forall signal_or_tick es ->
  run (EvMutations ms :: es) s = Some s' ->
  let t1 := now (env s) in
  idle_queue s' = idle_queue s ++ [mkTask CleanupBatch (t1 + 200)]
  /\ cleanupScheduled s' = true
  /\ now (env s') <= t1 + 200
  /\ (forall t, t1 + 200 < t -> step (EvTick t) s' = None)
  /\ exists s'',
       step (EvIdle (length (idle_queue s))) s' = Some s''
       /\ s'' = exec cleanupBatch (set_idle_queue (idle_queue s) s')
       /\ cleanupScheduled s'' = false
       /\ idle_queue s'' = idle_queue s.
Proof.
  intros Hs Hv Hr Hsch Hadds Hes Hrun t1.
  cbn [run] in Hrun.
  destruct (step (EvMutations ms) s) as [s1|] eqn:Hstep; [|discriminate].
  assert (Hp1 : batch_pending c (idle_queue s) t1 s1).
  { simpl in Hstep. destruct (observing s); [|discriminate].
    injection Hstep as <-.
    destruct (onMutations_signal s c ms Hs Hv Hr Hadds)
      as (s0 & (H1 & H2 & H3 & H4 & H5 & _) & ->).
    rewrite Hsch. unfold batch_pending. state_simpl.
    rewrite H1, H2, H4. unfold t1. repeat split; try done. lia. }
  pose proof (batch_pending_run _ _ _ _ _ _ Hp1 Hes Hrun)
    as (Hs' & Hv' & Hr' & Hsch' & Hq' & Hnow').
  split; [exact Hq'|]. split; [exact Hsch'|]. split; [exact Hnow'|]. split.
  - intros t Ht. simpl. rewrite Hq', forallb_app. simpl.
    destruct (Z.leb_spec t (t1 + 200)); [lia|].
    by rewrite !andb_false_r.
  - eexists. split.
    + simpl. rewrite Hq', lookup_last, delete_last. reflexivity.
    + split; [reflexivity|]. cbn [callback runIdleCallback].
      by apply cleanupBatch_done.
Qed.

Lemma mutation_burst_schedules_one_batch_witness :
  run Samples.burst Samples.active = Some Samples.after_burst
  /\ idle_queue Samples.after_burst = [mkTask CleanupBatch 200]
  /\ now (env Samples.after_burst) = 60.
Proof.
  assert (Hrun : run Samples.burst Samples.active = Some Samples.after_burst)
    by (vm_compute; reflexivity).
  destruct (mutation_burst_schedules_one_batch Samples.active DEFAULT_SETTINGS
              [[AddedElement 3]] (tail Samples.burst) Samples.after_burst)
    as (Hq & _).
  1-5: vm_compute; reflexivity.
  - repeat constructor.
  - exact Hrun.
  - split; [exact Hrun|]. split; [|vm_compute; reflexivity].
    rewrite Hq. vm_compute. reflexivity.
Defined.

(** ** Switching the engine off (C1) *)

Definition has_id (i : string) (d : list node) : bool :=
  is_some (getElementById i d).






(** With the master flag off, [applyOptimizations] runs nothing. *)
Lemma applyOptimizations_disabled s c :
  settings s = Some c -> Settings.enabled c = false ->
  applyOptimizations s = Ok tt s.
Proof.
  intros Hs Hc. unfold applyOptimizations. js_unfold. rewrite Hs, Hc.
  by rewrite orb_true_r.
Qed.

(** C1 fails on the code.  An idle batch scheduled before the snapshot with
    [enabled = false] arrived is not abandoned: when it runs, the executors
    consult only their own feature flags and rewrite the new image.  In the
    same way a [DOMContentLoaded] listener registered before the snapshot
    runs the content-ready pass afterwards, which injects the
    content-visibility style again. *)
Theorem disabled_engine_still_mutates :
  (* the pending idle batch *)
  run Samples.switched_off Samples.active = Some Samples.off_state
  /\ (Settings.enabled <$> settings Samples.off_state) = Some false
  /\ observing Samples.off_state = false
  /\ (attrs <$> find_elem 10 (document Samples.off_state))
     = Some (attrs Samples.new_img)
  /\ step (EvIdle 0) Samples.off_state = Some Samples.off_then_idle
  /\ (find_elem 10 (document Samples.off_then_idle)
        ≫= fun img => attrs img !! "loading") = Some "lazy"
  /\ (find_elem 10 (document Samples.off_then_idle)
        ≫= fun img => attrs img !! "data-fc-optimized") = Some ""
  (* the pending content-ready pass *)
  /\ run Samples.off_while_loading Samples.early = Some Samples.off_early
  /\ (Settings.enabled <$> settings Samples.off_early) = Some false
  /\ has_id animations_styleId (document Samples.off_early) = false
  /\ has_id cv_styleId (document Samples.off_early) = false
  /\ step EvDOMContentLoaded Samples.off_early = Some Samples.off_then_ready
  /\ has_id cv_styleId (document Samples.off_then_ready) = true
  /\ (find_elem 3 (document Samples.off_then_ready)
        ≫= fun e => attrs e !! "data-fc-cv") = Some "".
Proof. by_computation. Qed.

(** ** The master toggle and the markers (C3) *)























Lemma reduceMedia_tag e : tag (reduceMedia e) = tag e.
Proof. unfold reduceMedia. by destruct (preload_eager _). Qed.




Section evolves_invariant.
Variable s0 : State.








End evolves_invariant.

(** ** The content-ready pass

    The pass rewrites elements in place and appends links and styles to the
    head.  A property of documents that is closed under both is an invariant
    of every executor of the pass. *)

(** The per-element rewrites of the pass, each with its selector. *)
Inductive executor_rewrite
  : (option string -> elem -> bool) -> (elem -> elem) -> Prop :=
| rw_lazy_img :
    executor_rewrite sel_img_not_loading (setAttribute "loading" "lazy")
| rw_lazy_iframe :
    executor_rewrite sel_iframe_lazy (setAttribute "loading" "lazy")
| rw_autoplay t : executor_rewrite (sel_autoplay t) stopAutoplay
| rw_media : executor_rewrite sel_media_unclaimed reduceMedia
| rw_image vh : executor_rewrite sel_img (optimizeImage vh)
| rw_cv vh :
    executor_rewrite (sel_cv_tagged vh) (setAttribute "data-fc-cv" "")
| rw_stabilize : executor_rewrite sel_stabilize_now fillDimensions.

Lemma executor_rewrite_tag sel body :
  executor_rewrite sel body -> forall e, tag (body e) = tag e.
Proof.
  destruct 1; intros e; try reflexivity.
  - apply reduceMedia_tag.
  - apply optimizeImage_tag.
Qed.

(** [o] is the origin of some http(s) URL the host parses. *)
Definition is_origin (ev : Env) (o : string) : Prop :=
  exists s u, parseURL ev s = Some u /\ URL.origin u = o
              /\ startsWith (URL.protocol u) "http" = true.

Definition cv_style (k : nat) : node :=
  Element (setAttribute "id" cv_styleId (newElement k "style")) [Text cv_css].

(** The nodes the pass appends to the head of a document [d]. *)
Inductive injected (ev : Env) (d : list node) : node -> Prop :=
| inj_dns k o : is_origin ev o -> injected ev d (dns_link k o)
| inj_preconnect k o :
    is_origin ev o -> has_link "dns-prefetch" o d = true ->
    injected ev d (preconnect_link k o)
| inj_preload k img :
    img ∈ selected sel_img_src d -> truthy (el_src ev img) = true ->
    injected ev d (preload_link k (el_src ev img))
| inj_cv k : injected ev d (cv_style k).

Lemma triple_bind_createElement {B} (P Q : State -> Prop) t (k : elem -> M B) :
  (forall s, P s -> P (set_next_eid (S (next_eid s)) s)) ->
  (forall n, triple P (k (newElement n t)) Q) ->
  triple P (bind (createElement t) k) Q.
Proof.
  intros Hnext Hk s Hs. unfold createElement. js_unfold.
  exact (Hk _ _ (Hnext s Hs)).
Qed.

Lemma cross_origin_is_origin ev e o :
  cross_origin ev e = Some o -> is_origin ev o.
Proof.
  unfold cross_origin. destruct (negb _); [done|].
  destruct (parseURL ev (resource_url ev e)) as [u|] eqn:Hu; [|done].
  destruct (negb _ && startsWith _ _) eqn:Hc; [|done].
  apply andb_true_iff in Hc as [_ Hc].
  intros [= <-]. by exists (resource_url ev e), u.
Qed.

Lemma collect_origins_is_origin ev d o :
  o ∈ collect_origins ev d -> is_origin ev o.
Proof.
  unfold collect_origins. generalize (selected sel_resources d). intros l.
  assert (H : forall o, o ∈ @nil string -> is_origin ev o)
    by (intros ? H; by apply elem_of_nil in H).
  revert H. generalize (@nil string).
  induction l as [|e l IH]; intros acc Hacc; simpl; [apply Hacc|].
  apply IH. destruct (cross_origin ev e) as [o'|] eqn:Ho'; [|exact Hacc].
  intros o1. unfold set_add. case_bool_decide; [apply Hacc|].
  intros H1. apply elem_of_app in H1 as [H1|H1]; [by apply Hacc|].
  apply list_elem_of_singleton in H1. subst.
  by eapply cross_origin_is_origin.
Qed.

Lemma largest_visible_In ev images img area :
  largest_visible ev images = (Some img, area) -> img ∈ images.
Proof.
  unfold largest_visible.
  assert (H : forall acc : option elem * Z,
             (forall i, fst acc = Some i -> i ∈ images) ->
             forall l, (forall i, i ∈ l -> i ∈ images) ->
             forall i a,
               fold_left (fun acc img =>
                  let rect := rect img in
                  if in_viewport ev rect then
                    let area := r_width rect * r_height rect in
                    if snd acc <? area then (Some img, area) else acc
                  else acc) l acc = (Some i, a) -> i ∈ images).
  { intros acc Hacc l. revert acc Hacc.
    induction l as [|x l IH]; intros acc Hacc Hl i a; simpl.
    - intros Heq. apply Hacc. by rewrite Heq.
    - apply IH.
      + destruct (in_viewport ev (rect x)); [|done].
        destruct (_ <? _); [|done]. simpl. intros ? [= <-]. apply Hl. by left.
      + intros j Hj. apply Hl. by right. }
  apply (H (None, 0)); [done|done].
Qed.

Section pass_invariant.
Variable c : Settings.t.
Variable ev : Env.
Variable D : list node -> Prop.
Variable F : list StyleSheet -> Prop.
Hypothesis D_rewrite : forall sel body d,
  executor_rewrite sel body -> D d -> D (forEach sel body d).
Hypothesis D_inject : forall n d,
  is_Some (document_head d) -> injected ev d n -> D d ->
  D (head_appendChild n d).
Hypothesis F_swap : forall ss, F ss -> F (map swapFontDisplay ss).

(** The pass runs with settings, a fixed environment and a head. *)
Definition ready (s : State) : Prop :=
  settings s = Some c
  /\ env s = ev
  /\ is_Some (document_head (document s))
  /\ D (document s)
  /\ F (styleSheets s).

Lemma ready_frame s s' :
  settings s' = settings s -> env s' = env s -> document s' = document s ->
  styleSheets s' = styleSheets s ->
  ready s -> ready s'.
Proof. unfold ready. intros -> -> -> ->. done. Qed.

Lemma ready_forEach sel body s :
  executor_rewrite sel body -> ready s ->
  ready (set_document (forEach sel body (document s)) s).
Proof.
  intros Hrw (Hs & He & Hh & Hd & Hf). repeat split; try done; state_simpl.
  - apply document_head_forEach; [|done]. by apply executor_rewrite_tag with sel.
  - by apply D_rewrite.
Qed.

Lemma ready_the_settings : triple ready the_settings ready.
Proof.
  intros s Hs. exists c, s. split; [|done].
  unfold the_settings. by rewrite (proj1 Hs).
Qed.

Lemma ready_head_append (P : State -> Prop) n :
  (forall s, P s -> ready s /\ injected ev (document s) n) ->
  triple P (head_append n) ready.
Proof.
  intros Hn s Hs. destruct (Hn s Hs) as [(Hset & He & Hh & Hd & Hf) Hinj].
  unfold head_append. js_unfold. destruct Hh as [hd Hh]. rewrite Hh.
  eexists tt, _. split; [reflexivity|].
  repeat split; try done; state_simpl.
  - rewrite document_head_appendChild, Hh. by eexists.
  - apply D_inject; [by rewrite Hh|done|done].
Qed.

Ltac ready_leaf :=
  match goal with
  | H : ready ?s |- ready (set_document (forEach _ _ _) _) =>
      apply ready_forEach; [constructor|exact H]
  | H : ready ?s |- ready _ =>
      apply (ready_frame s);
      [reflexivity|reflexivity|reflexivity|reflexivity|exact H]
  | |- triple ready the_settings ready => apply ready_the_settings
  end.

Ltac ready_step :=
  match goal with
  | |- triple _ (bind (createElement _) _) _ =>
      apply triple_bind_createElement; [intros ? ?|intro]
  | |- triple _ (bind the_settings _) _ =>
      apply (triple_bind ready ready); [apply ready_the_settings|intro]
  | _ => triple_step
  end.

Ltac ready_tac := repeat ready_step; cbv beta; try ready_leaf.

Lemma ready_setupLazyLoading : triple ready setupLazyLoading ready.
Proof. unfold setupLazyLoading. ready_tac. Qed.

Lemma ready_setupLazyLoadIframes : triple ready setupLazyLoadIframes ready.
Proof. unfold setupLazyLoadIframes. ready_tac. Qed.

Lemma ready_disableAutoplay : triple ready disableAutoplay ready.
Proof. unfold disableAutoplay. ready_tac. Qed.

Lemma ready_reduceMediaPreload : triple ready reduceMediaPreload ready.
Proof. unfold reduceMediaPreload. ready_tac. Qed.

Lemma ready_optimizeImageLoading : triple ready optimizeImageLoading ready.
Proof. unfold optimizeImageLoading. ready_tac. Qed.

Lemma ready_injectFontDisplaySwap : triple ready injectFontDisplaySwap ready.
Proof.
  unfold injectFontDisplaySwap. ready_tac.
  destruct H as (Hs & He & Hh & Hd & Hf).
  repeat split; try done; state_simpl. by apply F_swap.
Qed.

Lemma ready_stabilizeImageLayout : triple ready stabilizeImageLayout ready.
Proof. unfold stabilizeImageLayout. ready_tac. Qed.

Lemma ready_injectContentVisibility : triple ready injectContentVisibility ready.
Proof.
  unfold injectContentVisibility. ready_tac.
  apply ready_head_append. intros s Hs. split; [exact Hs|apply inj_cv].
Qed.

Lemma ready_next_eid s n : ready s -> ready (set_next_eid n s).
Proof. apply ready_frame; reflexivity. Qed.

Lemma ready_dns_loop origins : forall count,
  (forall o, o ∈ origins -> is_origin ev o) ->
  triple ready (dns_loop origins count) ready.
Proof.
  induction origins as [|o os IH]; intros count Hor; cbn [dns_loop].
  - apply triple_ret.
  - assert (Ho : is_origin ev o) by (apply Hor; left).
    assert (Hos : forall o', o' ∈ os -> is_origin ev o')
      by (intros o' Ho'; apply Hor; by right).
    destruct (10 <=? count); [apply triple_ret|].
    apply (triple_bind ready ready); [apply triple_gets|intros d].
    destruct (has_link "dns-prefetch" o d); [by apply IH|].
    apply triple_bind_createElement; [intros s Hs; by apply ready_next_eid|].
    intros k. cbn [eid newElement].
    apply (triple_bind ready
             (fun s => ready s /\ has_link "dns-prefetch" o (document s) = true)).
    { intros s Hs. pose proof Hs as (Hset & He & [hd Hh] & Hd & Hf).
      unfold head_append. js_unfold. rewrite Hh.
      eexists tt, _. split; [reflexivity|]. state_simpl.
      split.
      - repeat split; try done; state_simpl.
        + rewrite document_head_appendChild, Hh. by eexists.
        + apply D_inject; [by rewrite Hh|by apply inj_dns|done].
      - rewrite (has_link_head_appendChild _ _ _ _ hd Hh).
        unfold node_elems, dns_link. cbn [walk flat_map map snd existsb].
        fold (dns_elem k o). rewrite is_link_with_dns.
        by rewrite !bool_decide_eq_true_2, orb_true_r. }
    intros _.
    apply triple_bind_createElement.
    { intros s [Hs Hl]. split; [by apply ready_next_eid|exact Hl]. }
    intros k'. cbn [eid newElement].
    apply (triple_bind _ ready).
    { apply ready_head_append. intros s [Hs Hl]. split; [exact Hs|].
      by apply inj_preconnect. }
    intros _. apply (triple_bind ready ready); [|intros _; by apply IH].
    apply triple_modify. intros s Hs.
    apply (ready_frame s);
      [reflexivity|reflexivity|reflexivity|reflexivity|exact Hs].
Qed.

Lemma ready_setupDNSPrefetch : triple ready setupDNSPrefetch ready.
Proof.
  intros s Hs. pose proof Hs as (Hset & He & _).
  unfold setupDNSPrefetch. js_unfold. rewrite Hset.
  destruct (Settings.prefetchDNS c); cbn [negb]; [|by exists tt, s].
  apply ready_dns_loop; [|exact Hs].
  intros o Ho. rewrite He in Ho. by eapply collect_origins_is_origin.
Qed.

Lemma ready_preloadLCPCandidate : triple ready preloadLCPCandidate ready.
Proof.
  intros s Hs. pose proof Hs as (Hset & He & _).
  unfold preloadLCPCandidate. js_unfold. rewrite Hset.
  destruct (Settings.preloadLCP c); cbn [negb]; [|by exists tt, s].
  destruct (largest_visible (env s) (selected sel_img_src (document s)))
    as [[img|] area] eqn:Hl; [|by exists tt, s].
  destruct (truthy _ && _) eqn:Hc; [|by exists tt, s].
  apply andb_true_iff in Hc as [Hc _].
  destruct (has_link "preload" _ _); [by exists tt, s|].
  unfold createElement. js_unfold. state_simpl. cbn [eid newElement].
  apply (ready_head_append (fun s' => ready s' /\ document s' = document s)).
  - intros s' [Hs' Hd']. split; [exact Hs'|]. rewrite Hd', He.
    apply inj_preload; [by eapply largest_visible_In|by rewrite <- He].
  - split; [by apply ready_next_eid|reflexivity].
Qed.

Lemma ready_onDOMContentLoaded : triple ready onDOMContentLoaded ready.
Proof.
  pose proof ready_setupLazyLoading. pose proof ready_setupLazyLoadIframes.
  pose proof ready_disableAutoplay. pose proof ready_reduceMediaPreload.
  pose proof ready_optimizeImageLoading. pose proof ready_setupDNSPrefetch.
  pose proof ready_preloadLCPCandidate. pose proof ready_injectFontDisplaySwap.
  pose proof ready_injectContentVisibility.
  pose proof ready_stabilizeImageLayout.
  unfold onDOMContentLoaded. repeat triple_step.
Qed.
End pass_invariant.

(** *** Reading a rewritten element *)





Lemma getAttribute_removeAttribute_eqb name name' e :
  attrs (removeAttribute name e) !! name'
  = if String.eqb name name' then None else attrs e !! name'.
Proof.
  unfold removeAttribute. simpl.
  destruct (String.eqb_spec name name') as [->|Hne].
  - by rewrite lookup_delete_eq.
  - by rewrite lookup_delete_ne.
Qed.


Lemma hasAttribute_set_aspectRatio v e name :
  hasAttribute (set_aspectRatio v e) name = hasAttribute e name.
Proof. reflexivity. Qed.

Lemma reflected_removeAttribute_eqb name name' e :
  reflected (removeAttribute name e) name'
  = if String.eqb name name' then "" else reflected e name'.
Proof.
  unfold reflected. rewrite getAttribute_removeAttribute_eqb.
  by destruct (String.eqb name name').
Qed.


(** *** Gentle rewrites *)

(** What every rewrite of the pass respects: the tag, the layout, the
    resource attributes, and the attributes already present (only [autoplay]
    is ever removed); [width] and [height] change on images only. *)
Definition gently (e e' : elem) : Prop :=
  tag e' = tag e
  /\ rect e' = rect e
  /\ naturalWidth e' = naturalWidth e
  /\ naturalHeight e' = naturalHeight e
  /\ (forall n, n ∈ ["href"; "src"; "rel"; "id"; "role"] ->
        attrs e' !! n = attrs e !! n)
  /\ (forall n, n <> "autoplay" ->
        hasAttribute e n = true -> hasAttribute e' n = true)
  /\ (hasAttribute e' "autoplay" = true -> hasAttribute e "autoplay" = true)
  /\ (tag e <> "img" ->
      reflected e' "width" = reflected e "width"
      /\ reflected e' "height" = reflected e "height").











(** *** Selections that stay empty

    Once no element is selected by one of these selectors, no rewrite of the
    pass makes one selected again. *)



(** *** Documents that differ by gentle rewrites *)

Definition rewritten (d d' : list node) : Prop :=
  exists f, (forall p e, gently e (f p e))
            /\ walk_doc d' = map (on_pair f) (walk_doc d).




(** A selector that reads only what gentle rewrites respect. *)
Definition stable (sel : option string -> elem -> bool) : Prop :=
  forall p e e', gently e e' -> sel p e' = sel p e.

Lemma filter_map_stable {A} (P : A -> bool) (g : A -> A) l :
  (forall x, P (g x) = P x) ->
  List.filter P (map g l) = map g (List.filter P l).
Proof.
  intros Hg. induction l as [|x l IH]; simpl; [done|].
  rewrite Hg. destruct (P x); simpl; by rewrite IH.
Qed.

Lemma rewritten_selected sel d d' :
  stable sel -> rewritten d d' ->
  Forall2 gently (selected sel d) (selected sel d').
Proof.
  intros Hst (f & Hf & Hw). unfold selected. rewrite Hw.
  rewrite (filter_map_stable (fun pe => sel (fst pe) (snd pe)) (on_pair f))
    by (intros [p e]; apply Hst, Hf).
  rewrite map_map. apply Forall2_fmap, Forall_Forall2_diag, Forall_forall.
  intros [p e] _. apply Hf.
Qed.

Lemma gently_hasAttribute e e' n :
  n ∈ ["href"; "src"; "rel"; "id"; "role"] -> gently e e' ->
  hasAttribute e' n = hasAttribute e n.
Proof.
  intros Hn (_ & _ & _ & _ & H & _). unfold hasAttribute. by rewrite (H n Hn).
Qed.

Ltac in_list := repeat first [by left | right].

Lemma gently_url_prop ev e e' n :
  n ∈ ["href"; "src"; "rel"; "id"; "role"] -> gently e e' ->
  url_prop ev e' n = url_prop ev e n.
Proof.
  intros Hn (_ & _ & _ & _ & H & _). unfold url_prop. by rewrite (H n Hn).
Qed.

Lemma gently_tag_is t e e' : gently e e' -> tag_is t e' = tag_is t e.
Proof. intros (H & _). unfold tag_is. by rewrite H. Qed.

Lemma gently_is_link_with r h e e' :
  gently e e' -> is_link_with r h e' = is_link_with r h e.
Proof.
  intros Hg. pose proof Hg as (_ & _ & _ & _ & H & _).
  unfold is_link_with. rewrite (gently_tag_is _ _ _ Hg).
  by rewrite (H "rel"), (H "href") by in_list.
Qed.

Lemma gently_cross_origin ev e e' :
  gently e e' -> cross_origin ev e' = cross_origin ev e.
Proof.
  intros Hg. pose proof Hg as (_ & _ & _ & _ & H & _).
  unfold cross_origin, resource_url, el_href, el_src, getAttribute.
  rewrite !(gently_tag_is _ _ _ Hg).
  rewrite (gently_url_prop ev e e' "href"), (gently_url_prop ev e e' "src");
    [|in_list|done|in_list|done].
  by rewrite (H "href") by in_list.
Qed.

Lemma stable_sel_resources : stable sel_resources.
Proof.
  intros p e e' Hg. unfold sel_resources.
  rewrite !(gently_tag_is _ _ _ Hg).
  by rewrite (gently_hasAttribute e e' "href"), (gently_hasAttribute e e' "src");
    [|in_list|done|in_list|done].
Qed.

Lemma stable_sel_img_src : stable sel_img_src.
Proof.
  intros p e e' Hg. unfold sel_img_src.
  rewrite !(gently_tag_is _ _ _ Hg).
  by rewrite (gently_hasAttribute e e' "src"); [|in_list|done].
Qed.


Lemma existsb_rewritten (P : elem -> bool) f (l : list (option string * elem)) :
  (forall p e, P (f p e) = P e) ->
  existsb P (map snd (map (on_pair f) l)) = existsb P (map snd l).
Proof.
  intros HP. induction l as [|[p e] l IH]; [done|].
  cbn [map existsb on_pair snd fst]. by rewrite IH, HP.
Qed.

Lemma rewritten_has_link r h d d' :
  rewritten d d' -> has_link r h d' = has_link r h d.
Proof.
  intros (f & Hf & Hw). unfold has_link, elems. rewrite Hw.
  apply existsb_rewritten. intros p e. apply gently_is_link_with, Hf.
Qed.


Lemma collect_origins_ext ev (l l' : list elem) :
  Forall2 (fun e e' => cross_origin ev e' = cross_origin ev e) l l' ->
  forall acc,
    fold_left (fun origins el =>
                 match cross_origin ev el with
                 | Some o => set_add o origins
                 | None => origins
                 end) l' acc
    = fold_left (fun origins el =>
                   match cross_origin ev el with
                   | Some o => set_add o origins
                   | None => origins
                   end) l acc.
Proof.
  induction 1 as [|e e' l l' He _ IH]; intros acc; simpl; [done|].
  by rewrite He, IH.
Qed.

Lemma rewritten_collect_origins ev d d' :
  rewritten d d' -> collect_origins ev d' = collect_origins ev d.
Proof.
  intros Hr. unfold collect_origins.
  pose proof (rewritten_selected sel_resources d d' stable_sel_resources Hr)
    as Hsel.
  apply collect_origins_ext.
  eapply Forall2_impl; [exact Hsel|]. intros e e' Hg.
  by apply gently_cross_origin.
Qed.





(** *** Appending to the head *)

Lemma append_to_head_split n p kids h :
  first_head kids = Some h ->
  exists l1 l2,
    flat_map (walk p) kids = l1 ++ l2
    /\ flat_map (walk p) (append_to_head n kids)
       = l1 ++ walk (Some "head") n ++ l2.
Proof.
  induction kids as [|[t|e sub] kids IH]; simpl; intros Hh.
  - discriminate.
  - by apply IH.
  - destruct (is_head e) eqn:He.
    + simpl. rewrite (is_head_tag e He), flat_map_app. simpl.
      rewrite app_nil_r.
      exists ((p, e) :: flat_map (walk (Some "head")) sub), (flat_map (walk p) kids).
      split; [done|]. simpl. by rewrite <- !app_assoc.
    + destruct (IH Hh) as (l1 & l2 & H1 & H2). simpl. rewrite H1, H2.
      exists ((p, e) :: flat_map (walk (Some (tag e))) sub ++ l1), l2.
      split; simpl; by rewrite <- !app_assoc.
Qed.

Lemma head_appendChild_split n d h :
  document_head d = Some h ->
  exists l1 l2,
    walk_doc d = l1 ++ l2
    /\ walk_doc (head_appendChild n d) = l1 ++ walk (Some "head") n ++ l2.
Proof.
  unfold document_head, walk_doc, head_appendChild.
  induction d as [|[t|e kids] d IH]; simpl; intros Hh.
  - discriminate.
  - by apply IH.
  - destruct (append_to_head_split n (Some (tag e)) kids h Hh)
      as (l1 & l2 & H1 & H2).
    rewrite H1, H2. exists ((None, e) :: l1), (l2 ++ flat_map (walk None) d).
    split; simpl; by rewrite <- !app_assoc.
Qed.

Lemma filter_none {A} (P : A -> bool) l :
  (forall x, x ∈ l -> P x = false) -> List.filter P l = [].
Proof.
  induction l as [|x l IH]; intros H; simpl; [done|].
  rewrite (H x) by left. apply IH. intros y Hy. apply H. by right.
Qed.

Lemma selected_head_appendChild sel n d h :
  document_head d = Some h ->
  (forall pe, pe ∈ walk (Some "head") n -> sel (fst pe) (snd pe) = false) ->
  selected sel (head_appendChild n d) = selected sel d.
Proof.
  intros Hh Hn. destruct (head_appendChild_split n d h Hh) as (l1 & l2 & H1 & H2).
  unfold selected. rewrite H1, H2, !List.filter_app.
  by rewrite (filter_none _ (walk (Some "head") n)) by exact Hn.
Qed.





(** ** What the content-ready pass settles *)


(** A selector that matches neither [link] nor [style] elements unless they
    carry a [role]. *)
Definition linkless (sel : option string -> elem -> bool) : Prop :=
  forall p e, tag e = "link" \/ tag e = "style" ->
              attrs e !! "role" = None -> sel p e = false.

Lemma linkless_tag (sel : option string -> elem -> bool) :
  (forall p e, sel p e = true ->
     tag e = "img" \/ tag e = "iframe" \/ tag e = "video" \/ tag e = "audio") ->
  linkless sel.
Proof.
  intros H p e Ht _. destruct (sel p e) eqn:Hs; [|done].
  destruct (H p e Hs) as [E|[E|[E|E]]]; rewrite E in Ht;
    by destruct Ht.
Qed.

Ltac linkless_tac :=
  apply linkless_tag; intros p e;
  unfold sel_img_not_loading, sel_iframe_lazy, sel_iframe_not_loading,
    sel_autoplay, sel_media_unclaimed, sel_img_unclaimed, sel_img,
    sel_img_src, sel_stabilize_now, sel_img_unstabilized, tag_is;
  rewrite ?andb_true_iff, ?orb_true_iff, ?String.eqb_eq; tauto.








Lemma linkless_sel_img_src : linkless sel_img_src.
Proof. linkless_tac. Qed.



(** *** Selected elements *)

Lemma elem_of_selected sel d e :
  e ∈ selected sel d <-> exists p, (p, e) ∈ walk_doc d /\ sel p e = true.
Proof.
  unfold selected. rewrite list_elem_of_fmap. split.
  - intros ([p e'] & -> & Hin). apply list_elem_of_In, filter_In in Hin as [Hin Hs].
    exists p. split; [by apply list_elem_of_In|done].
  - intros (p & Hin & Hs). exists (p, e). split; [done|].
    apply list_elem_of_In, filter_In. split; [by apply list_elem_of_In|done].
Qed.

Section settled.
Variable c : Settings.t.
Variable ev : Env.

(** *** Properties of documents the pass cannot undo *)





Definition given (P : Prop) (D : list node -> Prop) (d : list node) : Prop :=
  P -> D d.






(** *** What one pass establishes *)


















(** *** Style sheets *)




(** *** Settling goal after goal *)






End settled.

(** ** Running the content-ready pass twice (C2) *)

(** Whether a handler returns rather than throws. *)
Definition returns {A} (m : M A) (s : State) : bool :=
  match m s with
  | Ok _ _ => true
  | Throw _ => false
  end.

(** Number of [dns-prefetch] links in a document. *)
Definition dns_hints (d : list node) : nat :=
  length (List.filter
            (fun e => tag_is "link" e
                      && bool_decide (attrs e !! "rel" = Some "dns-prefetch"))
            (elems d)).

(** C2 fails on the code.  The hint loop of [setupDNSPrefetch] skips an
    origin that has its hint before it counts it, so its limit of ten is a
    limit on the hints added in one run, not on the hints of the page.  On a
    page whose scripts come from eleven origins the first pass gives ten
    origins their pair of links, and the second pass, which finds those ten
    hinted, gives the eleventh its pair: the document after two passes is not
    the document after one, and it holds eleven [dns-prefetch] links.  The
    same happens when the second pass is the one a [REFRESH_OPTIMIZATIONS]
    message starts on a running page. *)
Theorem second_pass_adds_hints :
  let s0 := Samples.many_origins 11 in
  let s1 := exec onDOMContentLoaded s0 in
  let s2 := exec onDOMContentLoaded s1 in
  let r1 := exec (onSettingsResponse (Some DEFAULT_SETTINGS))
                 (initial_state (document s0) [] (Samples.page Complete)) in
  let r2 := exec (onMessage REFRESH_OPTIMIZATIONS) r1 in
  returns onDOMContentLoaded s0 = true
  /\ returns onDOMContentLoaded s1 = true
  /\ length (collect_origins (env s0) (document s0)) = 11%nat
  /\ dns_hints (document s0) = 0%nat
  /\ dns_hints (document s1) = 10%nat
  /\ dns_hints (document s2) = 11%nat
  /\ has_link "dns-prefetch" (Samples.cdn 11) (document s1) = false
  /\ has_link "dns-prefetch" (Samples.cdn 11) (document s2) = true
  /\ has_link "preconnect" (Samples.cdn 11) (document s1) = false
  /\ has_link "preconnect" (Samples.cdn 11) (document s2) = true
  /\ length (elems (document s2)) = (length (elems (document s1)) + 2)%nat
  /\ dnsPrefetched (performanceMetrics s1) = 10
  /\ dnsPrefetched (performanceMetrics s2) = 11
  /\ document s2 <> document s1
  /\ dns_hints (document r1) = 10%nat
  /\ dns_hints (document r2) = 11%nat.
Proof.
  cbv zeta.
  repeat (split; [vm_compute; reflexivity|]).
  split; [|split; vm_compute; reflexivity].
  intros Heq.
  apply (f_equal (has_link "dns-prefetch" (Samples.cdn 11))) in Heq.
  vm_compute in Heq. discriminate Heq.
Qed.

(** ** Switching the engine off and on again (C3) *)















Section reenable.
Variable c : Settings.t.
Variable ev : Env.
Variable D : list node -> Prop.
Hypothesis D_rewrite : forall sel body d,
  executor_rewrite sel body -> D d -> D (forEach sel body d).
Hypothesis D_append : forall n d,
  is_Some (document_head d) -> D d -> D (head_appendChild n d).

Lemma D_inject n d :
  is_Some (document_head d) -> injected ev d n -> D d ->
  D (head_appendChild n d).
Proof. intros Hh _. by apply D_append. Qed.






End reenable.


Section toggle_on.
Variable c : Settings.t.
Variable ev : Env.
Variable K : list node -> Prop.
Hypothesis K_rewrite : forall sel body d,
  executor_rewrite sel body -> K d -> K (forEach sel body d).
Hypothesis K_append : forall n d,
  is_Some (document_head d) -> K d -> K (head_appendChild n d).
Hypothesis enabled_c : Settings.enabled c = true.














End toggle_on.






(** * JavaScript values

    Values as they travel in messages, in storage and in option bags. *)

Module JS.

Inductive Value :=
| VBool (b : bool)
| VNum (n : Z)
| VStr (s : string)
| VNull
| VObject.

(** [ToBoolean]; a missing property reads as [undefined]. *)
Definition to_boolean (v : option Value) : bool :=
  match v with
  | Some (VBool b) => b
  | Some (VNum n) => negb (n =? 0)
  | Some (VStr s) => negb (String.eqb s "")
  | Some VObject => true
  | Some VNull | None => false
  end.

Abbreviation Object := (gmap string Value).

(** [{ ...a, ...b }] *)
Definition spread (a b : Object) : Object := b ∪ a.

End JS.

(** * The background service worker

    [background.js] keeps the settings object, persists it with
    [chrome.storage.sync] and pushes it to the tabs.  Its functions are
    [async]: each runs up to its next [await] and resumes when the host
    completes the pending call, so other handlers may run in between.  A
    world holds the worker's variables, the stored value, the calls in flight
    with what resumes after them, and the messages sent so far; an event is a
    message or browser event arriving, or the completion of a call in
    flight. *)

Module Background.
Export JS.

Definition DEFAULT_SETTINGS : Object :=
  list_to_map
    [ ("enabled", VBool true);
      ("disableAnimations", VBool true);
      ("lazyLoadImages", VBool true);
      ("disableAutoplay", VBool true);
      ("throttleTimers", VBool true);
      ("prefetchDNS", VBool true);
      ("preloadLCP", VBool true);
      ("prefetchLinks", VBool false);
      ("optimizeImagePriority", VBool true);
      ("lazyLoadIframes", VBool true);
      ("reduceMediaPreload", VBool true);
      ("fontDisplaySwap", VBool true);
      ("contentVisibility", VBool true);
      ("stabilizeLayout", VBool true);
      ("nonBlockingCSS", VBool true);
      ("deferScripts", VBool false);
      ("passiveListeners", VBool true) ].

(** What a content script reads off a settings object: the truth value of
    each flag. *)
Definition snapshot (o : Object) : Settings.t :=
  Settings.mk
    (to_boolean (o !! "enabled"))
    (to_boolean (o !! "disableAnimations"))
    (to_boolean (o !! "lazyLoadImages"))
    (to_boolean (o !! "disableAutoplay"))
    (to_boolean (o !! "throttleTimers"))
    (to_boolean (o !! "prefetchDNS"))
    (to_boolean (o !! "preloadLCP"))
    (to_boolean (o !! "prefetchLinks"))
    (to_boolean (o !! "optimizeImagePriority"))
    (to_boolean (o !! "lazyLoadIframes"))
    (to_boolean (o !! "reduceMediaPreload"))
    (to_boolean (o !! "fontDisplaySwap"))
    (to_boolean (o !! "contentVisibility"))
    (to_boolean (o !! "stabilizeLayout"))
    (to_boolean (o !! "nonBlockingCSS"))
    (to_boolean (o !! "deferScripts"))
    (to_boolean (o !! "passiveListeners")).

(** What is done with the promise of [loadSettings] or [saveSettings]: the
    [.then] of the message listener, answering on the port of the message. *)
Inductive Continuation :=
| ThenNothing
| ThenReplySettings (port : nat)
| ThenReplySuccess (port : nat)
| ThenReplyEnabled (port : nat).

(** A call in flight and the function suspended on it. *)
Inductive Task :=
| AwaitGetLoad (k : Continuation)     (* [loadSettings], at its [await] *)
| AwaitGetMigrate                     (* [onInstalled], at its first [await] *)
| AwaitSetSave (value : Object) (k : Continuation)
                                      (* [saveSettings], at its [await] *)
| AwaitSetMigrate (value : Object)    (* [onInstalled], at its second [await] *)
| AwaitTabs.                          (* [chrome.tabs.query] of [notifyAllTabs] *)

Inductive Reply :=
| ReplySettings (settings : Object)
| ReplySuccess
| ReplyEnabled (enabled : option Value).

Inductive Out :=
| Respond (port : nat) (r : Reply)
| Notify (tab : Z) (settings : Object).   (* a [SETTINGS_UPDATED] message *)

Record World := mkWorld {
  currentSettings : Object;
  activeContentScripts : gset Z;
  storage : option Object;       (* the value stored under the settings key *)
  tasks : list Task;
  sent : list Out
}.

Definition set_currentSettings (o : Object) (w : World) : World :=
  mkWorld o (activeContentScripts w) (storage w) (tasks w) (sent w).
Definition set_activeContentScripts (a : gset Z) (w : World) : World :=
  mkWorld (currentSettings w) a (storage w) (tasks w) (sent w).
Definition set_storage (v : option Object) (w : World) : World :=
  mkWorld (currentSettings w) (activeContentScripts w) v (tasks w) (sent w).
Definition set_tasks (t : list Task) (w : World) : World :=
  mkWorld (currentSettings w) (activeContentScripts w) (storage w) t (sent w).
Definition set_sent (o : list Out) (w : World) : World :=
  mkWorld (currentSettings w) (activeContentScripts w) (storage w) (tasks w) o.

Definition spawn (t : Task) (w : World) : World :=
  set_tasks (tasks w ++ [t]) w.

Definition send (o : Out) (w : World) : World :=
  set_sent (sent w ++ [o]) w.

(** [loadSettings()] up to its [await]. *)
Definition loadSettings (k : Continuation) (w : World) : World :=
  spawn (AwaitGetLoad k) w.

(** [.then(...)] of a settled [loadSettings] or [saveSettings] promise. *)
Definition continue (k : Continuation) (w : World) : World :=
  match k with
  | ThenNothing => w
  | ThenReplySettings port =>
      send (Respond port (ReplySettings (currentSettings w))) w
  | ThenReplySuccess port => send (Respond port ReplySuccess) w
  | ThenReplyEnabled port =>
      send (Respond port (ReplyEnabled (currentSettings w !! "enabled"))) w
  end.

(** [loadSettings] from its [await] on; [ok] is false when the storage call
    rejected. *)
Definition loadSettings_resume (ok : bool) (k : Continuation) (w : World)
  : World :=
  let w1 :=
    if ok then
      match storage w with
      | Some stored => set_currentSettings (spread DEFAULT_SETTINGS stored) w
      | None => w
      end
    else w in
  continue k w1.

(** [saveSettings(settings)] up to its [await]; an [undefined] argument
    spreads to nothing. *)
Definition saveSettings (settings : option Object) (k : Continuation)
           (w : World) : World :=
  let cs := spread DEFAULT_SETTINGS (default ∅ settings) in
  spawn (AwaitSetSave cs k) (set_currentSettings cs w).

(** [notifyAllTabs()] up to the callback of [chrome.tabs.query]. *)
Definition notifyAllTabs (w : World) : World := spawn AwaitTabs w.

(** The callback of [chrome.tabs.query]: [tab.id] is [undefined] for some
    tabs; [if (tab.id)]. *)
Definition has_id (tab : option Z) : bool :=
  match tab with
  | Some id => negb (id =? 0)
  | None => false
  end.

Definition notifyAllTabs_resume (tabs : list (option Z)) (w : World) : World :=
  fold_left (fun w tab =>
               match tab with
               | Some id =>
                   if has_id tab then send (Notify id (currentSettings w)) w
                   else w
               | None => w
               end)
            tabs w.

(** [saveSettings] from its [await] on. *)
Definition saveSettings_resume (ok : bool) (value : Object) (k : Continuation)
           (w : World) : World :=
  let w1 := if ok then notifyAllTabs (set_storage (Some value) w) else w in
  continue k w1.

(** The migration of v1 settings in [onInstalled]. *)
Definition oldKeys : list string :=
  [ "blockTracking"; "blockAds"; "blockSocialWidgets"; "blockChatWidgets";
    "blockWebFonts"; "blockImages"; "blockThirdPartyScripts"; "aggressiveMode";
    "blockAnimations" ].

Definition rename_blockAnimations (old : Object) : Object :=
  match old !! "blockAnimations", old !! "disableAnimations" with
  | Some v, None => <["disableAnimations" := v]> old
  | _, _ => old
  end.

Definition migrate (old : Object) : Object :=
  spread DEFAULT_SETTINGS
    (fold_left (fun o key => delete key o) oldKeys (rename_blockAnimations old)).

(** [onInstalled] from its first [await] on: a rejection ends the function,
    [loadSettings] is not reached. *)
Definition onInstalled_resume_get (ok : bool) (w : World) : World :=
  if ok then
    match storage w with
    | Some old => spawn (AwaitSetMigrate (migrate old)) w
    | None => loadSettings ThenNothing w
    end
  else w.

Definition onInstalled_resume_set (ok : bool) (value : Object) (w : World)
  : World :=
  if ok then loadSettings ThenNothing (set_storage (Some value) w) else w.

Inductive Message :=
| GET_SETTINGS
| SAVE_SETTINGS (settings : option Object)
| TOGGLE_ENABLED
| Other.

(** The [chrome.runtime.onMessage] listener. *)
Definition onMessage (message : Message) (senderTab : option Z) (port : nat)
           (w : World) : World :=
  match message with
  | GET_SETTINGS =>
      let w1 :=
        match senderTab with
        | Some id =>
            if has_id senderTab
            then set_activeContentScripts ({[ id ]} ∪ activeContentScripts w) w
            else w
        | None => w
        end in
      loadSettings (ThenReplySettings port) w1
  | SAVE_SETTINGS settings => saveSettings settings (ThenReplySuccess port) w
  | TOGGLE_ENABLED =>
      let toggled :=
        <["enabled" := VBool (negb (to_boolean (currentSettings w !! "enabled")))]>
          (currentSettings w) in
      saveSettings (Some toggled) (ThenReplyEnabled port)
                   (set_currentSettings toggled w)
  | Other => w
  end.

Inductive Event :=
| EvMessage (message : Message) (senderTab : option Z) (port : nat)
| EvTabRemoved (tabId : Z)
| EvTabUpdated (tabId : Z) (loading : bool)
| EvInstalled (update : bool)
| EvGetDone (i : nat) (ok : bool)
| EvSetDone (i : nat) (ok : bool)
| EvTabsDone (i : nat) (tabs : list (option Z))
| EvSynced (value : option Object).   (* the stored value changed elsewhere *)

Definition finish (i : nat) (w : World) : World :=
  set_tasks (delete i (tasks w)) w.

(** One event; [None] when there is no such call in flight. *)
Definition step (e : Event) (w : World) : option World :=
  match e with
  | EvMessage m tab port => Some (onMessage m tab port w)
  | EvTabRemoved id =>
      Some (set_activeContentScripts (activeContentScripts w ∖ {[ id ]}) w)
  | EvTabUpdated id loading =>
      Some (if loading
            then set_activeContentScripts (activeContentScripts w ∖ {[ id ]}) w
            else w)
  | EvInstalled update =>
      Some (if update then spawn AwaitGetMigrate w
            else loadSettings ThenNothing w)
  | EvGetDone i ok =>
      match tasks w !! i with
      | Some (AwaitGetLoad k) => Some (loadSettings_resume ok k (finish i w))
      | Some AwaitGetMigrate => Some (onInstalled_resume_get ok (finish i w))
      | _ => None
      end
  | EvSetDone i ok =>
      match tasks w !! i with
      | Some (AwaitSetSave v k) => Some (saveSettings_resume ok v k (finish i w))
      | Some (AwaitSetMigrate v) => Some (onInstalled_resume_set ok v (finish i w))
      | _ => None
      end
  | EvTabsDone i tabs =>
      match tasks w !! i with
      | Some AwaitTabs => Some (notifyAllTabs_resume tabs (finish i w))
      | _ => None
      end
  | EvSynced v => Some (set_storage v w)
  end.

Fixpoint run (es : list Event) (w : World) : option World :=
  match es with
  | [] => Some w
  | e :: es' =>
      match step e w with
      | Some w' => run es' w'
      | None => None
      end
  end.

(** The worker once its script has run: [loadSettings()] is in flight. *)
Definition start (stored : option Object) : World :=
  loadSettings ThenNothing (mkWorld DEFAULT_SETTINGS ∅ stored [] []).

End Background.

(** * Properties of the background service worker *)

Module BackgroundProps.
Import Background.

(** ** Every default key is always there *)

Definition complete (o : Object) : Prop :=
  forall key, is_Some (DEFAULT_SETTINGS !! key) -> is_Some (o !! key).

Lemma complete_spread x : complete (spread DEFAULT_SETTINGS x).
Proof.
  intros key Hkey. unfold spread. apply lookup_union_is_Some. by right.
Qed.

Lemma complete_insert key v o : complete o -> complete (<[key := v]> o).
Proof.
  intros Ho k Hk. destruct (decide (key = k)) as [->|Hne].
  - rewrite lookup_insert_eq. by eexists.
  - rewrite lookup_insert_ne by done. by apply Ho.
Qed.

(** Merging the defaults into an object that has every default key changes
    nothing. *)
Lemma spread_complete o : complete o -> spread DEFAULT_SETTINGS o = o.
Proof.
  intros Ho. unfold spread. apply map_eq. intros key.
  destruct (o !! key) as [v|] eqn:Hv.
  - by apply lookup_union_Some_l.
  - apply lookup_union_None. split; [done|].
    destruct (DEFAULT_SETTINGS !! key) eqn:Hd; [|done].
    destruct (Ho key) as [v' Hv']; [by eexists|congruence].
Qed.

(** The settings object a message carries, if any. *)
Definition carried (o : Out) : option Object :=
  match o with
  | Notify _ settings => Some settings
  | Respond _ (ReplySettings settings) => Some settings
  | Respond _ _ => None
  end.

Definition sound (w : World) : Prop :=
  complete (currentSettings w)
  /\ forall o settings, o ∈ sent w -> carried o = Some settings ->
                        complete settings.

Lemma sound_frame w w' :
  currentSettings w' = currentSettings w -> sent w' = sent w ->
  sound w -> sound w'.
Proof. unfold sound. intros -> ->. done. Qed.

Lemma sound_send o w :
  (forall settings, carried o = Some settings -> complete settings) ->
  sound w -> sound (send o w).
Proof.
  intros Ho [Hc Hs]. split; [exact Hc|]. simpl.
  intros o' settings Hin Hcar. apply elem_of_app in Hin as [Hin|Hin].
  - by apply (Hs o').
  - apply list_elem_of_singleton in Hin. subst. by apply Ho.
Qed.

Lemma sound_continue k w : sound w -> sound (continue k w).
Proof.
  intros Hw. destruct k as [|port|port|port]; simpl; [done| | |].
  - apply sound_send; [|done]. intros s [= <-]. apply Hw.
  - apply sound_send; [|done]. by intros s.
  - apply sound_send; [|done]. by intros s.
Qed.

Lemma sound_set_currentSettings o w :
  complete o -> sound w -> sound (set_currentSettings o w).
Proof. intros Ho [_ Hs]. by split. Qed.

Lemma sound_saveSettings x k w : sound w -> sound (saveSettings x k w).
Proof.
  intros Hw. unfold saveSettings.
  eapply (sound_frame (set_currentSettings _ w)); [reflexivity|reflexivity|].
  apply sound_set_currentSettings; [apply complete_spread|done].
Qed.

Lemma sound_notifyAllTabs_resume tabs : forall w,
  sound w -> sound (notifyAllTabs_resume tabs w).
Proof.
  unfold notifyAllTabs_resume.
  induction tabs as [|tab tabs IH]; intros w Hw; simpl; [done|].
  apply IH. destruct tab as [id|]; [|done].
  destruct (has_id (Some id)); [|done].
  apply sound_send; [|done]. intros s [= <-]. apply Hw.
Qed.

Lemma sound_step e w w' : sound w -> step e w = Some w' -> sound w'.
Proof.
  intros Hw Hstep. destruct e; simpl in Hstep.
  - injection Hstep as <-. destruct message; simpl.
    + destruct senderTab as [id|]; [destruct (has_id (Some id))|];
        by apply (sound_frame w).
    + by apply sound_saveSettings.
    + apply sound_saveSettings, sound_set_currentSettings; [|done].
      apply complete_insert, Hw.
    + done.
  - injection Hstep as <-. by apply (sound_frame w).
  - injection Hstep as <-. destruct loading; [by apply (sound_frame w)|done].
  - injection Hstep as <-. destruct update; by apply (sound_frame w).
  - destruct (tasks w !! i) as [[k| | | |]|]; try discriminate;
      injection Hstep as <-.
    + unfold loadSettings_resume. apply sound_continue.
      destruct ok; [|by apply (sound_frame w)].
      destruct (storage (finish i w)) as [stored|]; [|by apply (sound_frame w)].
      apply sound_set_currentSettings; [apply complete_spread|].
      by apply (sound_frame w).
    + unfold onInstalled_resume_get. destruct ok; [|by apply (sound_frame w)].
      destruct (storage (finish i w)); by apply (sound_frame w).
  - destruct (tasks w !! i) as [[| |v k|v|]|]; try discriminate;
      injection Hstep as <-.
    + unfold saveSettings_resume. apply sound_continue.
      destruct ok; by apply (sound_frame w).
    + unfold onInstalled_resume_set. destruct ok; by apply (sound_frame w).
  - destruct (tasks w !! i) as [[| | | |]|]; try discriminate.
    injection Hstep as <-. apply sound_notifyAllTabs_resume.
    by apply (sound_frame w).
  - injection Hstep as <-. by apply (sound_frame w).
Qed.

Lemma sound_run es : forall w w',
  sound w -> run es w = Some w' -> sound w'.
Proof.
  induction es as [|e es IH]; intros w w' Hw Hrun; simpl in Hrun.
  - by injection Hrun as <-.
  - destruct (step e w) as [w1|] eqn:Hstep; [|discriminate].
    eapply IH; [|exact Hrun]. by eapply sound_step.
Qed.

Lemma sound_start stored : sound (start stored).
Proof.
  split.
  - intros key Hkey. exact Hkey.
  - simpl. intros o s Hin. by apply elem_of_nil in Hin.
Qed.

(** A content script reads every flag of a complete object off a stored
    value, never off [undefined]. *)
Definition flags : list string :=
  [ "enabled"; "disableAnimations"; "lazyLoadImages"; "disableAutoplay";
    "throttleTimers"; "prefetchDNS"; "preloadLCP"; "prefetchLinks";
    "optimizeImagePriority"; "lazyLoadIframes"; "reduceMediaPreload";
    "fontDisplaySwap"; "contentVisibility"; "stabilizeLayout";
    "nonBlockingCSS"; "deferScripts"; "passiveListeners" ].

Lemma complete_flags o key : complete o -> key ∈ flags -> is_Some (o !! key).
Proof.
  intros Ho Hkey. apply Ho. unfold flags in Hkey.
  repeat (apply elem_of_cons in Hkey as [->|Hkey]; [by eexists|]).
  by apply elem_of_nil in Hkey.
Qed.

(** Whatever the stored value was, whatever messages arrive and however the
    calls in flight interleave, succeed or fail: the worker's settings object,
    every [SETTINGS_UPDATED] message it sends to a tab and every answer to
    [GET_SETTINGS] has all seventeen settings keys. *)
Theorem settings_sent_are_complete (stored : option Object) (es : list Event)
    (w : World) :
  run es (start stored) = Some w ->
  (forall key, key ∈ flags -> is_Some (currentSettings w !! key))
  /\ (forall tab settings key,
        Notify tab settings ∈ sent w -> key ∈ flags ->
        is_Some (settings !! key))
  /\ (forall port settings key,
        Respond port (ReplySettings settings) ∈ sent w -> key ∈ flags ->
        is_Some (settings !! key)).
Proof.
  intros Hrun.
  destruct (sound_run es _ _ (sound_start stored) Hrun) as [Hc Hs].
  split; [|split].
  - intros key. by apply complete_flags.
  - intros tab settings key Hin. apply complete_flags.
    by apply (Hs (Notify tab settings)).
  - intros port settings key Hin. apply complete_flags.
    by apply (Hs (Respond port (ReplySettings settings))).
Qed.

(** A v1 store, a popup that saves only the master flag, two tabs. *)
Definition v1_store : Object :=
  list_to_map [("blockAds", VBool true); ("lazyLoadImages", VBool false)].

Definition session : list Event :=
  [ EvGetDone 0 true;
    EvMessage (SAVE_SETTINGS (Some {[ "enabled" := VBool false ]})) None 1;
    EvSetDone 0 true;
    EvTabsDone 0 [Some 7; None; Some 9];
    EvMessage GET_SETTINGS (Some 7) 2;
    EvGetDone 0 true ].

Definition session_end : World :=
  default (start None) (run session (start (Some v1_store))).

Lemma run_default es w w0 :
  is_some (run es w) = true -> run es w = Some (default w0 (run es w)).
Proof. by destruct (run es w). Qed.

Lemma settings_sent_are_complete_witness :
  run session (start (Some v1_store)) = Some session_end
  /\ length (sent session_end) = 4%nat
  /\ forall tab settings,
       Notify tab settings ∈ sent session_end ->
       is_Some (settings !! "contentVisibility").
Proof.
  assert (Hrun : run session (start (Some v1_store)) = Some session_end)
    by (apply run_default; vm_compute; reflexivity).
  split; [exact Hrun|]. split; [vm_compute; reflexivity|].
  intros tab settings Hin.
  destruct (settings_sent_are_complete (Some v1_store) session session_end Hrun)
    as (_ & Hn & _).
  apply (Hn tab settings); [exact Hin|]. unfold flags. do 12 right. by left.
Defined.

(** ** Saving and reading back *)

Lemma lookup_spawned (l : list Task) t : (l ++ [t]) !! length l = Some t.
Proof. induction l as [|y l IH]; simpl; [done|exact IH]. Qed.

Lemma delete_spawned (l : list Task) t : delete (length l) (l ++ [t]) = l.
Proof. induction l as [|y l IH]; simpl; [done|]. by rewrite IH. Qed.

Lemma step_SetDone_save w v k ok n :
  n = length (tasks w) ->
  step (EvSetDone n ok) (spawn (AwaitSetSave v k) w)
  = Some (saveSettings_resume ok v k w).
Proof.
  intros ->. unfold step, spawn, finish. cbn [tasks set_tasks].
  rewrite lookup_spawned, delete_spawned. by destruct w.
Qed.

Lemma step_GetDone_load w k ok n :
  n = length (tasks w) ->
  step (EvGetDone n ok) (spawn (AwaitGetLoad k) w)
  = Some (loadSettings_resume ok k w).
Proof.
  intros ->. unfold step, spawn, finish. cbn [tasks set_tasks].
  rewrite lookup_spawned, delete_spawned. by destruct w.
Qed.

Lemma step_GetDone_migrate w ok n :
  n = length (tasks w) ->
  step (EvGetDone n ok) (spawn AwaitGetMigrate w)
  = Some (onInstalled_resume_get ok w).
Proof.
  intros ->. unfold step, spawn, finish. cbn [tasks set_tasks].
  rewrite lookup_spawned, delete_spawned. by destruct w.
Qed.

Lemma step_SetDone_migrate w v ok n :
  n = length (tasks w) ->
  step (EvSetDone n ok) (spawn (AwaitSetMigrate v) w)
  = Some (onInstalled_resume_set ok v w).
Proof.
  intros ->. unfold step, spawn, finish. cbn [tasks set_tasks].
  rewrite lookup_spawned, delete_spawned. by destruct w.
Qed.

Ltac world_simpl :=
  unfold loadSettings_resume, saveSettings_resume, notifyAllTabs, onMessage,
    loadSettings, saveSettings, continue, spawn, send;
  cbn [storage set_storage set_tasks set_sent set_currentSettings
       set_activeContentScripts tasks sent currentSettings
       activeContentScripts default from_option id].

Lemma run_cons e es w w' : step e w = Some w' -> run (e :: es) w = run es w'.
Proof. intros H. simpl. by rewrite H. Qed.

(** [SAVE_SETTINGS] followed by [GET_SETTINGS], each running to completion
    with the storage calls succeeding: the worker answers [success] to the
    first and, to the second, the saved object merged over the defaults; that
    object is what is stored.  A saved key wins over its default, a key that
    was not saved has its default value. *)
Theorem save_then_get (w : World) (x : option Object) (p q : nat) :
  let n := length (tasks w) in
  let cs := spread DEFAULT_SETTINGS (default ∅ x) in
  exists w',
    run [ EvMessage (SAVE_SETTINGS x) None p; EvSetDone n true;
          EvMessage GET_SETTINGS None q; EvGetDone (S n) true ] w = Some w'
    /\ storage w' = Some cs
    /\ currentSettings w' = cs
    /\ sent w' = sent w ++ [Respond p ReplySuccess; Respond q (ReplySettings cs)]
    /\ (forall key v, default ∅ x !! key = Some v -> cs !! key = Some v)
    /\ (forall key, default ∅ x !! key = None ->
                    cs !! key = DEFAULT_SETTINGS !! key).
Proof.
  intros n cs.
  assert (Hcs : spread DEFAULT_SETTINGS cs = cs)
    by apply spread_complete, complete_spread.
  eexists. split.
  { erewrite run_cons by reflexivity.
    erewrite run_cons by (by apply step_SetDone_save).
    erewrite run_cons by reflexivity.
    erewrite run_cons
      by (apply step_GetDone_load; cbn; rewrite length_app; simpl; lia).
    reflexivity. }
  world_simpl.
  fold cs. rewrite Hcs.
  split; [done|]. split; [done|]. split; [by rewrite <- app_assoc|].
  split.
  - intros key v Hv. unfold cs, spread. by apply lookup_union_Some_l.
  - intros key Hv. unfold cs, spread. by apply lookup_union_r.
Qed.

(** ** Notifying the tabs *)

(** The tabs [notifyAllTabs] writes to: those with an id that is not 0. *)
Definition notified (tabs : list (option Z)) : list Z :=
  omap (fun tab => match tab with
                   | Some id => if has_id tab then Some id else None
                   | None => None
                   end) tabs.

Lemma notifyAllTabs_resume_sent tabs : forall w,
  notifyAllTabs_resume tabs w
  = set_sent (sent w ++ map (fun id => Notify id (currentSettings w))
                            (notified tabs)) w.
Proof.
  unfold notifyAllTabs_resume.
  induction tabs as [|tab tabs IH]; intros w.
  - simpl. rewrite app_nil_r. by destruct w.
  - unfold notified. cbn [fold_left omap list_omap]. fold (notified tabs).
    destruct tab as [id|]; [|apply IH].
    destruct (has_id (Some id)); [|apply IH].
    rewrite IH. unfold send. cbn. by rewrite <- app_assoc.
Qed.

Lemma step_TabsDone w l tabs n :
  tasks w = l ++ [AwaitTabs] -> n = length l ->
  step (EvTabsDone n tabs) w
  = Some (notifyAllTabs_resume tabs (set_tasks l w)).
Proof.
  intros Hw ->. unfold step, finish. rewrite Hw.
  by rewrite lookup_spawned, delete_spawned.
Qed.

(** A [SAVE_SETTINGS] whose write succeeds, then the tab query answering:
    the sender gets [success], and every tab of the answer that has a
    non-zero id gets one [SETTINGS_UPDATED] with the saved settings, in the
    order of the answer; tabs without an id get nothing. *)
Theorem save_notifies_tabs (w : World) (x : option Object) (p : nat)
    (tabs : list (option Z)) :
  let n := length (tasks w) in
  let cs := spread DEFAULT_SETTINGS (default ∅ x) in
  exists w',
    run [ EvMessage (SAVE_SETTINGS x) None p; EvSetDone n true;
          EvTabsDone n tabs ] w = Some w'
    /\ sent w' = sent w ++ Respond p ReplySuccess
                         :: map (fun id => Notify id cs) (notified tabs)
    /\ tasks w' = tasks w
    /\ (forall id, Some id ∈ tabs -> id <> 0 -> Notify id cs ∈ sent w')
    /\ (forall o, Notify 0 o ∈ sent w' -> Notify 0 o ∈ sent w).
Proof.
  intros n cs. eexists. split.
  { erewrite run_cons by reflexivity.
    erewrite run_cons by (by apply step_SetDone_save).
    unfold saveSettings_resume, notifyAllTabs, continue, send.
    erewrite run_cons by (by apply (step_TabsDone _ (tasks w))).
    reflexivity. }
  rewrite notifyAllTabs_resume_sent. world_simpl. fold cs.
  rewrite <- app_assoc. split; [done|]. split; [done|]. split.
  - intros id Hid Hne. apply elem_of_app. right. apply elem_of_cons. right.
    apply list_elem_of_fmap. exists id. split; [done|].
    unfold notified. apply list_elem_of_omap. exists (Some id).
    split; [done|]. unfold has_id.
    by destruct (Z.eqb_spec id 0).
  - intros o Ho. apply elem_of_app in Ho as [Ho|Ho]; [done|].
    apply elem_of_cons in Ho as [Ho|Ho]; [discriminate Ho|].
    apply list_elem_of_fmap in Ho as (id & Hid & Hin). injection Hid as <- ->.
    unfold notified in Hin. apply list_elem_of_omap in Hin as (tab & _ & Htab).
    destruct tab as [id|]; [|discriminate]. unfold has_id in Htab.
    destruct (Z.eqb_spec id 0); [discriminate|]. simpl in Htab. congruence.
Qed.

(** ** A read that overlaps a save *)

Lemma step_GetDone_at w l1 l2 k ok i :
  tasks w = l1 ++ AwaitGetLoad k :: l2 -> i = length l1 ->
  step (EvGetDone i ok) w
  = Some (loadSettings_resume ok k (set_tasks (l1 ++ l2) w)).
Proof.
  intros Hw ->. unfold step, finish. rewrite Hw.
  by rewrite list_lookup_middle, delete_middle.
Qed.

Lemma step_SetDone_at w l1 l2 v k ok i :
  tasks w = l1 ++ AwaitSetSave v k :: l2 -> i = length l1 ->
  step (EvSetDone i ok) w
  = Some (saveSettings_resume ok v k (set_tasks (l1 ++ l2) w)).
Proof.
  intros Hw ->. unfold step, finish. rewrite Hw.
  by rewrite list_lookup_middle, delete_middle.
Qed.

(** A [GET_SETTINGS] arrives, and before its read of the storage completes a
    [SAVE_SETTINGS] arrives; the read completes with the value stored before
    the save, then the write succeeds and the tab query answers.  The new
    settings are stored, but the worker's settings in memory are the old
    ones again, and it is the old ones the tabs are notified of. *)
Theorem get_overlapping_save (w : World) (old : Object) (x : option Object)
    (p q : nat) (tabs : list (option Z)) :
  storage w = Some old ->
  let n := length (tasks w) in
  let saved := spread DEFAULT_SETTINGS (default ∅ x) in
  let stale := spread DEFAULT_SETTINGS old in
  exists w',
    run [ EvMessage GET_SETTINGS None q; EvMessage (SAVE_SETTINGS x) None p;
          EvGetDone n true; EvSetDone n true; EvTabsDone n tabs ] w = Some w'
    /\ storage w' = Some saved
    /\ currentSettings w' = stale
    /\ sent w' = sent w ++ Respond q (ReplySettings stale)
                         :: Respond p ReplySuccess
                         :: map (fun id => Notify id stale) (notified tabs).
Proof.
  intros Hst n saved stale. eexists. split.
  { erewrite run_cons by reflexivity.
    erewrite run_cons by reflexivity.
    erewrite run_cons
      by (eapply (step_GetDone_at _ (tasks w)); [|reflexivity];
          world_simpl; by rewrite <- app_assoc).
    erewrite run_cons
      by (eapply (step_SetDone_at _ (tasks w) []); [|reflexivity];
          world_simpl; rewrite ?Hst; world_simpl; reflexivity).
    erewrite run_cons
      by (eapply (step_TabsDone _ (tasks w)); [|reflexivity];
          world_simpl; rewrite ?Hst; world_simpl; by rewrite app_nil_r).
    reflexivity. }
  rewrite notifyAllTabs_resume_sent. unfold loadSettings_resume. world_simpl.
  rewrite Hst. world_simpl.
  split; [done|]. split; [done|].
  by rewrite <- !app_assoc.
Qed.

Lemma get_overlapping_save_witness :
  exists w',
    run [ EvMessage GET_SETTINGS None 1;
          EvMessage (SAVE_SETTINGS (Some {[ "enabled" := VBool false ]})) None 2;
          EvGetDone 0 true; EvSetDone 0 true; EvTabsDone 0 [Some 7] ]
        (mkWorld DEFAULT_SETTINGS ∅ (Some DEFAULT_SETTINGS) [] [])
    = Some w'
    /\ (storage w' ≫= fun o => o !! "enabled") = Some (VBool false)
    /\ currentSettings w' !! "enabled" = Some (VBool true).
Proof.
  destruct (get_overlapping_save
              (mkWorld DEFAULT_SETTINGS ∅ (Some DEFAULT_SETTINGS) [] [])
              DEFAULT_SETTINGS (Some {[ "enabled" := VBool false ]}) 2 1
              [Some 7] eq_refl) as (w' & Hrun & Hst & Hcs & _).
  exists w'. split; [exact Hrun|]. rewrite Hst, Hcs. split; reflexivity.
Defined.

(** ** When the storage call fails *)

(** The write of [saveSettings] is rejected: the new settings are kept in
    memory all the same and the sender is told [success], but nothing is
    stored and no tab is notified.  The read of [loadSettings] is rejected,
    or nothing is stored: [GET_SETTINGS] is answered with the settings in
    memory. *)
Theorem storage_failures (w : World) (x : option Object) (tab : option Z)
    (p : nat) :
  let n := length (tasks w) in
  let cs := spread DEFAULT_SETTINGS (default ∅ x) in
  (exists w',
     run [EvMessage (SAVE_SETTINGS x) None p; EvSetDone n false] w = Some w'
     /\ currentSettings w' = cs
     /\ storage w' = storage w
     /\ tasks w' = tasks w
     /\ sent w' = sent w ++ [Respond p ReplySuccess])
  /\ (forall ok, ok = false \/ storage w = None ->
       exists w',
         run [EvMessage GET_SETTINGS tab p; EvGetDone n ok] w = Some w'
         /\ currentSettings w' = currentSettings w
         /\ sent w' = sent w ++ [Respond p (ReplySettings (currentSettings w))]).
Proof.
  intros n cs. split.
  - eexists. split.
    { erewrite run_cons by reflexivity.
      erewrite run_cons by (by apply step_SetDone_save).
      reflexivity. }
    by repeat split.
  - intros ok Hok. eexists. split.
    { erewrite run_cons by reflexivity.
      erewrite run_cons
        by (apply step_GetDone_load;
            destruct tab as [id|]; [destruct (has_id (Some id))|]; done).
      reflexivity. }
    unfold loadSettings_resume.
    assert (E : (if ok
                 then match storage w with
                      | Some stored =>
                          set_currentSettings (spread DEFAULT_SETTINGS stored)
                      | None => fun w => w
                      end
                 else fun w => w) = fun w => w).
    { destruct Hok as [-> | Hst]; [done|]. rewrite Hst. by destruct ok. }
    destruct tab as [id|]; [destruct (has_id (Some id))|];
      cbn; (destruct Hok as [-> | Hst]; [|rewrite Hst; destruct ok]); done.
Qed.

(** ** The master toggle *)

(** Two [TOGGLE_ENABLED] messages, each saved successfully: the first is
    answered with the negation of [enabled], the second with its truth value;
    afterwards every other setting is as it was and [enabled] is the boolean
    of the truth value it had, in memory and in storage. *)
Theorem toggle_twice (w : World) (p q : nat) :
  complete (currentSettings w) ->
  let n := length (tasks w) in
  let b := to_boolean (currentSettings w !! "enabled") in
  exists w',
    run [ EvMessage TOGGLE_ENABLED None p; EvSetDone n true;
          EvMessage TOGGLE_ENABLED None q; EvSetDone (S n) true ] w = Some w'
    /\ currentSettings w' = <["enabled" := VBool b]> (currentSettings w)
    /\ storage w' = Some (currentSettings w')
    /\ (currentSettings w !! "enabled" = Some (VBool b) ->
        currentSettings w' = currentSettings w)
    /\ sent w' = sent w ++ [ Respond p (ReplyEnabled (Some (VBool (negb b))));
                             Respond q (ReplyEnabled (Some (VBool b))) ].
Proof.
  intros Hc n b.
  set (t1 := <["enabled" := VBool (negb b)]> (currentSettings w)).
  set (t2 := <["enabled" := VBool b]> (currentSettings w)).
  assert (H1 : spread DEFAULT_SETTINGS t1 = t1)
    by (by apply spread_complete, complete_insert).
  assert (H2 : spread DEFAULT_SETTINGS t2 = t2)
    by (by apply spread_complete, complete_insert).
  assert (H12 : <["enabled" := VBool (negb (to_boolean (t1 !! "enabled")))]> t1
                = t2).
  { unfold t1, t2. rewrite lookup_insert_eq. cbn [to_boolean].
    by rewrite negb_involutive, insert_insert_eq. }
  eexists. split.
  { erewrite run_cons by reflexivity.
    erewrite run_cons by (by apply step_SetDone_save).
    erewrite run_cons by reflexivity.
    erewrite run_cons
      by (apply step_SetDone_save; world_simpl; rewrite length_app; simpl; lia).
    reflexivity. }
  world_simpl. fold b. fold t1. rewrite H1. rewrite H12, H2.
  split; [done|]. split; [done|]. split.
  - intros Hb. unfold t2. by apply insert_id.
  - rewrite <- app_assoc. simpl. unfold t1, t2. by rewrite !lookup_insert_eq.
Qed.

Lemma toggle_twice_witness :
  exists w',
    run [ EvMessage TOGGLE_ENABLED None 1; EvSetDone 1 true;
          EvMessage TOGGLE_ENABLED None 2; EvSetDone 2 true ]
        (start None) = Some w'
    /\ currentSettings w' = DEFAULT_SETTINGS.
Proof.
  destruct (toggle_twice (start None) 1 2) as (w' & Hrun & _ & _ & Hsame & _).
  - intros key Hkey. exact Hkey.
  - exists w'. split; [exact Hrun|]. by apply Hsame.
Defined.

(** ** Migration of v1 settings *)

Lemma lookup_delete_all keys : forall (o : Object) key,
  fold_left (fun o key => delete key o) keys o !! key
  = if bool_decide (key ∈ keys) then None else o !! key.
Proof.
  induction keys as [|k keys IH]; intros o key; simpl; [done|].
  rewrite IH. destruct (decide (key = k)) as [->|Hne].
  - rewrite lookup_delete_eq.
    rewrite (bool_decide_eq_true_2 (k ∈ k :: keys)) by left.
    by case_bool_decide.
  - rewrite lookup_delete_ne by done.
    case_bool_decide as Hin.
    + by rewrite bool_decide_eq_true_2 by (by right).
    + rewrite bool_decide_eq_false_2; [done|].
      intros H. apply elem_of_cons in H as [?|?]; done.
Qed.

(** The update handler, every call succeeding, on a stored v1 object: what
    is stored and used afterwards has none of the nine v1 keys and all the
    current ones; [disableAnimations] is the stored [disableAnimations] if
    there was one, else the stored [blockAnimations], else the default; every
    other stored key keeps its value. *)
Theorem migration_on_update (w : World) (old : Object) :
  storage w = Some old ->
  let n := length (tasks w) in
  exists w',
    run [EvInstalled true; EvGetDone n true; EvSetDone n true; EvGetDone n true]
        w = Some w'
    /\ storage w' = Some (migrate old)
    /\ currentSettings w' = migrate old
    /\ tasks w' = tasks w
    /\ (forall key, key ∈ oldKeys -> migrate old !! key = None)
    /\ complete (migrate old)
    /\ migrate old !! "disableAnimations"
       = match old !! "disableAnimations", old !! "blockAnimations" with
         | Some v, _ => Some v
         | None, Some v => Some v
         | None, None => Some (VBool true)
         end
    /\ (forall key v, key ∉ oldKeys -> key <> "disableAnimations" ->
                      old !! key = Some v -> migrate old !! key = Some v).
Proof.
  intros Hst n.
  assert (Hcomplete : complete (migrate old)) by apply complete_spread.
  eexists. split.
  { erewrite run_cons by reflexivity.
    erewrite run_cons by (by apply step_GetDone_migrate).
    unfold onInstalled_resume_get. rewrite Hst.
    erewrite run_cons by (by apply step_SetDone_migrate).
    erewrite run_cons by (by apply step_GetDone_load).
    reflexivity. }
  world_simpl. rewrite (spread_complete _ Hcomplete).
  split; [done|]. split; [done|]. split; [done|]. split; [|split; [done|split]].
  - intros key Hkey. unfold migrate, spread.
    apply lookup_union_None. rewrite lookup_delete_all.
    rewrite bool_decide_eq_true_2 by done. split; [done|].
    unfold oldKeys in Hkey.
    repeat (apply elem_of_cons in Hkey as [->|Hkey]; [reflexivity|]).
    by apply elem_of_nil in Hkey.
  - unfold migrate, spread.
    assert (Hd : fold_left (fun o key => delete key o) oldKeys
                   (rename_blockAnimations old) !! "disableAnimations"
                 = rename_blockAnimations old !! "disableAnimations").
    { rewrite lookup_delete_all. by rewrite bool_decide_eq_false_2 by
        (unfold oldKeys; intros H;
         repeat (apply elem_of_cons in H as [H|H]; [discriminate H|]);
         by apply elem_of_nil in H). }
    unfold rename_blockAnimations in *.
    destruct (old !! "disableAnimations") as [v|] eqn:Hda.
    + apply lookup_union_Some_l. rewrite Hd.
      by destruct (old !! "blockAnimations").
    + destruct (old !! "blockAnimations") as [v|] eqn:Hba.
      * apply lookup_union_Some_l. by rewrite Hd, lookup_insert_eq.
      * rewrite lookup_union_r by (by rewrite Hd). reflexivity.
  - intros key v Hkey Hne Hv. unfold migrate, spread.
    apply lookup_union_Some_l. rewrite lookup_delete_all.
    rewrite bool_decide_eq_false_2 by done.
    unfold rename_blockAnimations.
    destruct (old !! "blockAnimations"); [|done].
    destruct (old !! "disableAnimations"); [done|].
    by rewrite lookup_insert_ne.
Qed.

Lemma migration_on_update_witness :
  exists w',
    run [EvInstalled true; EvGetDone 1 true; EvSetDone 1 true; EvGetDone 1 true]
        (start (Some v1_store)) = Some w'
    /\ currentSettings w' !! "blockAds" = None
    /\ currentSettings w' !! "lazyLoadImages" = Some (VBool false)
    /\ currentSettings w' !! "disableAnimations" = Some (VBool true).
Proof.
  destruct (migration_on_update (start (Some v1_store)) v1_store eq_refl)
    as (w' & Hrun & _ & Hcs & _ & Hold & _ & Hda & Hkeep).
  exists w'. split; [exact Hrun|]. rewrite Hcs. split; [|split].
  - apply Hold. unfold oldKeys. right. by left.
  - apply Hkeep; [|done|reflexivity].
    unfold oldKeys. intros H.
    repeat (apply elem_of_cons in H as [H|H]; [discriminate H|]).
    by apply elem_of_nil in H.
  - rewrite Hda. reflexivity.
Defined.

End BackgroundProps.

(** * The page-context script: passive listeners *)

Module Listeners.
Import JS.

(** The third argument of [addEventListener] by the cases the patch tells
    apart: absent, a boolean, [null], an object, or another primitive. *)
Inductive Options :=
| OptUndefined
| OptBoolean (b : bool)
| OptNull
| OptObject (o : Object)
| OptNumber (n : Z)
| OptString (s : string).

Section Targets.
Context {Listener : Type}.

(** A registration as the host records it. *)
Record Registration := mkRegistration {
  reg_type : string;
  reg_listener : Listener;
  reg_options : Options
}.

(** [EventTarget.prototype.addEventListener] as a function of the target's
    registrations. *)
Definition AddEventListener : Type :=
  string -> Listener -> Options -> list Registration -> list Registration.

Definition nativeAddEventListener : AddEventListener :=
  fun type listener options registrations =>
    registrations ++ [mkRegistration type listener options].

Definition passiveEvents : list string := ["touchstart"; "touchmove"; "scroll"].

(** [passiveEvents.has(type)] *)
Definition is_passive_event (type : string) : bool :=
  bool_decide (type ∈ passiveEvents).

(** The options object built for a scroll or touch event. *)
Definition passive_options (options : Options) : Object :=
  match options with
  | OptBoolean b =>
      <["passive" := VBool true]> (<["capture" := VBool b]> ∅)
  | OptUndefined =>
      <["passive" := VBool true]> (<["capture" := VBool false]> ∅)
  | OptObject o => <["passive" := VBool true]> o
  | OptNull | OptNumber _ | OptString _ => <["passive" := VBool true]> ∅
  end.

(** The [if (injectedSettings.passiveListeners)] block. *)
Definition patchListeners (st : Injected.InjectedSettings)
           (originalAddEventListener : AddEventListener) : AddEventListener :=
  if Injected.passiveListeners st then
    fun type listener options =>
      if is_passive_event type then
        originalAddEventListener type listener
          (OptObject (passive_options options))
      else originalAddEventListener type listener options
  else originalAddEventListener.
End Targets.

End Listeners.

(** * The page-context script: the deferral observer *)

Module Deferral.
Import Injected.



End Deferral.

Module ListenersProps.
Import JS Listeners.

(** With passive listeners enabled, a registration for [touchstart],
    [touchmove] or [scroll] reaches the original function with an options
    object whose [passive] is [true]: a boolean (or absent) third argument
    becomes its [capture], the other keys of an options object are kept, and
    anything else is dropped.  A registration for any other event, [wheel]
    and [mousewheel] among them, reaches it unchanged. *)
Theorem patched_listeners_force_passive {Listener : Type}
    (st : Injected.InjectedSettings)
    (original : @AddEventListener Listener)
    (type : string) (listener : Listener) (options : Options) :
  Injected.passiveListeners st = true ->
  (type ∉ passiveEvents ->
   patchListeners st original type listener options
   = original type listener options)
  /\ (type ∈ passiveEvents ->
      exists opts,
        patchListeners st original type listener options
        = original type listener (OptObject opts)
        /\ opts !! "passive" = Some (VBool true)
        /\ (forall b, options = OptBoolean b ->
                      opts !! "capture" = Some (VBool b))
        /\ (options = OptUndefined -> opts !! "capture" = Some (VBool false))
        /\ (forall o key, options = OptObject o -> key <> "passive" ->
                          opts !! key = o !! key)
        /\ (options = OptNull \/ (exists n, options = OptNumber n)
            \/ (exists s, options = OptString s) ->
            forall key, key <> "passive" -> opts !! key = None))
  /\ ("wheel" ∉ passiveEvents) /\ ("mousewheel" ∉ passiveEvents).
Proof.
  intros Hon. unfold patchListeners, is_passive_event. rewrite Hon.
  split; [|split; [|split]].
  - intros Hno. by rewrite bool_decide_eq_false_2.
  - intros Hin. rewrite bool_decide_eq_true_2 by done.
    exists (passive_options options). split; [done|].
    split; [by destruct options; apply lookup_insert_eq|].
    split; [by intros b ->|]. split; [by intros ->|]. split.
    + intros o key -> Hkey. simpl. by rewrite lookup_insert_ne.
    + intros [-> | [[n ->] | [s ->]]] key Hkey; simpl;
        by rewrite lookup_insert_ne.
  - unfold passiveEvents. intros H.
    repeat (apply elem_of_cons in H as [H|H]; [discriminate H|]).
    by apply elem_of_nil in H.
  - unfold passiveEvents. intros H.
    repeat (apply elem_of_cons in H as [H|H]; [discriminate H|]).
    by apply elem_of_nil in H.
Qed.

Lemma patched_listeners_force_passive_witness :
  exists opts,
    patchListeners (Injected.mkInjected false true false)
                   (@nativeAddEventListener nat) "scroll" 7%nat
                   (OptBoolean true) []
    = [mkRegistration "scroll" 7%nat (OptObject opts)]
    /\ opts !! "passive" = Some (VBool true)
    /\ opts !! "capture" = Some (VBool true).
Proof.
  destruct (patched_listeners_force_passive
              (Injected.mkInjected false true false)
              (@nativeAddEventListener nat) "scroll" 7%nat (OptBoolean true)
              eq_refl) as (_ & H & _).
  destruct H as (opts & Heq & Hp & Hc & _).
  - unfold passiveEvents. right. right. left.
  - exists opts. rewrite Heq. split; [reflexivity|]. split; [exact Hp|].
    by apply Hc.
Defined.

End ListenersProps.

(** * Script deferral: the replacement *)

Module DeferProps.
Import Injected.













(** ** The observer *)













End DeferProps.

(** * Invariants over the life of the content script

    What every handler keeps, shown once for a property [I] of the state
    given how [I] fares under the single updates the handlers are built
    from. *)

(** How the metrics may change: the counters only grow, [startTime] and
    [scriptsDeferred] stay, a [loadTime] that is set stays, and
    [animationsDisabled] stays or becomes 1. *)
Definition grows (m m' : Metrics) : Prop :=
  startTime m' = startTime m
  /\ (forall t, loadTime m = Some t -> loadTime m' = Some t)
  /\ (animationsDisabled m' = animationsDisabled m \/ animationsDisabled m' = 1)
  /\ imagesOptimized m <= imagesOptimized m'
  /\ iframesLazyLoaded m <= iframesLazyLoaded m'
  /\ mediaOptimized m <= mediaOptimized m'
  /\ cssNonBlocked m <= cssNonBlocked m'
  /\ scriptsDeferred m' = scriptsDeferred m
  /\ linksPrefetched m <= linksPrefetched m'
  /\ dnsPrefetched m <= dnsPrefetched m'.

Lemma grows_refl m : grows m m.
Proof. unfold grows. repeat split; try lia; auto. Qed.

Lemma grows_trans m1 m2 m3 : grows m1 m2 -> grows m2 m3 -> grows m1 m3.
Proof.
  unfold grows.
  intros (H1 & H2 & H3 & H4 & H5 & H6 & H7 & H8 & H9 & H10)
         (K1 & K2 & K3 & K4 & K5 & K6 & K7 & K8 & K9 & K10).
  split; [congruence|]. split; [intros t Ht; apply K2, H2, Ht|]. split.
  { destruct K3 as [K3|K3]; [|by right]. rewrite K3. exact H3. }
  repeat split; try lia; congruence.
Qed.

Ltac grows_tac :=
  unfold grows, count_sel; state_simpl;
  repeat split; try lia; try reflexivity; try (intros; assumption);
  try (left; reflexivity); try (right; reflexivity).

(** The rest of [cleanupBatch] once the flag is cleared. *)
Definition cleanupBatch_rest : M unit :=
  let! valid := isContextValid in
  if negb valid then ret tt else
  setupLazyLoading >>
  setupLazyLoadIframes >>
  optimizeImageLoading >>
  disableAutoplay >>
  reduceMediaPreload >>
  stabilizeImageLayout.

Lemma cleanupBatch_eq s :
  cleanupBatch s = cleanupBatch_rest (set_cleanupScheduled false s).
Proof. reflexivity. Qed.

Lemma onLoad_eq s :
  onLoad s
  = (stabilizeImageLayout >> prefetchVisibleLinks)
      (match loadTime (performanceMetrics s) with
       | None =>
           set_performanceMetrics
             (set_loadTime (Some (now (env s) - startTime (performanceMetrics s)))
                           (performanceMetrics s)) s
       | Some _ => s
       end).
Proof.
  unfold onLoad. js_unfold. by destruct (loadTime (performanceMetrics s)).
Qed.

Section lifecycle.
Variable I : State -> Prop.

Hypothesis I_document : forall s d, I s -> I (set_document d s).
Hypothesis I_styleSheets : forall s v, I s -> I (set_styleSheets v s).
Hypothesis I_next_eid : forall s n, I s -> I (set_next_eid n s).
Hypothesis I_node_listeners : forall s v, I s -> I (set_node_listeners v s).
Hypothesis I_settings : forall s v, I s -> I (set_settings v s).
Hypothesis I_optimizationsApplied :
  forall s v, I s -> I (set_optimizationsApplied v s).
Hypothesis I_observer : forall s v, I s -> I (set_observer v s).
Hypothesis I_observing : forall s v, I s -> I (set_observing v s).
Hypothesis I_dcl_listener : forall s v, I s -> I (set_dcl_listener v s).
Hypothesis I_load_listener : forall s v, I s -> I (set_load_listener v s).
Hypothesis I_env : forall s ev, I s -> I (set_env ev s).
Hypothesis I_invalid : forall s, I s -> I (set_contextValid false s).
Hypothesis I_metrics : forall s m,
  grows (performanceMetrics s) m -> I s -> I (set_performanceMetrics m s).
Hypothesis I_io_new : forall s l,
  I s -> I (set_io_observers (io_observers s ++ [mkIO [] l]) s).
Hypothesis I_scheduleCleanup : preserves I scheduleCleanup.
Hypothesis I_intersection :
  forall i entry, preserves I (onIntersectionEntry i entry).
Hypothesis I_cleanup_start : forall s i task,
  idle_queue s !! i = Some task -> callback task = CleanupBatch -> I s ->
  I (set_cleanupScheduled false (set_idle_queue (delete i (idle_queue s)) s)).
Hypothesis I_prefetch_idle : forall s i task io href,
  idle_queue s !! i = Some task -> callback task = PrefetchInject io href ->
  I s ->
  I (exec (prefetchInject io href)
          (set_idle_queue (delete i (idle_queue s)) s)).

Ltac life_leaf :=
  cbv beta;
  repeat first
    [ assumption
    | apply I_document | apply I_styleSheets | apply I_next_eid
    | apply I_node_listeners | apply I_settings
    | apply I_optimizationsApplied | apply I_observer | apply I_observing
    | apply I_dcl_listener | apply I_load_listener | apply I_invalid
    | apply I_io_new
    | apply I_metrics; [grows_tac|] ].

Ltac life := preserve; try life_leaf; auto with preserves.

Lemma life_createElement t : preserves I (createElement t).
Proof. unfold createElement. life. Qed.
Lemma life_head_append n : preserves I (head_append n).
Proof. unfold head_append. life. Qed.
Lemma life_head_or_root_append n : preserves I (head_or_root_append n).
Proof. unfold head_or_root_append. life. Qed.
Lemma life_addLoadListener k l : preserves I (addLoadListener k l).
Proof. unfold addLoadListener. life. Qed.
Lemma life_isContextValid : preserves I isContextValid.
Proof. unfold isContextValid. life. Qed.
Hint Resolve life_createElement life_head_append life_head_or_root_append
  life_addLoadListener life_isContextValid I_scheduleCleanup : preserves.

Lemma life_disableAnimations : preserves I disableAnimations.
Proof. unfold disableAnimations. life. Qed.
Lemma life_setupLazyLoading : preserves I setupLazyLoading.
Proof. unfold setupLazyLoading. life. Qed.
Lemma life_setupLazyLoadIframes : preserves I setupLazyLoadIframes.
Proof. unfold setupLazyLoadIframes. life. Qed.
Lemma life_disableAutoplay : preserves I disableAutoplay.
Proof. unfold disableAutoplay. life. Qed.
Lemma life_reduceMediaPreload : preserves I reduceMediaPreload.
Proof. unfold reduceMediaPreload. life. Qed.
Lemma life_optimizeImageLoading : preserves I optimizeImageLoading.
Proof. unfold optimizeImageLoading. life. Qed.

Lemma life_dns_loop origins :
  forall count, preserves I (dns_loop origins count).
Proof.
  induction origins as [|o os IH]; intros count; cbn [dns_loop].
  - apply preserves_ret.
  - life.
Qed.
Hint Resolve life_dns_loop : preserves.

Lemma life_setupDNSPrefetch : preserves I setupDNSPrefetch.
Proof. unfold setupDNSPrefetch. life. Qed.
Lemma life_preloadLCPCandidate : preserves I preloadLCPCandidate.
Proof. unfold preloadLCPCandidate. life. Qed.
Lemma life_injectFontDisplaySwap : preserves I injectFontDisplaySwap.
Proof. unfold injectFontDisplaySwap. life. Qed.
Lemma life_injectContentVisibility : preserves I injectContentVisibility.
Proof. unfold injectContentVisibility. life. Qed.
Lemma life_stabilizeImageLayout : preserves I stabilizeImageLayout.
Proof. unfold stabilizeImageLayout. life. Qed.
Lemma life_prefetchVisibleLinks : preserves I prefetchVisibleLinks.
Proof. unfold prefetchVisibleLinks. life. Qed.
Lemma life_handleNewStylesheet k : preserves I (handleNewStylesheet k).
Proof. unfold handleNewStylesheet. life. Qed.
Hint Resolve life_disableAnimations life_setupLazyLoading
  life_setupLazyLoadIframes life_disableAutoplay life_reduceMediaPreload
  life_optimizeImageLoading life_setupDNSPrefetch life_preloadLCPCandidate
  life_injectFontDisplaySwap life_injectContentVisibility
  life_stabilizeImageLayout life_prefetchVisibleLinks
  life_handleNewStylesheet : preserves.

Lemma life_cleanupBatch_rest : preserves I cleanupBatch_rest.
Proof. unfold cleanupBatch_rest. life. Qed.

Lemma life_onAddedNodes l : forall b, preserves I (onAddedNodes l b).
Proof.
  induction l as [|nd l IH]; intros b; cbn [onAddedNodes].
  - apply preserves_ret.
  - apply preserves_bind; [|intros a; apply IH].
    unfold onAddedNode. life.
Qed.
Hint Resolve life_onAddedNodes : preserves.

Lemma life_onMutations ms : preserves I (onMutations ms).
Proof. unfold onMutations. life. Qed.
Lemma life_setupMutationObserver : preserves I setupMutationObserver.
Proof. unfold setupMutationObserver. life. Qed.
Lemma life_injectPageScript : preserves I injectPageScript.
Proof. unfold injectPageScript. life. Qed.
Lemma life_onDOMContentLoaded : preserves I onDOMContentLoaded.
Proof. unfold onDOMContentLoaded. life. Qed.

Lemma life_onLoad : preserves I onLoad.
Proof.
  intros s Hs. rewrite onLoad_eq.
  assert (Hrest : preserves I (stabilizeImageLayout >> prefetchVisibleLinks))
    by life.
  apply Hrest.
  destruct (loadTime (performanceMetrics s)) eqn:E; [exact Hs|].
  apply I_metrics; [|exact Hs].
  unfold grows. state_simpl. rewrite E.
  repeat split; try lia; try done; try (by left).
Qed.
Hint Resolve life_onMutations life_setupMutationObserver
  life_injectPageScript life_onDOMContentLoaded life_onLoad : preserves.

Lemma life_applyOptimizations : preserves I applyOptimizations.
Proof. unfold applyOptimizations. life. Qed.
Lemma life_removeById i : preserves I (removeById i).
Proof. unfold removeById. life. Qed.
Hint Resolve life_applyOptimizations life_removeById : preserves.

Lemma life_removeInjectedStyles : preserves I removeInjectedStyles.
Proof. unfold removeInjectedStyles. life. Qed.
Hint Resolve life_removeInjectedStyles : preserves.

Lemma life_init b : preserves I (init b).
Proof. unfold init. life. Qed.
Lemma life_onSettingsResponse r : preserves I (onSettingsResponse r).
Proof. unfold onSettingsResponse. life. Qed.
Lemma life_onMessage m : preserves I (onMessage m).
Proof. unfold onMessage. life. Qed.
Lemma life_onNodeLoad k : preserves I (onNodeLoad k).
Proof. unfold onNodeLoad, runNodeListener. life. Qed.
Lemma life_onIntersection i es : preserves I (onIntersection i es).
Proof.
  unfold onIntersection. apply preserves_forM. intros entry.
  apply I_intersection.
Qed.

(** Every event the host delivers keeps [I]. *)
Lemma life_step e s s' : I s -> step e s = Some s' -> I s'.
Proof.
  intros Hs Hstep.
  pose proof life_init as Hinit.
  pose proof life_onSettingsResponse as Hresp.
  pose proof life_onMessage as Hmsg.
  pose proof life_onMutations as Hmut.
  pose proof life_cleanupBatch_rest as Hbatch.
  pose proof life_onDOMContentLoaded as Hdcl.
  pose proof life_onLoad as Hload.
  pose proof life_onNodeLoad as Hnode.
  pose proof life_onIntersection as Hio.
  destruct e; cbn [step] in Hstep.
  - injection Hstep as <-. by apply preserves_exec.
  - injection Hstep as <-. by apply preserves_exec.
  - injection Hstep as <-. by apply preserves_exec.
  - destruct (observing s); [|discriminate].
    injection Hstep as <-. by apply preserves_exec.
  - destruct (idle_queue s !! i) as [task|] eqn:Hi; [|discriminate].
    injection Hstep as <-.
    destruct (callback task) as [|io href] eqn:Hcb; cbn [runIdleCallback].
    + unfold exec. rewrite cleanupBatch_eq.
      apply (preserves_exec I cleanupBatch_rest _ Hbatch).
      by eapply I_cleanup_start.
    + by eapply I_prefetch_idle.
  - destruct (readyState (env s)); try discriminate.
    injection Hstep as <-.
    assert (Hs' : I (with_env (set_readyState Interactive) s))
      by apply I_env, Hs.
    destruct (dcl_listener s); [by apply preserves_exec|exact Hs'].
  - destruct (readyState (env s)); try discriminate.
    injection Hstep as <-.
    assert (Hs' : I (with_env (set_readyState Complete) s))
      by apply I_env, Hs.
    destruct (load_listener s); [by apply preserves_exec|exact Hs'].
  - injection Hstep as <-. by apply preserves_exec.
  - destruct (io_observers s !! i); [|discriminate].
    destruct (forallb _ _); [|discriminate].
    injection Hstep as <-. by apply preserves_exec.
  - injection Hstep as <-. by apply I_next_eid, I_styleSheets, I_document.
  - injection Hstep as <-. apply I_env, Hs.
  - injection Hstep as <-. apply I_env, Hs.
  - destruct (_ && _); [|discriminate]. injection Hstep as <-.
    apply I_env, Hs.
Qed.

Lemma life_run es : forall s s', I s -> run es s = Some s' -> I s'.
Proof.
  induction es as [|e es IH]; intros s s' Hs Hrun; cbn [run] in Hrun.
  - by injection Hrun as <-.
  - destruct (step e s) as [s1|] eqn:Hstep; [|discriminate].
    eapply IH; [|exact Hrun]. by eapply life_step.
Qed.
End lifecycle.

(** * What the content script keeps over its whole life *)

Lemma run_reaches es s d :
  is_some (run es s) = true -> run es s = Some (default d (run es s)).
Proof. by destruct (run es s). Qed.

(** ** Metrics and the validity flag *)

(** [advances s0 s]: the metrics of [s] have grown from those of [s0], and a
    context found invalid in [s0] is invalid in [s]. *)
Definition advances (s0 s : State) : Prop :=
  grows (performanceMetrics s0) (performanceMetrics s)
  /\ (contextValid s0 = false -> contextValid s = false).

Lemma advances_refl s : advances s s.
Proof. split; [apply grows_refl|done]. Qed.

Lemma advances_metrics s0 s m :
  grows (performanceMetrics s) m -> advances s0 s ->
  advances s0 (set_performanceMetrics m s).
Proof.
  intros Hm [Hg Hc]. split; [|exact Hc].
  state_simpl. by eapply grows_trans.
Qed.

Lemma advances_invalid s0 s :
  advances s0 s -> advances s0 (set_contextValid false s).
Proof. intros [Hg Hc]. split; [exact Hg|done]. Qed.

(** What [preserve] leaves for an invariant that reads a few fields: the
    update does not touch them. *)
Ltac untouched :=
  cbv beta;
  match goal with
  | H : ?I ?s |- ?I _ => exact H
  | H : ?I ?x ?s |- ?I ?x _ => exact H
  end.

Section advances_invariant.
Variable s0 : State.

Lemma advances_isContextValid : preserves (advances s0) isContextValid.
Proof.
  unfold isContextValid. preserve; try untouched.
  by apply advances_invalid.
Qed.

Lemma advances_scheduleCleanup : preserves (advances s0) scheduleCleanup.
Proof.
  pose proof advances_isContextValid.
  unfold scheduleCleanup, requestIdleCallback. preserve; untouched.
Qed.

Lemma advances_onIntersectionEntry i entry :
  preserves (advances s0) (onIntersectionEntry i entry).
Proof.
  unfold onIntersectionEntry, requestIdleCallback, alter_io.
  preserve; untouched.
Qed.

Lemma advances_prefetchInject i href :
  preserves (advances s0) (prefetchInject i href).
Proof.
  unfold prefetchInject, createElement, head_append, alter_io.
  preserve; try untouched.
  cbv beta. apply advances_metrics; [grows_tac|assumption].
Qed.

Lemma advances_run es s s' :
  advances s0 s -> run es s = Some s' -> advances s0 s'.
Proof.
  apply (life_run (advances s0)); try (intros; assumption).
  - intros s1 Hs1. by apply advances_invalid.
  - intros s1 m Hm Hs1. by apply advances_metrics.
  - apply advances_scheduleCleanup.
  - apply advances_onIntersectionEntry.
  - intros s1 i task io href _ _ Hs1.
    apply preserves_exec; [apply advances_prefetchInject|exact Hs1].
Qed.
End advances_invariant.

(** Whatever events are delivered, the counters of the metrics never
    decrease, [startTime] and [scriptsDeferred] never change, and a load
    time that has been recorded is the one reported ever after, whatever the
    clock says. *)
Theorem metrics_only_grow (es : list Event) (s s' : State) :
  run es s = Some s' ->
  let m := performanceMetrics s in
  let m' := performanceMetrics s' in
  startTime m' = startTime m
  /\ scriptsDeferred m' = scriptsDeferred m
  /\ imagesOptimized m <= imagesOptimized m'
  /\ iframesLazyLoaded m <= iframesLazyLoaded m'
  /\ mediaOptimized m <= mediaOptimized m'
  /\ cssNonBlocked m <= cssNonBlocked m'
  /\ linksPrefetched m <= linksPrefetched m'
  /\ dnsPrefetched m <= dnsPrefetched m'
  /\ (animationsDisabled m' = animationsDisabled m \/ animationsDisabled m' = 1)
  /\ (forall t, loadTime m = Some t ->
                loadTime m' = Some t
                /\ loadTime (metricsResponse s') = Some t).
Proof.
  intros Hrun m m'.
  destruct (advances_run s es s s' (advances_refl s) Hrun)
    as [(H1 & H2 & H3 & H4 & H5 & H6 & H7 & H8 & H9 & H10) _].
  repeat split; try assumption.
  - by apply H2.
  - unfold metricsResponse. state_simpl. by rewrite (H2 t).
Qed.

Lemma metrics_only_grow_witness :
  default 0 (loadTime (performanceMetrics Samples.toggled)) = 0
  /\ imagesOptimized (performanceMetrics Samples.taller)
     <= imagesOptimized (performanceMetrics Samples.toggled).
Proof.
  pose proof (metrics_only_grow Samples.off_on Samples.taller Samples.toggled)
    as H.
  destruct H as (_ & _ & Hi & _).
  - unfold Samples.toggled. apply run_reaches. vm_compute. reflexivity.
  - split; [vm_compute; reflexivity|exact Hi].
Defined.

(** When the context is invalid the guarded handlers do nothing. *)
Lemma isContextValid_invalid s :
  contextValid s = false -> isContextValid s = Ok false s.
Proof. intros H. unfold isContextValid. js_unfold. by rewrite H. Qed.

(** Once the extension context has been found invalid it is never valid
    again, whatever events follow; from then on a message, a batch of
    mutations, a request to schedule the cleanup, the injection of the page
    script and [init] return at once and leave the state as it is, and the
    idle cleanup only clears its flag. *)
Theorem invalid_context_is_final (es : list Event) (s s' : State) :
  contextValid s = false ->
  run es s = Some s' ->
  contextValid s' = false
  /\ (forall m, onMessage m s' = Ok tt s')
  /\ (forall ms, onMutations ms s' = Ok tt s')
  /\ scheduleCleanup s' = Ok tt s'
  /\ injectPageScript s' = Ok tt s'
  /\ (forall b, init b s' = Ok tt s')
  /\ cleanupBatch s' = Ok tt (set_cleanupScheduled false s').
Proof.
  intros Hinv Hrun.
  destruct (advances_run s es s s' (advances_refl s) Hrun) as [_ Hc].
  specialize (Hc Hinv).
  assert (Hv : isContextValid s' = Ok false s')
    by by apply isContextValid_invalid.
  split; [exact Hc|].
  split; [intros m; unfold onMessage; by rewrite (bind_Ok _ _ _ _ _ Hv)|].
  split; [intros ms; unfold onMutations; by rewrite (bind_Ok _ _ _ _ _ Hv)|].
  split.
  { unfold scheduleCleanup. unfold bind at 1. unfold gets at 1.
    destruct (cleanupScheduled s'); [done|].
    by rewrite (bind_Ok _ _ _ _ _ Hv). }
  split; [unfold injectPageScript; by rewrite (bind_Ok _ _ _ _ _ Hv)|].
  split; [intros b; unfold init; by rewrite (bind_Ok _ _ _ _ _ Hv)|].
  rewrite cleanupBatch_eq. unfold cleanupBatch_rest.
  rewrite (bind_Ok _ _ _ false (set_cleanupScheduled false s')); [done|].
  by apply isContextValid_invalid.
Qed.

Lemma invalid_context_is_final_witness :
  let s := exec (init true)
                (initial_state Samples.mixed_page [] (Samples.page Complete)) in
  let es := [ EvSettingsResponse (Some DEFAULT_SETTINGS);
              EvMessage (SETTINGS_UPDATED Samples.disabled) ] in
  contextValid (default s (run es s)) = false.
Proof.
  intros s es.
  apply (invalid_context_is_final es s (default s (run es s))).
  - reflexivity.
  - apply run_reaches. vm_compute. reflexivity.
Defined.

(** ** Noticing that the extension was reloaded *)

(** The state after a handler has found [chrome.runtime] throwing. *)
Definition invalidated (s : State) : State :=
  if observer s
  then set_observer false (set_observing false (set_contextValid false s))
  else set_contextValid false s.

(** When reading [chrome.runtime.id] throws, the handler that notices marks
    the context invalid, disconnects and drops the mutation observer, and
    does nothing else: a settings update is not taken over, no cleanup is
    scheduled and the document is left as it is. *)
Theorem reload_is_noticed (s : State) :
  contextValid s = true ->
  runtime (env s) = RuntimeThrows ->
  (forall m, onMessage m s = Ok tt (invalidated s))
  /\ (forall ms, onMutations ms s = Ok tt (invalidated s))
  /\ injectPageScript s = Ok tt (invalidated s)
  /\ (forall b, init b s = Ok tt (invalidated s))
  /\ contextValid (invalidated s) = false
  /\ observer (invalidated s) = false
  /\ (observer s = true -> observing (invalidated s) = false)
  /\ document (invalidated s) = document s
  /\ settings (invalidated s) = settings s
  /\ idle_queue (invalidated s) = idle_queue s.
Proof.
  intros Hv Hr.
  assert (Hc : isContextValid s = Ok false (invalidated s)).
  { unfold isContextValid, invalidated. js_unfold. rewrite Hv, Hr.
    state_simpl. by destruct (observer s). }
  split; [intros m; unfold onMessage; by rewrite (bind_Ok _ _ _ _ _ Hc)|].
  split; [intros ms; unfold onMutations; by rewrite (bind_Ok _ _ _ _ _ Hc)|].
  split; [unfold injectPageScript; by rewrite (bind_Ok _ _ _ _ _ Hc)|].
  split; [intros b; unfold init; by rewrite (bind_Ok _ _ _ _ _ Hc)|].
  unfold invalidated. destruct (observer s) eqn:Ho; state_simpl; by rewrite ?Ho.
Qed.

Lemma reload_is_noticed_witness :
  let s := with_env (set_runtime RuntimeThrows) Samples.running in
  onMessage (SETTINGS_UPDATED Samples.disabled) s = Ok tt (invalidated s).
Proof.
  intros s.
  destruct (reload_is_noticed s) as (H & _).
  - vm_compute. reflexivity.
  - reflexivity.
  - exact (H (SETTINGS_UPDATED Samples.disabled)).
Defined.

(** ** The cleanup batch *)

Definition is_cleanup (task : IdleTask) : bool :=
  match callback task with
  | CleanupBatch => true
  | PrefetchInject _ _ => false
  end.

(** Number of cleanup batches waiting for an idle period. *)
Definition pending (s : State) : nat :=
  length (List.filter is_cleanup (idle_queue s)).

(** The flag [cleanupScheduled] tells whether a batch is waiting, and there
    is at most one. *)
Definition sched_ok (s : State) : Prop :=
  pending s = if cleanupScheduled s then 1%nat else 0%nat.

Lemma filter_present {A} (P : A -> bool) l i x :
  l !! i = Some x -> P x = true -> (0 < length (List.filter P l))%nat.
Proof.
  intros Hi Hx.
  assert (Hin : In x (List.filter P l)).
  { apply filter_In. split; [|done].
    by eapply list_elem_of_In, list_elem_of_lookup_2. }
  destruct (List.filter P l); [done|simpl; lia].
Qed.

Lemma filter_delete {A} (P : A -> bool) l : forall i x,
  l !! i = Some x ->
  length (List.filter P (delete i l))
  = (length (List.filter P l) - if P x then 1 else 0)%nat.
Proof.
  induction l as [|y l IH]; intros i x Hi; [done|].
  destruct i as [|i]; simpl in Hi.
  - injection Hi as ->. change (delete 0%nat (x :: l)) with l.
    cbn [List.filter]. destruct (P x); simpl; lia.
  - change (delete (S i) (y :: l)) with (y :: delete i l).
    cbn [List.filter]. pose proof (IH i x Hi) as IHi.
    destruct (P y); cbn [length]; [|exact IHi].
    rewrite IHi. destruct (P x) eqn:Hx; [|lia].
    pose proof (filter_present P l i x Hi Hx). lia.
Qed.

Lemma sched_ok_isContextValid : preserves sched_ok isContextValid.
Proof. unfold isContextValid. preserve; untouched. Qed.

Lemma isContextValid_frame s :
  exists valid s1,
    isContextValid s = Ok valid s1
    /\ cleanupScheduled s1 = cleanupScheduled s
    /\ idle_queue s1 = idle_queue s.
Proof.
  unfold isContextValid. js_unfold.
  destruct (contextValid s);
    [destruct (runtime (env s)); [| |state_simpl; destruct (observer s)]|];
    eexists _, _; (split; [reflexivity|split; reflexivity]).
Qed.

Lemma sched_ok_scheduleCleanup : preserves sched_ok scheduleCleanup.
Proof.
  intros s Hs. unfold scheduleCleanup. unfold bind at 1. unfold gets at 1.
  destruct (cleanupScheduled s) eqn:Hflag; [exact Hs|].
  destruct (isContextValid_frame s) as (valid & s1 & Hrun & Hflag1 & Hq1).
  rewrite (bind_Ok _ _ _ _ _ Hrun).
  assert (Hs1 : sched_ok s1).
  { unfold sched_ok, pending in *. by rewrite Hflag1, Hq1. }
  destruct valid; cbn [negb]; [|exact Hs1].
  unfold requestIdleCallback. js_unfold. unfold sched_ok, pending in *.
  state_simpl. rewrite Hflag1, Hflag in Hs1.
  rewrite List.filter_app, length_app, Hs1. reflexivity.
Qed.

Lemma sched_ok_onIntersectionEntry i entry :
  preserves sched_ok (onIntersectionEntry i entry).
Proof.
  unfold onIntersectionEntry, requestIdleCallback, alter_io.
  preserve; try untouched.
  cbv beta. unfold sched_ok, pending in *. state_simpl.
  rewrite List.filter_app, length_app. simpl. lia.
Qed.

Lemma sched_ok_prefetchInject i href :
  preserves sched_ok (prefetchInject i href).
Proof.
  unfold prefetchInject, createElement, head_append, alter_io.
  preserve; untouched.
Qed.

Lemma sched_ok_run es s s' : sched_ok s -> run es s = Some s' -> sched_ok s'.
Proof.
  apply (life_run sched_ok); try (intros; assumption).
  - apply sched_ok_scheduleCleanup.
  - apply sched_ok_onIntersectionEntry.
  - intros s1 i task Hi Hcb Hs1. unfold sched_ok, pending in *. state_simpl.
    rewrite (filter_delete _ _ _ _ Hi). unfold is_cleanup at 2. rewrite Hcb.
    assert (0 < length (List.filter is_cleanup (idle_queue s1)))%nat.
    { apply (filter_present _ _ i task Hi). unfold is_cleanup. by rewrite Hcb. }
    destruct (cleanupScheduled s1); lia.
  - intros s1 i task io href Hi Hcb Hs1.
    apply preserves_exec; [apply sched_ok_prefetchInject|].
    unfold sched_ok, pending in *. state_simpl.
    rewrite (filter_delete _ _ _ _ Hi). unfold is_cleanup at 2. rewrite Hcb.
    rewrite Hs1. lia.
Qed.

(** In every state the content script can reach, at most one cleanup batch
    is waiting for an idle period, and [cleanupScheduled] is set exactly when
    one is. *)
Theorem one_cleanup_pending (d : list node) (sheets : list StyleSheet)
    (ev : Env) (es : list Event) (s : State) :
  run es (initial_state d sheets ev) = Some s ->
  (pending s <= 1)%nat
  /\ (cleanupScheduled s = true <-> pending s = 1%nat)
  /\ (cleanupScheduled s = false <-> pending s = 0%nat).
Proof.
  intros Hrun.
  assert (Hs : sched_ok s)
    by (by apply (sched_ok_run es (initial_state d sheets ev))).
  unfold sched_ok in Hs. destruct (cleanupScheduled s); rewrite Hs.
  - split; [lia|]. split; split; (done || lia).
  - split; [lia|]. split; split; (done || lia).
Qed.

Lemma one_cleanup_pending_witness :
  let s0 := initial_state Samples.mixed_page [] (Samples.page Complete) in
  let es := EvSettingsResponse (Some DEFAULT_SETTINGS)
            :: EvMutations [[AddedElement 3]] :: Samples.off_on in
  (pending (default s0 (run es s0)) <= 1)%nat.
Proof.
  intros s0 es.
  apply (one_cleanup_pending Samples.mixed_page [] (Samples.page Complete) es).
  apply run_reaches. vm_compute. reflexivity.
Defined.

(** ** The prefetched set *)

(** Every observer's [prefetched] set has no duplicates and at most
    [MAX_PREFETCH] members. *)
Definition io_ok (s : State) : Prop :=
  Forall (fun io => NoDup (prefetched io)
                    /\ (length (prefetched io) <= MAX_PREFETCH)%nat)
         (io_observers s).

Lemma set_add_length x l : (length (set_add x l) <= S (length l))%nat.
Proof.
  unfold set_add. case_bool_decide; [lia|]. rewrite length_app. simpl. lia.
Qed.

Lemma io_ok_unobserve s i f :
  (forall io, prefetched (f io) = prefetched io) ->
  io_ok s -> io_ok (set_io_observers (alter f i (io_observers s)) s).
Proof.
  intros Hf Hs. unfold io_ok in *. state_simpl.
  apply Forall_alter; [exact Hs|]. intros io _. by rewrite Hf.
Qed.

Lemma io_ok_onIntersectionEntry i entry :
  preserves io_ok (onIntersectionEntry i entry).
Proof.
  unfold onIntersectionEntry, requestIdleCallback, alter_io.
  preserve; try untouched; cbv beta; by apply io_ok_unobserve.
Qed.

Lemma io_ok_scheduleCleanup : preserves io_ok scheduleCleanup.
Proof.
  unfold scheduleCleanup, requestIdleCallback, isContextValid.
  preserve; untouched.
Qed.

Lemma io_ok_prefetchInject i href : preserves io_ok (prefetchInject i href).
Proof.
  intros s Hs. unfold prefetchInject. unfold bind at 1. unfold gets at 1.
  destruct (MAX_PREFETCH <=? length (io_prefetched i s))%nat eqn:Hfull;
    [exact Hs|].
  apply Nat.leb_gt in Hfull.
  unfold createElement, head_append, alter_io. js_unfold. state_simpl.
  destruct (document_head (document s)); [|exact Hs].
  unfold io_ok in *. state_simpl.
  apply Forall_alter; [exact Hs|]. intros io Hio [Hnd Hlen]. simpl.
  split; [by apply set_add_NoDup|].
  unfold io_prefetched in Hfull. rewrite Hio in Hfull.
  pose proof (set_add_length href (prefetched io)). lia.
Qed.

Lemma io_ok_run es s s' : io_ok s -> run es s = Some s' -> io_ok s'.
Proof.
  apply (life_run io_ok); try (intros; assumption).
  - intros s1 l Hs1. unfold io_ok in *. state_simpl.
    apply Forall_app. split; [exact Hs1|].
    apply Forall_singleton. simpl. split; [apply NoDup_nil_2|].
    unfold MAX_PREFETCH. lia.
  - apply io_ok_scheduleCleanup.
  - apply io_ok_onIntersectionEntry.
  - intros s1 i task io href _ _ Hs1.
    apply preserves_exec; [apply io_ok_prefetchInject|exact Hs1].
Qed.

(** In every state the content script can reach, the set of URLs an
    intersection observer has prefetched has no duplicates and at most five
    members. *)
Theorem prefetched_set_bounded (d : list node) (sheets : list StyleSheet)
    (ev : Env) (es : list Event) (s : State) :
  run es (initial_state d sheets ev) = Some s ->
  forall io, io ∈ io_observers s ->
    NoDup (prefetched io) /\ (length (prefetched io) <= 5)%nat.
Proof.
  intros Hrun io Hio.
  assert (Hs : io_ok s).
  { apply (io_ok_run es (initial_state d sheets ev)); [|exact Hrun].
    apply Forall_nil_2. }
  unfold io_ok in Hs. rewrite Forall_forall in Hs. by apply Hs.
Qed.

Lemma prefetched_set_bounded_witness :
  let s0 := initial_state Samples.mixed_page [] (Samples.page Complete) in
  let es := [ EvSettingsResponse (Some Samples.prefetching);
              EvMessage REFRESH_OPTIMIZATIONS ] in
  length (io_observers (default s0 (run es s0))) = 2%nat
  /\ forall io, io ∈ io_observers (default s0 (run es s0)) ->
       NoDup (prefetched io) /\ (length (prefetched io) <= 5)%nat.
Proof.
  intros s0 es. split; [vm_compute; reflexivity|].
  apply (prefetched_set_bounded Samples.mixed_page [] (Samples.page Complete)
           es).
  apply run_reaches. vm_compute. reflexivity.
Defined.

(** * What the content-ready pass establishes *)






Section established.
Variable c : Settings.t.
Variable ev : Env.






End established.



(** * The image chosen for preloading *)

Definition area (img : elem) : Z := r_width (rect img) * r_height (rect img).

Definition visible (ev : Env) (img : elem) : bool := in_viewport ev (rect img).

(** What the scan has found after the images [seen]. *)
Definition scanned (ev : Env) (seen : list elem) (acc : option elem * Z)
  : Prop :=
  (forall x, x ∈ seen -> visible ev x = true -> area x <= snd acc)
  /\ match fst acc with
     | None => snd acc = 0
     | Some img =>
         img ∈ seen /\ visible ev img = true /\ snd acc = area img
         /\ 0 < area img
     end.

Lemma scanned_fold ev rest : forall seen acc,
  scanned ev seen acc ->
  scanned ev (seen ++ rest)
    (fold_left (fun acc img =>
                  let rect := rect img in
                  if in_viewport ev rect then
                    let area := r_width rect * r_height rect in
                    if snd acc <? area then (Some img, area) else acc
                  else acc)
               rest acc).
Proof.
  induction rest as [|img rest IH]; intros seen acc Hacc; cbn [fold_left].
  - by rewrite app_nil_r.
  - replace (seen ++ img :: rest) with ((seen ++ [img]) ++ rest)
      by (by rewrite <- app_assoc).
    apply IH. destruct Hacc as [Hmax Hbest]. cbv zeta.
    fold (visible ev img). fold (area img).
    destruct (visible ev img) eqn:Hv.
    + destruct (Z.ltb_spec (snd acc) (area img)) as [Hlt|Hle].
      * split; cbn [fst snd].
        -- intros x Hx Hxv. apply elem_of_app in Hx as [Hx|Hx].
           ++ specialize (Hmax x Hx Hxv). lia.
           ++ apply list_elem_of_singleton in Hx. subst x. lia.
        -- split; [apply elem_of_app; right; left|].
           split; [done|]. split; [done|].
           destruct (fst acc); [|lia].
           destruct Hbest as (_ & _ & Ha & Hpos). lia.
      * split.
        -- intros x Hx Hxv. apply elem_of_app in Hx as [Hx|Hx].
           ++ by apply Hmax.
           ++ apply list_elem_of_singleton in Hx. by subst x.
        -- destruct (fst acc); [|done].
           destruct Hbest as (Hin & Hrest). split; [|done].
           apply elem_of_app. by left.
    + split.
      * intros x Hx Hxv. apply elem_of_app in Hx as [Hx|Hx].
        -- by apply Hmax.
        -- apply list_elem_of_singleton in Hx. subst x. congruence.
      * destruct (fst acc); [|done].
        destruct Hbest as (Hin & Hrest). split; [|done].
        apply elem_of_app. by left.
Qed.

Lemma largest_visible_scanned ev images :
  scanned ev images (largest_visible ev images).
Proof.
  apply (scanned_fold ev images [] (None, 0)).
  split; [|done]. intros x Hx. by apply elem_of_nil in Hx.
Qed.

(** [preloadLCPCandidate], switched on and with a [head] in the document,
    returns.  It leaves the document as it is, or appends one [preload] link
    to the head: for the [src] of an image of the document that is in the
    viewport, covers more than 5000 square pixels there and at least as much
    as every other image in the viewport, and for which no such link
    existed. *)
Theorem preloadLCPCandidate_picks_largest (s : State) (c : Settings.t)
    (hd : elem) :
  settings s = Some c ->
  document_head (document s) = Some hd ->
  exists s',
    preloadLCPCandidate s = Ok tt s'
    /\ (document s' = document s
        \/ exists img,
             Settings.preloadLCP c = true
             /\ img ∈ elems (document s)
             /\ tag img = "img"
             /\ visible (env s) img = true
             /\ 5000 < area img
             /\ (forall x, x ∈ elems (document s) -> tag x = "img" ->
                           is_Some (attrs x !! "src") ->
                           visible (env s) x = true -> area x <= area img)
             /\ has_link "preload" (el_src (env s) img) (document s) = false
             /\ document s'
                = head_appendChild
                    (preload_link (next_eid s) (el_src (env s) img))
                    (document s)).
Proof.
  intros Hset Hh. unfold preloadLCPCandidate, createElement, head_append.
  js_unfold. rewrite Hset.
  destruct (Settings.preloadLCP c) eqn:Hflag; cbn [negb];
    [|eexists; split; [reflexivity|by left]].
  pose proof (largest_visible_scanned (env s) (selected sel_img_src (document s)))
    as [Hmax Hbest].
  destruct (largest_visible (env s) (selected sel_img_src (document s)))
    as [[img|] a]; cbn [fst snd] in *;
    [|eexists; split; [reflexivity|by left]].
  destruct Hbest as (Hin & Hv & -> & Hpos).
  destruct (truthy (el_src (env s) img) && (5000 <? area img)) eqn:Hbig;
    [|eexists; split; [reflexivity|by left]].
  apply andb_true_iff in Hbig as [Hsrc Hbig]. apply Z.ltb_lt in Hbig.
  destruct (has_link "preload" (el_src (env s) img) (document s)) eqn:Hlink;
    [eexists; split; [reflexivity|by left]|].
  state_simpl. rewrite Hh.
  eexists. split; [reflexivity|]. right. exists img. state_simpl.
  apply elem_of_selected in Hin as (p & Hpe & Hsel).
  unfold sel_img_src in Hsel. apply andb_true_iff in Hsel as [Htag Hattr].
  split; [done|]. split.
  { unfold elems. apply list_elem_of_fmap. by exists (p, img). }
  split; [by apply String.eqb_eq|]. split; [done|]. split; [done|].
  split; [|done].
  intros x Hx Htagx Hsrcx Hvx. apply Hmax; [|done].
  unfold elems in Hx. apply list_elem_of_fmap in Hx as ([q x'] & -> & Hqx).
  apply elem_of_selected. exists q. split; [done|].
  unfold sel_img_src, tag_is. simpl in *. rewrite Htagx. cbn.
  unfold hasAttribute. by apply bool_decide_eq_true.
Qed.

Lemma preloadLCPCandidate_picks_largest_witness :
  exists s',
    preloadLCPCandidate Samples.mixed = Ok tt s'
    /\ (length (elems (document s')) <= S (length (elems (document Samples.mixed))))%nat.
Proof.
  destruct (preloadLCPCandidate_picks_largest Samples.mixed DEFAULT_SETTINGS
              (Samples.el 1 "head" [] zeroRect) eq_refl eq_refl)
    as (s' & Hrun & Hdoc).
  exists s'. split; [exact Hrun|].
  destruct Hdoc as [->|(img & _ & _ & _ & _ & _ & _ & _ & ->)]; [lia|].
  rewrite (Permutation_length
             (elems_head_appendChild _ (document Samples.mixed)
                (Samples.el 1 "head" [] zeroRect) eq_refl)).
  rewrite length_app. unfold preload_link, node_elems. simpl. lia.
Defined.

(** * The popup

    [popup.js] holds its own copy of the settings, shows them, and sends them
    to the background worker on every change.  The state is the script's
    [currentSettings], what the page shows, and the messages sent so far. *)

Module Popup.
Export JS.

Definition DEFAULT_SETTINGS : Object :=
  list_to_map
    [ ("enabled", VBool true);
      ("disableAnimations", VBool true);
      ("lazyLoadImages", VBool true);
      ("disableAutoplay", VBool true);
      ("throttleTimers", VBool true);
      ("prefetchDNS", VBool true);
      ("preloadLCP", VBool true);
      ("prefetchLinks", VBool false);
      ("optimizeImagePriority", VBool true);
      ("lazyLoadIframes", VBool true);
      ("reduceMediaPreload", VBool true);
      ("fontDisplaySwap", VBool true);
      ("contentVisibility", VBool true);
      ("stabilizeLayout", VBool true);
      ("nonBlockingCSS", VBool true);
      ("deferScripts", VBool false);
      ("passiveListeners", VBool true) ].

Definition FEATURE_KEYS : list string :=
  [ "disableAnimations"; "lazyLoadImages"; "disableAutoplay"; "throttleTimers";
    "prefetchDNS"; "preloadLCP"; "prefetchLinks"; "optimizeImagePriority";
    "lazyLoadIframes"; "reduceMediaPreload"; "fontDisplaySwap";
    "contentVisibility"; "stabilizeLayout"; "nonBlockingCSS"; "deferScripts";
    "passiveListeners" ].

(** An element of class [option]: its [data-setting] and whether its toggle
    has the class [checked]. *)
Record OptionRow := mkOption {
  setting : string;
  checked : bool
}.

(** What the popup sends. *)
Inductive Sent :=
| GetSettings
| SaveSettings (settings : Object)
| QueryTab.            (* [chrome.tabs.query] of [updateStats] *)

Record State := mkState {
  currentSettings : Object;
  mainToggle_active : bool;          (* mainToggle has class [active] *)
  statusIndicator_inactive : bool;   (* statusIndicator has class [inactive] *)
  statusText : string;
  body_disabled : bool;              (* body has class [disabled] *)
  options : list OptionRow;
  activeFeatures : string;
  imagesOptimized_text : string;
  estSaved : string;
  alertBanner_warning : bool;        (* alertBanner has class [warning] *)
  alertText : string;
  sent : list Sent
}.

Definition set_currentSettings (v : Object) (x : State) : State :=
  mkState v (mainToggle_active x) (statusIndicator_inactive x) (statusText x)
          (body_disabled x) (options x) (activeFeatures x) (imagesOptimized_text x)
          (estSaved x) (alertBanner_warning x) (alertText x) (sent x).

Definition set_options (v : list OptionRow) (x : State) : State :=
  mkState (currentSettings x) (mainToggle_active x)
          (statusIndicator_inactive x) (statusText x) (body_disabled x) v
          (activeFeatures x) (imagesOptimized_text x) (estSaved x)
          (alertBanner_warning x) (alertText x) (sent x).

Definition send (m : Sent) (x : State) : State :=
  mkState (currentSettings x) (mainToggle_active x)
          (statusIndicator_inactive x) (statusText x) (body_disabled x)
          (options x) (activeFeatures x) (imagesOptimized_text x) (estSaved x)
          (alertBanner_warning x) (alertText x) (sent x ++ [m]).

(** [currentSettings[k]] as a condition. *)
Definition on (settings : Object) (k : string) : bool :=
  to_boolean (settings !! k).

(** [cs[k] = !cs[k]] *)
Definition flip (k : string) (settings : Object) : Object :=
  <[k := VBool (negb (on settings k))]> settings.

(** [updateUI()] *)
Definition updateUI (x : State) : State :=
  let enabled := on (currentSettings x) "enabled" in
  mkState (currentSettings x)
          enabled
          (negb enabled)
          (if enabled then "Active" else "Disabled")
          (negb enabled)
          (map (fun option => mkOption (setting option)
                                       (on (currentSettings x) (setting option)))
               (options x))
          (activeFeatures x) (imagesOptimized_text x) (estSaved x)
          (alertBanner_warning x) (alertText x) (sent x).

(** [FEATURE_KEYS.filter(k => currentSettings[k]).length] *)
Definition activeCount (settings : Object) : nat :=
  length (List.filter (on settings) FEATURE_KEYS).

(** [updateStats()] up to the callbacks: the count, the query for the
    active tab, and the alert. *)
Definition updateStats (x : State) : State :=
  let count := pretty (Z.of_nat (activeCount (currentSettings x))) in
  let enabled := on (currentSettings x) "enabled" in
  mkState (currentSettings x) (mainToggle_active x)
          (statusIndicator_inactive x) (statusText x) (body_disabled x)
          (options x)
          count
          (imagesOptimized_text x) (estSaved x)
          (negb enabled)
          (if enabled then count +:+ " optimizations active on this page."
           else "Extension is disabled. Enable to optimize pages.")
          (sent x ++ [QueryTab]).

(** [savedMs] for the metrics of a response; [x || 0] is [x] on numbers. *)
Definition savedMs (m : Metrics) : Z :=
  imagesOptimized m * 15
  + iframesLazyLoaded m * 150
  + mediaOptimized m * 100
  + cssNonBlocked m * 80
  + dnsPrefetched m * 40
  + linksPrefetched m * 200
  + (if animationsDisabled m =? 0 then 0 else 30).

Section Formatting.
(** [(savedMs / 1000).toFixed(1)], a host function of [savedMs]. *)
Variable toFixed1 : Z -> string.

Definition estimate (ms : Z) : string :=
  if 1000 <=? ms then "~" +:+ toFixed1 ms +:+ "s"
  else "~" +:+ pretty ms +:+ "ms".

(** The callbacks of the tab query and of the [GET_METRICS] request;
    [None] when there is no tab, [chrome.runtime.lastError] is set or there
    is no response. *)
Definition onMetrics (response : option Metrics) (x : State) : State :=
  match response with
  | None => x
  | Some metrics =>
      mkState (currentSettings x) (mainToggle_active x)
              (statusIndicator_inactive x) (statusText x) (body_disabled x)
              (options x) (activeFeatures x)
              (pretty (imagesOptimized metrics))
              (estimate (savedMs metrics))
              (alertBanner_warning x) (alertText x) (sent x)
  end.
End Formatting.

(** [saveSettings()] up to its callback, which changes nothing. *)
Definition saveSettings (x : State) : State :=
  send (SaveSettings (currentSettings x)) x.

(** The click handler of [mainToggle]. *)
Definition onMainToggle (x : State) : State :=
  saveSettings
    (updateStats (updateUI (set_currentSettings (flip "enabled" (currentSettings x)) x))).

(** The click handler of the [i]-th option, [None] when there is none. *)
Definition onOption (i : nat) (x : State) : option State :=
  match options x !! i with
  | None => None
  | Some option =>
      let settingName := setting option in
      let x1 := set_currentSettings (flip settingName (currentSettings x)) x in
      let x2 :=
        set_options
          (<[i := mkOption settingName (on (currentSettings x1) settingName)]>
             (options x1)) x1 in
      Some (saveSettings (updateStats x2))
  end.

(** The click handler of [resetBtn]. *)
Definition onReset (x : State) : State :=
  saveSettings (updateStats (updateUI (set_currentSettings DEFAULT_SETTINGS x))).

(** The callback of the [GET_SETTINGS] request and what follows the
    [await]: [lastError] is [chrome.runtime.lastError], [response] the
    [settings] of the response if it has any. *)
Definition onSettings (lastError : bool) (response : option Object) (x : State)
  : State :=
  let x1 :=
    if lastError then x else
      match response with
      | Some settings =>
          set_currentSettings (spread DEFAULT_SETTINGS settings) x
      | None => x
      end in
  updateStats (updateUI x1).

(** The popup once its script has run up to [await loadSettings()], on a
    page with the given option rows. *)
Definition start (rows : list OptionRow) : State :=
  mkState DEFAULT_SETTINGS false false "" false rows
          "" "" "" false "" [GetSettings].

Inductive Event :=
| EvSettings (lastError : bool) (response : option Object)
| EvMainToggle
| EvOption (i : nat)
| EvReset
| EvMetrics (response : option Metrics)
| EvTimer.                             (* [setTimeout(updateStats, 3000)] *)

Section Events.
Variable toFixed1 : Z -> string.

Definition step (e : Event) (x : State) : option State :=
  match e with
  | EvSettings lastError response => Some (onSettings lastError response x)
  | EvMainToggle => Some (onMainToggle x)
  | EvOption i => onOption i x
  | EvReset => Some (onReset x)
  | EvMetrics response => Some (onMetrics toFixed1 response x)
  | EvTimer => Some (updateStats x)
  end.

Fixpoint run (es : list Event) (x : State) : option State :=
  match es with
  | [] => Some x
  | e :: es' =>
      match step e x with
      | Some x' => run es' x'
      | None => None
      end
  end.
End Events.

End Popup.

(** * Properties of the popup *)

(** What a content script reads off the default settings. *)
Definition default_snapshot : Settings.t := DEFAULT_SETTINGS.

Module PopupProps.
Import Popup.

(** ** What the popup shows *)

(** The page shows the settings the script holds. *)
Definition shown (x : State) : Prop :=
  let enabled := on (currentSettings x) "enabled" in
  mainToggle_active x = enabled
  /\ statusIndicator_inactive x = negb enabled
  /\ body_disabled x = negb enabled
  /\ statusText x = (if enabled then "Active" else "Disabled")
  /\ alertBanner_warning x = negb enabled
  /\ activeFeatures x = pretty (Z.of_nat (activeCount (currentSettings x)))
  /\ forall option, option ∈ options x ->
       checked option = on (currentSettings x) (setting option).

(** The option rows are for distinct settings, none of them the master
    flag. *)
Definition rows_ok (x : State) : Prop :=
  NoDup (map setting (options x)) /\ ("enabled" ∉ map setting (options x)).

Ltac popup_simpl :=
  unfold onReset, onMainToggle, saveSettings, send, updateStats, updateUI,
    set_options, set_currentSettings;
  cbn [currentSettings mainToggle_active statusIndicator_inactive statusText
       body_disabled options activeFeatures imagesOptimized_text estSaved
       alertBanner_warning alertText sent].

Lemma on_flip_ne k k' settings :
  k' <> k -> on (flip k settings) k' = on settings k'.
Proof. intros H. unfold on, flip. by rewrite lookup_insert_ne. Qed.

Lemma on_flip k settings : on (flip k settings) k = negb (on settings k).
Proof. unfold on at 1, flip. by rewrite lookup_insert_eq. Qed.

Lemma shown_updateUI x : shown (updateStats (updateUI x)).
Proof.
  unfold shown. popup_simpl.
  repeat split. intros option Hin.
  apply list_elem_of_fmap in Hin as (o & -> & _). reflexivity.
Qed.

Lemma names_updateUI x :
  map setting (options (updateStats (updateUI x))) = map setting (options x).
Proof.
  popup_simpl. rewrite map_map. by apply map_ext.
Qed.

Lemma shown_onOption i x x' :
  rows_ok x -> shown x -> onOption i x = Some x' ->
  shown x' /\ map setting (options x') = map setting (options x).
Proof.
  intros [Hnd Hen] (Hm & Hs & Hb & Ht & Ha & Hc & Hrows) Hstep.
  unfold onOption in Hstep.
  destruct (options x !! i) as [row|] eqn:Hi; [|discriminate].
  injection Hstep as <-.
  assert (Hname : setting row <> "enabled").
  { intros E. apply Hen. rewrite <- E. apply list_elem_of_fmap.
    exists row. split; [done|]. by eapply list_elem_of_lookup_2. }
  split.
  - unfold shown. popup_simpl.
    rewrite (on_flip_ne _ "enabled") by done.
    repeat split; try done.
    intros option Hin.
    apply list_elem_of_lookup in Hin as (j & Hj).
    destruct (decide (j = i)) as [->|Hji].
    + rewrite list_lookup_insert_eq in Hj
        by (by eapply lookup_lt_Some).
      by injection Hj as <-.
    + rewrite list_lookup_insert_ne in Hj by done.
      rewrite on_flip_ne.
      * apply Hrows. by eapply list_elem_of_lookup_2.
      * intros E. apply Hji.
        apply (NoDup_lookup _ j i (setting row) Hnd).
        -- rewrite list_lookup_fmap, Hj. simpl. by rewrite E.
        -- by rewrite list_lookup_fmap, Hi.
  - popup_simpl. rewrite list_fmap_insert. cbn [setting].
    apply list_insert_id. by rewrite list_lookup_fmap, Hi.
Qed.

Section Shown.
Variable toFixed1 : Z -> string.

Lemma shown_step e x x' :
  rows_ok x -> shown x -> step toFixed1 e x = Some x' ->
  shown x' /\ map setting (options x') = map setting (options x).
Proof.
  intros Hrows Hx Hstep. destruct e; cbn [step] in Hstep.
  - injection Hstep as <-. split; [apply shown_updateUI|].
    unfold onSettings. rewrite names_updateUI.
    destruct lastError; [done|]. by destruct response.
  - injection Hstep as <-. split; [apply shown_updateUI|].
    unfold onMainToggle, saveSettings, send.
    cbn [options]. by rewrite names_updateUI.
  - by apply (shown_onOption i).
  - injection Hstep as <-. split; [apply shown_updateUI|].
    unfold onReset, saveSettings, send.
    cbn [options]. by rewrite names_updateUI.
  - injection Hstep as <-. split; [|by destruct response].
    destruct response; [|done]. exact Hx.
  - injection Hstep as <-. split; [|done].
    destruct Hx as (Hm & Hs & Hb & Ht & Ha & Hc & Hr).
    unfold shown. popup_simpl. by repeat split.
Qed.

Lemma shown_run es : forall x x',
  rows_ok x -> shown x -> run toFixed1 es x = Some x' ->
  shown x' /\ map setting (options x') = map setting (options x).
Proof.
  induction es as [|e es IH]; intros x x' Hrows Hx Hrun; cbn [run] in Hrun.
  - by injection Hrun as <-.
  - destruct (step toFixed1 e x) as [x1|] eqn:Hstep; [|discriminate].
    destruct (shown_step e x x1 Hrows Hx Hstep) as [Hx1 Hn1].
    destruct (IH x1 x') as [Hx' Hn']; [|done|done|].
    + unfold rows_ok. by rewrite Hn1.
    + split; [done|congruence].
Qed.
End Shown.

(** On a page whose option rows are for distinct settings other than
    [enabled]: once the settings response has been handled, whatever clicks,
    timers and metrics responses follow, the page shows the settings the
    script holds: the main toggle, the status and the alert follow
    [enabled], the count is the number of feature keys that are on, and each
    row is checked exactly when its setting is on. *)
Theorem popup_shows_settings (toFixed1 : Z -> string) (x0 x : State)
    (lastError : bool) (response : option Object) (es : list Event) :
  NoDup (map setting (options x0)) ->
  "enabled" ∉ map setting (options x0) ->
  run toFixed1 (EvSettings lastError response :: es) x0 = Some x ->
  let enabled := on (currentSettings x) "enabled" in
  mainToggle_active x = enabled
  /\ statusIndicator_inactive x = negb enabled
  /\ body_disabled x = negb enabled
  /\ statusText x = (if enabled then "Active" else "Disabled")
  /\ alertBanner_warning x = negb enabled
  /\ activeFeatures x = pretty (Z.of_nat (activeCount (currentSettings x)))
  /\ (forall option, option ∈ options x ->
        checked option = on (currentSettings x) (setting option))
  /\ map setting (options x) = map setting (options x0).
Proof.
  intros Hnd Hen Hrun. cbn [run step] in Hrun.
  assert (Hn : map setting (options (onSettings lastError response x0))
               = map setting (options x0)).
  { unfold onSettings. rewrite names_updateUI.
    destruct lastError; [done|]. by destruct response. }
  destruct (shown_run toFixed1 es (onSettings lastError response x0) x)
    as [Hx Hnames]; [| |exact Hrun|].
  - unfold rows_ok. by rewrite Hn.
  - apply shown_updateUI.
  - destruct Hx as (Hm & Hs & Hb & Ht & Ha & Hc & Hr).
    repeat (split; [assumption|]). congruence.
Qed.

Definition sample_rows : list OptionRow :=
  [mkOption "lazyLoadImages" false; mkOption "prefetchLinks" true].

Lemma popup_shows_settings_witness :
  let x0 := start sample_rows in
  let es := [ EvSettings false None; EvOption 1; EvMainToggle; EvOption 0 ] in
  let x := default x0 (run (fun _ => "") es x0) in
  mainToggle_active x = false
  /\ map checked (options x) = [false; true].
Proof.
  intros x0 es x.
  assert (Hsome : is_some (run (fun _ => "") es x0) = true)
    by (vm_compute; reflexivity).
  assert (Hrun : run (fun _ => "") es x0 = Some x).
  { subst x. destruct (run (fun _ => "") es x0); [reflexivity|discriminate]. }
  destruct (popup_shows_settings (fun _ => "") x0 x false None
              [EvOption 1; EvMainToggle; EvOption 0]) as (Hm & _).
  - change (NoDup ["lazyLoadImages"; "prefetchLinks"]).
    apply NoDup_cons. split; [|apply NoDup_singleton].
    intros H. apply list_elem_of_singleton in H. discriminate H.
  - change ("enabled" ∉ ["lazyLoadImages"; "prefetchLinks"]).
    intros H. apply elem_of_cons in H as [H|H]; [discriminate H|].
    apply list_elem_of_singleton in H. discriminate H.
  - exact Hrun.
  - rewrite Hm. split; vm_compute; reflexivity.
Defined.

(** ** The count of active features *)

Lemma filter_flip_out k settings keys :
  k ∉ keys ->
  List.filter (on (flip k settings)) keys = List.filter (on settings) keys.
Proof.
  intros Hk. apply filter_ext_in_iff. intros k' Hin.
  apply on_flip_ne. intros ->. by apply Hk, list_elem_of_In.
Qed.

Lemma count_flip k settings keys :
  NoDup keys -> k ∈ keys ->
  length (List.filter (on (flip k settings)) keys)
  = if on settings k
    then pred (length (List.filter (on settings) keys))
    else S (length (List.filter (on settings) keys)).
Proof.
  induction keys as [|k' keys IH]; intros Hnd Hin.
  { by apply elem_of_nil in Hin. }
  apply NoDup_cons in Hnd as [Hk' Hnd]. cbn [List.filter].
  destruct (decide (k = k')) as [<-|Hne].
  - rewrite on_flip, (filter_flip_out k settings keys Hk').
    by destruct (on settings k).
  - apply elem_of_cons in Hin as [Hin|Hin]; [done|].
    rewrite (on_flip_ne k k') by done.
    rewrite <- (on_flip_ne k k' settings) at 1 by done.
    rewrite on_flip_ne by done.
    destruct (on settings k') eqn:Hon'; cbn [length]; rewrite (IH Hnd Hin).
    + destruct (on settings k) eqn:Hon; [|done].
      assert (0 < length (List.filter (on settings) keys))%nat; [|lia].
      assert (Hf : In k (List.filter (on settings) keys))
        by (apply filter_In; split; [by apply list_elem_of_In|done]).
      destruct (List.filter (on settings) keys); [done|simpl; lia].
    + done.
Qed.

(** The number shown as active features is at most 16; flipping a feature
    key changes it by exactly one, up when the feature goes on and down when
    it goes off, and flipping any other key, [enabled] among them, leaves it
    as it is; after a reset it is 14. *)
Theorem active_count_follows_flips (settings : Object) (k : string) :
  (activeCount settings <= 16)%nat
  /\ (k ∈ FEATURE_KEYS ->
      activeCount (flip k settings)
      = if on settings k then pred (activeCount settings)
        else S (activeCount settings))
  /\ (k ∈ FEATURE_KEYS -> on settings k = true ->
      (0 < activeCount settings)%nat)
  /\ (k ∉ FEATURE_KEYS -> activeCount (flip k settings) = activeCount settings)
  /\ ("enabled" ∉ FEATURE_KEYS)
  /\ activeCount DEFAULT_SETTINGS = 14%nat.
Proof.
  unfold activeCount. split; [|split; [|split; [|split; [|split]]]].
  - etransitivity; [apply filter_length_le|]. reflexivity.
  - intros Hk. apply count_flip; [|done].
    apply (bool_decide_unpack _). vm_compute. exact I.
  - intros Hk Hon.
    assert (Hf : In k (List.filter (on settings) FEATURE_KEYS))
      by (apply filter_In; split; [by apply list_elem_of_In|done]).
    destruct (List.filter (on settings) FEATURE_KEYS); [done|simpl; lia].
  - intros Hk. by rewrite filter_flip_out.
  - apply (bool_decide_unpack _). vm_compute. exact I.
  - vm_compute. reflexivity.
Qed.

(** ** A reset, end to end *)

(** A click on the reset button sends one [SAVE_SETTINGS]; when the worker
    has handled it and the write has succeeded, the worker's settings and the
    stored ones are the defaults, whatever they were, and the sender is
    told [success]. *)
Theorem reset_restores_defaults (x : State) (w : Background.World) (p : nat) :
  exists settings,
    sent (onReset x) = sent x ++ [QueryTab; SaveSettings settings]
    /\ currentSettings (onReset x) = DEFAULT_SETTINGS
    /\ exists w',
         Background.run
           [ Background.EvMessage (Background.SAVE_SETTINGS (Some settings))
                                  None p;
             Background.EvSetDone (length (Background.tasks w)) true ] w
         = Some w'
         /\ Background.currentSettings w' = Background.DEFAULT_SETTINGS
         /\ Background.storage w' = Some Background.DEFAULT_SETTINGS
         /\ Background.snapshot (Background.currentSettings w')
            = default_snapshot
         /\ Background.sent w'
            = Background.sent w ++ [Background.Respond p Background.ReplySuccess].
Proof.
  exists DEFAULT_SETTINGS. split.
  { popup_simpl. by rewrite <- app_assoc. }
  split; [reflexivity|].
  eexists. split.
  { erewrite BackgroundProps.run_cons by reflexivity.
    erewrite BackgroundProps.run_cons
      by (by apply BackgroundProps.step_SetDone_save).
    reflexivity. }
  assert (E : spread Background.DEFAULT_SETTINGS DEFAULT_SETTINGS
              = Background.DEFAULT_SETTINGS).
  { apply BackgroundProps.spread_complete. intros key Hkey. exact Hkey. }
  BackgroundProps.world_simpl. rewrite E.
  repeat split; reflexivity.
Qed.

End PopupProps.
